(** * The pull engine of ostree (src/ostree/ostree-pull.c)

    A shallow embedding of the scanner, the fetch dispatcher and the pull
    coordinator, with the properties of the termination detector, the
    request ledgers and the coordinator's ordering of store operations. *)

From Stdlib Require Import ZArith Lia.
From stdpp Require Import gmap strings list.

Local Open Scope string_scope.
Local Open Scope Z_scope.
Local Open Scope list_scope.

(** ** Errors and results *)

(** The [GError] codes the file raises or matches with [g_error_matches];
    every error the file sets itself is [G_IO_ERROR_FAILED]. *)
Inductive GErrorCode :=
| G_IO_ERROR_FAILED
| G_KEY_FILE_ERROR_KEY_NOT_FOUND
| G_KEY_FILE_ERROR_GROUP_NOT_FOUND
| G_ERROR_FOREIGN.

#[global] Instance GErrorCode_eq_dec : EqDecision GErrorCode.
Proof. solve_decision. Defined.

Record GError := mkGError { error_code : GErrorCode; error_message : string }.

Definition g_error_matches (e : GError) (code : GErrorCode) : bool :=
  bool_decide (error_code e = code).

Definition g_set_error (msg : string) : GError := mkGError G_IO_ERROR_FAILED msg.

(** The result of a collaborator that reports through [GError **error]. *)
Inductive gresult (A : Type) :=
| GOk (a : A)
| GErr (e : GError).
Arguments GOk {A} a.
Arguments GErr {A} e.

(** ** Object identity *)

Inductive OstreeObjectType :=
| OSTREE_OBJECT_TYPE_FILE
| OSTREE_OBJECT_TYPE_DIR_TREE
| OSTREE_OBJECT_TYPE_DIR_META
| OSTREE_OBJECT_TYPE_COMMIT.

#[global] Instance OstreeObjectType_eq_dec : EqDecision OstreeObjectType.
Proof. solve_decision. Defined.

#[global] Instance OstreeObjectType_countable : Countable OstreeObjectType.
Proof.
  refine (inj_countable'
    (fun t => match t with
              | OSTREE_OBJECT_TYPE_FILE => 0%nat
              | OSTREE_OBJECT_TYPE_DIR_TREE => 1%nat
              | OSTREE_OBJECT_TYPE_DIR_META => 2%nat
              | OSTREE_OBJECT_TYPE_COMMIT => 3%nat
              end)
    (fun n => match n with
              | 0%nat => OSTREE_OBJECT_TYPE_FILE
              | 1%nat => OSTREE_OBJECT_TYPE_DIR_TREE
              | 2%nat => OSTREE_OBJECT_TYPE_DIR_META
              | _ => OSTREE_OBJECT_TYPE_COMMIT
              end) _).
  intros []; reflexivity.
Defined.

(** Modelled from the spec: the macro OSTREE_OBJECT_TYPE_IS_META is declared
    in ostree-core.h; section 3 gives IS_META(t) as t in COMMIT, DIR_TREE,
    DIR_META. *)
Definition OSTREE_OBJECT_TYPE_IS_META (t : OstreeObjectType) : bool :=
  match t with
  | OSTREE_OBJECT_TYPE_FILE => false
  | _ => true
  end.

(** A digest.  The source moves between the raw bytes and the hex string
    with ostree_checksum_from_bytes / ostree_checksum_to_bytes, two
    representations of the same value; the model keeps the hex string. *)
Abbreviation Checksum := string (only parsing).

(** What ostree_object_name_serialize builds and
    ostree_object_name_deserialize takes apart. *)
Definition ObjectName : Type := Checksum * OstreeObjectType.

Definition ostree_object_name_serialize (checksum : Checksum) (t : OstreeObjectType)
  : ObjectName := (checksum, t).

(** Modelled from the spec: OSTREE_MAX_RECURSION is declared in
    ostree-core.h; section 3 gives the bound as 256. *)
Definition OSTREE_MAX_RECURSION : Z := 256.

(** ** Machine integers *)

Definition guint_inc (x : Z) : Z := (x + 1) mod 2 ^ 32.
Definition guint_dec (x : Z) : Z := (x - 1) mod 2 ^ 32.
Definition gint_inc (x : Z) : Z := (x + 1 + 2 ^ 31) mod 2 ^ 32 - 2 ^ 31.
(** The conversion of a guint argument to an int parameter. *)
Definition guint_to_int (x : Z) : Z := if x <? 2 ^ 31 then x else x - 2 ^ 32.
(** The conversion of an int argument to a guint parameter. *)
Definition int_to_guint (x : Z) : Z := x mod 2 ^ 32.

(** ** Messages between the two threads *)

Inductive PullWorkerMessage :=
| PULL_MSG_SCAN_IDLE (idle_serial : Z)
| PULL_MSG_MAIN_IDLE (idle_serial : Z)
| PULL_MSG_FETCH (item : ObjectName)
| PULL_MSG_SCAN (item : ObjectName)
| PULL_MSG_QUIT.

(** A SoupURI, as far as the file looks at it: the base and the path
    components that suburi_new joins with g_build_filenamev. *)
Record SoupURI := mkSoupURI { uri_base : string; uri_path : list string }.

Definition suburi_new (base : SoupURI) (first : string) (rest : list string) : SoupURI :=
  mkSoupURI (uri_base base) (uri_path base ++ first :: rest).

Definition GFile : Type := string.

Record FetchObjectData := mkFetchObjectData {
  fd_object : ObjectName;
  fd_temp_path : option GFile
}.

(** A request handed to ostree_fetcher_request_uri_async: the URI, which of
    the two completion callbacks was given, and the callback's user data. *)
Record FetchRequest := mkFetchRequest {
  fr_uri : SoupURI;
  fr_is_meta : bool;
  fr_data : FetchObjectData
}.

(** A stage operation handed to ostree_repo_stage_metadata_async (with
    on_metadata_staged) or ostree_repo_stage_content_async (with
    content_fetch_on_stage_complete): the object type, the checksum the
    object was requested under, and the callback's user data.  The staged
    payload itself is opaque here. *)
Record StageRequest := mkStageRequest {
  sr_is_meta : bool;
  sr_objtype : OstreeObjectType;
  sr_checksum : Checksum;
  sr_data : FetchObjectData
}.

(** ** OtPullData *)

(** The enumerators of OstreeRepoMode that the file and the spec name. *)
Inductive OstreeRepoMode :=
| OSTREE_REPO_MODE_BARE
| OSTREE_REPO_MODE_ARCHIVE_Z2.

#[global] Instance OstreeRepoMode_eq_dec : EqDecision OstreeRepoMode.
Proof. solve_decision. Defined.

Record OtPullData := mkPullData {
  remote_name : string;
  remote_mode : OstreeRepoMode;            (* 0 after memset: the first enumerator *)
  base_uri : SoupURI;
  loop_is_running : bool;          (* GMainLoop *loop, as g_main_loop_is_running *)
  outstanding_uri_requests : Z;
  n_scanned_metadata : Z;
  metadata_objects_to_scan : option (list PullWorkerMessage);   (* NULL until created *)
  metadata_objects_to_fetch : option (list PullWorkerMessage);
  scanned_metadata : gset ObjectName;
  requested_metadata : gset string;
  requested_content : gset string;
  metadata_scan_idle : bool;
  idle_serial : Z;
  n_outstanding_metadata_fetches : Z;
  n_outstanding_metadata_stage_requests : Z;
  n_outstanding_content_fetches : Z;
  n_outstanding_content_stage_requests : Z;
  n_requested_metadata : Z;
  n_requested_content : Z;
  n_fetched_metadata : Z;
  n_fetched_content : Z;
  async_error : option GError;     (* what *async_error holds *)
  caught_error : bool;
  fetcher : list FetchRequest;     (* requests the fetcher has not completed *)
  repo_stages : list StageRequest; (* stage operations the repo has not completed *)
  metadata_thread_loop_is_running : bool;   (* GMainLoop *metadata_thread_loop *)
  main_context_invocations : list GError    (* idle_throw_error calls handed to
                                               g_main_context_invoke, not yet run *)
}.

Definition pull_data_eta (p : OtPullData) : OtPullData :=
  mkPullData (remote_name p) (remote_mode p) (base_uri p) (loop_is_running p) (outstanding_uri_requests p) (n_scanned_metadata p)
    (metadata_objects_to_scan p) (metadata_objects_to_fetch p) (scanned_metadata p)
    (requested_metadata p) (requested_content p) (metadata_scan_idle p) (idle_serial p)
    (n_outstanding_metadata_fetches p) (n_outstanding_metadata_stage_requests p)
    (n_outstanding_content_fetches p) (n_outstanding_content_stage_requests p)
    (n_requested_metadata p) (n_requested_content p) (n_fetched_metadata p)
    (n_fetched_content p) (async_error p) (caught_error p) (fetcher p) (repo_stages p)
    (metadata_thread_loop_is_running p) (main_context_invocations p).

(** The assignment [pull_data->proj = v]: the record rebuilt with one field
    replaced. *)
Ltac field_setter proj :=
  let e := eval cbv [pull_data_eta] in (fun p : OtPullData => pull_data_eta p) in
  match eval pattern proj in e with
  | ?F _ =>
      let t := eval cbv beta in (fun v p => F (fun _ : OtPullData => v) p) in
      exact t
  end.

Definition set_remote_name : string -> OtPullData -> OtPullData :=
  ltac:(field_setter remote_name).
Definition set_remote_mode : OstreeRepoMode -> OtPullData -> OtPullData :=
  ltac:(field_setter remote_mode).
Definition set_base_uri : SoupURI -> OtPullData -> OtPullData :=
  ltac:(field_setter base_uri).
Definition set_loop_is_running : bool -> OtPullData -> OtPullData :=
  ltac:(field_setter loop_is_running).
Definition set_outstanding_uri_requests : Z -> OtPullData -> OtPullData :=
  ltac:(field_setter outstanding_uri_requests).
Definition set_n_scanned_metadata : Z -> OtPullData -> OtPullData :=
  ltac:(field_setter n_scanned_metadata).
Definition set_metadata_objects_to_scan
  : option (list PullWorkerMessage) -> OtPullData -> OtPullData :=
  ltac:(field_setter metadata_objects_to_scan).
Definition set_metadata_objects_to_fetch
  : option (list PullWorkerMessage) -> OtPullData -> OtPullData :=
  ltac:(field_setter metadata_objects_to_fetch).
Definition set_scanned_metadata : gset ObjectName -> OtPullData -> OtPullData :=
  ltac:(field_setter scanned_metadata).
Definition set_requested_metadata : gset string -> OtPullData -> OtPullData :=
  ltac:(field_setter requested_metadata).
Definition set_requested_content : gset string -> OtPullData -> OtPullData :=
  ltac:(field_setter requested_content).
Definition set_metadata_scan_idle : bool -> OtPullData -> OtPullData :=
  ltac:(field_setter metadata_scan_idle).
Definition set_idle_serial : Z -> OtPullData -> OtPullData :=
  ltac:(field_setter idle_serial).
Definition set_n_outstanding_metadata_fetches : Z -> OtPullData -> OtPullData :=
  ltac:(field_setter n_outstanding_metadata_fetches).
Definition set_n_outstanding_metadata_stage_requests : Z -> OtPullData -> OtPullData :=
  ltac:(field_setter n_outstanding_metadata_stage_requests).
Definition set_n_outstanding_content_fetches : Z -> OtPullData -> OtPullData :=
  ltac:(field_setter n_outstanding_content_fetches).
Definition set_n_outstanding_content_stage_requests : Z -> OtPullData -> OtPullData :=
  ltac:(field_setter n_outstanding_content_stage_requests).
Definition set_n_requested_metadata : Z -> OtPullData -> OtPullData :=
  ltac:(field_setter n_requested_metadata).
Definition set_n_requested_content : Z -> OtPullData -> OtPullData :=
  ltac:(field_setter n_requested_content).
Definition set_n_fetched_metadata : Z -> OtPullData -> OtPullData :=
  ltac:(field_setter n_fetched_metadata).
Definition set_n_fetched_content : Z -> OtPullData -> OtPullData :=
  ltac:(field_setter n_fetched_content).
Definition set_async_error : option GError -> OtPullData -> OtPullData :=
  ltac:(field_setter async_error).
Definition set_caught_error : bool -> OtPullData -> OtPullData :=
  ltac:(field_setter caught_error).
Definition set_fetcher : list FetchRequest -> OtPullData -> OtPullData :=
  ltac:(field_setter fetcher).
Definition set_repo_stages : list StageRequest -> OtPullData -> OtPullData :=
  ltac:(field_setter repo_stages).
Definition set_metadata_thread_loop_is_running : bool -> OtPullData -> OtPullData :=
  ltac:(field_setter metadata_thread_loop_is_running).
Definition set_main_context_invocations : list GError -> OtPullData -> OtPullData :=
  ltac:(field_setter main_context_invocations).

(** The struct after ostree_builtin_pull has cleared it with memset and
    created the three hash tables. *)
Definition pull_data_zero : OtPullData :=
  mkPullData "" OSTREE_REPO_MODE_BARE (mkSoupURI "" []) false 0 0 None None ∅ ∅ ∅ false 0 0 0 0 0 0 0 0 0 None false [] []
    false [].

(** ** Control flow: returning, failing, aborting *)

(** What a call leaves behind.  [Throw] is a function that returned FALSE
    with its [error] set: the struct keeps what was written before the
    failure.  [Abort] is a failed g_assert, g_assert_not_reached or a NULL
    queue: the process is gone, and the struct is as the abort found it.
    [NoFuel] belongs to the model only. *)
Inductive Res (A : Type) :=
| Ret (a : A) (p : OtPullData)
| Throw (e : GError) (p : OtPullData)
| Abort (why : string) (p : OtPullData)
| NoFuel.
Arguments Ret {A} a p.
Arguments Throw {A} e p.
Arguments Abort {A} why p.
Arguments NoFuel {A}.

Definition PullM (A : Type) : Type := OtPullData -> Res A.

Definition ret {A} (a : A) : PullM A := fun p => Ret a p.

Definition bind {A B} (m : PullM A) (k : A -> PullM B) : PullM B :=
  fun p =>
    match m p with
    | Ret a p' => k a p'
    | Throw e p' => Throw e p'
    | Abort why p' => Abort why p'
    | NoFuel => NoFuel
    end.

Definition throw {A} (e : GError) : PullM A := fun p => Throw e p.
Definition abort {A} (why : string) : PullM A := fun p => Abort why p.
Definition modify (f : OtPullData -> OtPullData) : PullM unit := fun p => Ret tt (f p).
Definition gets {A} (f : OtPullData -> A) : PullM A := fun p => Ret (f p) p.

(** A collaborator's result, with [goto out] on failure. *)
Definition lift {A} (r : gresult A) : PullM A :=
  match r with
  | GOk a => ret a
  | GErr e => throw e
  end.

Definition g_assert (b : bool) : PullM unit :=
  if b then ret tt else abort "assertion failed".

Notation "'do' x <- m ; k" := (bind m (fun x => k))
  (at level 10, x name, m at level 100, k at level 200).
Notation "m >> k" := (bind m (fun _ => k))
  (at level 100, k at level 200, right associativity).

(** ** The queues *)

Definition push_fetch_queue (msg : PullWorkerMessage) : PullM unit :=
  fun p =>
    match metadata_objects_to_fetch p with
    | Some q => Ret tt (set_metadata_objects_to_fetch (Some (q ++ [msg])) p)
    | None => Abort "push on a NULL queue" p
    end.

Definition push_scan_queue (msg : PullWorkerMessage) : PullM unit :=
  fun p =>
    match metadata_objects_to_scan p with
    | Some q => Ret tt (set_metadata_objects_to_scan (Some (q ++ [msg])) p)
    | None => Abort "push on a NULL queue" p
    end.

(** ot_waitable_queue_pop: the head of the queue, or nothing. *)
Definition pop_fetch_queue : PullM (option PullWorkerMessage) :=
  fun p =>
    match metadata_objects_to_fetch p with
    | Some (msg :: q) => Ret (Some msg) (set_metadata_objects_to_fetch (Some q) p)
    | Some [] => Ret None p
    | None => Abort "pop on a NULL queue" p
    end.

Definition pop_scan_queue : PullM (option PullWorkerMessage) :=
  fun p =>
    match metadata_objects_to_scan p with
    | Some (msg :: q) => Ret (Some msg) (set_metadata_objects_to_scan (Some q) p)
    | Some [] => Ret None p
    | None => Abort "pop on a NULL queue" p
    end.

(** ** The main thread: errors and the termination check *)

Definition g_main_loop_quit (p : OtPullData) : OtPullData := set_loop_is_running false p.

Definition throw_async_error (error : option GError) (p : OtPullData) : OtPullData :=
  match error with
  | Some e =>
      if caught_error p then p
      else g_main_loop_quit (set_async_error (Some e) (set_caught_error true p))
  | None => p
  end.

Definition check_outstanding_requests_handle_error (error : option GError)
  (p : OtPullData) : OtPullData :=
  let current_fetch_idle :=
    (n_outstanding_metadata_fetches p =? 0) && (n_outstanding_content_fetches p =? 0) in
  let current_stage_idle :=
    (n_outstanding_metadata_stage_requests p =? 0)
    && (n_outstanding_content_stage_requests p =? 0) in
  let p := throw_async_error error p in
  match metadata_objects_to_scan p with
  | None =>
      (* the phase when refs are fetched *)
      if outstanding_uri_requests p =? 0 then g_main_loop_quit p else p
  | Some _ =>
      if metadata_scan_idle p && current_fetch_idle && current_stage_idle
      then g_main_loop_quit p
      else p
  end.

Definition idle_check_outstanding_requests (p : OtPullData) : OtPullData :=
  check_outstanding_requests_handle_error None p.

(** What run_mainloop_monitor_fetcher returns once g_main_loop_run is back. *)
Definition run_mainloop_monitor_fetcher_result (p : OtPullData) : bool :=
  negb (caught_error p).

(** ** The main thread: the fetch dispatcher *)

(** Modelled from the spec: ostree_get_relative_object_path is declared in
    ostree-core.h; section 4.1 gives the layout for the archive mode the
    dispatcher asks for: the first two hex characters, the remaining ones,
    and an extension by type. *)
Definition ostree_get_relative_object_path (checksum : Checksum) (t : OstreeObjectType)
  : string :=
  "objects/" +:+ String.substring 0 2 checksum +:+ "/"
  +:+ String.substring 2 (String.length checksum - 2) checksum +:+ "."
  +:+ match t with
      | OSTREE_OBJECT_TYPE_FILE => "filez"
      | OSTREE_OBJECT_TYPE_DIR_TREE => "dirtree"
      | OSTREE_OBJECT_TYPE_DIR_META => "dirmeta"
      | OSTREE_OBJECT_TYPE_COMMIT => "commit"
      end.

(** The parsers the completion callbacks run on a fetched temp file; what
    they produce is opaque to the dispatcher. *)
Record Parsers := mkParsers {
  ot_util_variant_map : GFile -> OstreeObjectType -> gresult unit;
  ostree_content_file_parse : GFile -> gresult unit;
  ostree_raw_file_to_content_stream : GFile -> gresult unit
}.

(** Runs a body that may [goto out] with local_error set, and hands the
    error to the code after the label. *)
Definition catch {A} (m : PullM A) : PullM (option GError) :=
  fun p =>
    match m p with
    | Ret _ p' => Ret None p'
    | Throw e p' => Ret (Some e) p'
    | Abort why p' => Abort why p'
    | NoFuel => NoFuel
    end.

Definition content_fetch_on_stage_complete (result : gresult Checksum)
  (fetch_data : FetchObjectData) : PullM unit :=
  do local_error <- catch (
    do checksum <- lift result;
    let '(expected_checksum, objtype) := fd_object fetch_data in
    g_assert (bool_decide (objtype = OSTREE_OBJECT_TYPE_FILE)) >>
    g_assert (String.eqb checksum expected_checksum) >>
    modify (fun p => set_n_fetched_content (guint_inc (n_fetched_content p)) p));
  modify (fun p => set_n_outstanding_content_stage_requests
                     (guint_dec (n_outstanding_content_stage_requests p)) p) >>
  modify (check_outstanding_requests_handle_error local_error).

Definition content_fetch_on_complete (ps : Parsers) (result : gresult GFile)
  (fetch_data : FetchObjectData) : PullM unit :=
  do local_error <- catch (
    do temp_path <- lift result;
    let fetch_data := mkFetchObjectData (fd_object fetch_data) (Some temp_path) in
    let '(checksum, objtype) := fd_object fetch_data in
    g_assert (bool_decide (objtype = OSTREE_OBJECT_TYPE_FILE)) >>
    do _ <- lift (ostree_content_file_parse ps temp_path);
    do _ <- lift (ostree_raw_file_to_content_stream ps temp_path);
    modify (fun p => set_n_outstanding_content_stage_requests
                       (guint_inc (n_outstanding_content_stage_requests p)) p) >>
    modify (fun p => set_repo_stages
                       (repo_stages p ++ [mkStageRequest false objtype checksum fetch_data])
                       p));
  modify (fun p => set_n_outstanding_content_fetches
                     (guint_dec (n_outstanding_content_fetches p)) p) >>
  modify (check_outstanding_requests_handle_error local_error).

Definition on_metadata_staged (result : gresult Checksum)
  (fetch_data : FetchObjectData) : PullM unit :=
  do local_error <- catch (
    do checksum <- lift result;
    let '(expected_checksum, objtype) := fd_object fetch_data in
    g_assert (OSTREE_OBJECT_TYPE_IS_META objtype) >>
    g_assert (String.eqb checksum expected_checksum) >>
    modify (set_metadata_scan_idle false) >>
    push_scan_queue (PULL_MSG_SCAN (fd_object fetch_data)));
  modify (fun p => set_n_outstanding_metadata_stage_requests
                     (guint_dec (n_outstanding_metadata_stage_requests p)) p) >>
  modify (check_outstanding_requests_handle_error local_error).

Definition meta_fetch_on_complete (ps : Parsers) (result : gresult GFile)
  (fetch_data : FetchObjectData) : PullM unit :=
  do local_error <- catch (
    do temp_path <- lift result;
    let fetch_data := mkFetchObjectData (fd_object fetch_data) (Some temp_path) in
    let '(checksum, objtype) := fd_object fetch_data in
    do _ <- lift (ot_util_variant_map ps temp_path objtype);
    modify (fun p => set_repo_stages
                       (repo_stages p ++ [mkStageRequest true objtype checksum fetch_data])
                       p) >>
    modify (fun p => set_n_outstanding_metadata_stage_requests
                       (guint_inc (n_outstanding_metadata_stage_requests p)) p));
  modify (fun p => set_n_outstanding_metadata_fetches
                     (guint_dec (n_outstanding_metadata_fetches p)) p) >>
  modify (fun p => set_n_fetched_metadata (guint_inc (n_fetched_metadata p)) p) >>
  modify (throw_async_error local_error).

Definition on_metadata_objects_to_fetch_ready : PullM unit :=
  do popped <- pop_fetch_queue;
  match popped with
  | None => ret tt
  | Some (PULL_MSG_MAIN_IDLE serial) =>
      do current <- gets idle_serial;
      if serial =? current
      then (do idle <- gets metadata_scan_idle;
            g_assert (negb idle) >> modify (set_metadata_scan_idle true))
      else ret tt
  | Some (PULL_MSG_SCAN_IDLE _) =>
      do idle <- gets metadata_scan_idle;
      if negb idle
      then (modify (fun p => set_idle_serial (guint_inc (idle_serial p)) p) >>
            do current <- gets idle_serial;
            push_scan_queue (PULL_MSG_MAIN_IDLE current))
      else ret tt
  | Some (PULL_MSG_FETCH item) =>
      let '(checksum, objtype) := item in
      let objpath := ostree_get_relative_object_path checksum objtype in
      do base <- gets base_uri;
      let obj_uri := suburi_new base objpath [] in
      let is_meta := OSTREE_OBJECT_TYPE_IS_META objtype in
      (if is_meta
       then modify (fun p => set_n_requested_metadata (gint_inc (n_requested_metadata p))
                     (set_n_outstanding_metadata_fetches
                        (guint_inc (n_outstanding_metadata_fetches p)) p))
       else modify (fun p => set_n_requested_content (gint_inc (n_requested_content p))
                     (set_n_outstanding_content_fetches
                        (guint_inc (n_outstanding_content_fetches p)) p))) >>
      modify (fun p => set_fetcher
                (fetcher p ++ [mkFetchRequest obj_uri is_meta (mkFetchObjectData item None)]) p)
  | Some _ => abort "g_assert_not_reached"
  end >>
  modify (check_outstanding_requests_handle_error None).

(** ** The scanner thread *)

(** The two metadata payloads the scanner takes apart: of a commit, child 2
    (the related commits), child 6 and child 7 (the root tree and its
    metadata); of a dirtree, child 0 (the files) and child 1 (the
    subdirectories). *)
Record CommitVariant := mkCommit {
  commit_related : list (string * Checksum);
  commit_tree_contents : Checksum;
  commit_tree_meta : Checksum
}.

Record TreeVariant := mkTree {
  tree_files : list (string * Checksum);
  tree_dirs : list (string * Checksum * Checksum)
}.

(** The store, as the scanner consults it: ostree_repo_has_object, and
    ostree_repo_load_variant at the two types the scanner loads. *)
Record OstreeRepo := mkRepo {
  ostree_repo_has_object : OstreeObjectType -> Checksum -> gresult bool;
  ostree_repo_load_commit : Checksum -> gresult CommitVariant;
  ostree_repo_load_dirtree : Checksum -> gresult TreeVariant
}.

(** Modelled from the spec: ot_util_filename_validate belongs to libotutil;
    section 3 gives the predicate: no slash, no NUL, not "." and not "..". *)
Definition ot_util_filename_validate (name : string) : gresult unit :=
  if bool_decide (name = ".") || bool_decide (name = "..")
     || bool_decide (is_Some (String.index 0 "/" name))
     || bool_decide (is_Some (String.index 0 (String Ascii.zero "") name))
  then GErr (g_set_error "Invalid filename")
  else GOk tt.

Section Scanner.

Variable repo : OstreeRepo.
(** The global set by the --related option. *)
Variable opt_related : bool.

(** The type of scan_one_metadata_object, which the two object scanners
    call back into. *)
Definition ScanOne : Type := Checksum -> OstreeObjectType -> Z -> PullM unit.

(** The first loop of scan_dirtree_object. *)
Fixpoint scan_dirtree_files (files : list (string * Checksum)) : PullM unit :=
  match files with
  | [] => ret tt
  | (filename, file_checksum) :: rest =>
      do _ <- lift (ot_util_filename_validate filename);
      do file_is_stored <-
        lift (ostree_repo_has_object repo OSTREE_OBJECT_TYPE_FILE file_checksum);
      do requested <- gets requested_content;
      (if negb file_is_stored && negb (bool_decide (file_checksum ∈ requested))
       then modify (fun p => set_requested_content ({[file_checksum]} ∪ requested_content p) p)
            >> push_fetch_queue
                 (PULL_MSG_FETCH
                    (ostree_object_name_serialize file_checksum OSTREE_OBJECT_TYPE_FILE))
       else ret tt) >>
      scan_dirtree_files rest
  end.

(** The second loop of scan_dirtree_object; recursion_depth is an int
    there, and scan_one_metadata_object takes a guint. *)
Fixpoint scan_dirtree_dirs (scan_one : ScanOne)
  (dirs : list (string * Checksum * Checksum)) (recursion_depth : Z) : PullM unit :=
  match dirs with
  | [] => ret tt
  | (dirname, tree_csum, meta_csum) :: rest =>
      do _ <- lift (ot_util_filename_validate dirname);
      scan_one tree_csum OSTREE_OBJECT_TYPE_DIR_TREE (int_to_guint (recursion_depth + 1)) >>
      scan_one meta_csum OSTREE_OBJECT_TYPE_DIR_META (int_to_guint (recursion_depth + 1)) >>
      scan_dirtree_dirs scan_one rest recursion_depth
  end.

Definition scan_dirtree_object (scan_one : ScanOne) (checksum : Checksum)
  (recursion_depth : Z) : PullM unit :=
  if recursion_depth >? OSTREE_MAX_RECURSION
  then throw (g_set_error "Exceeded maximum recursion")
  else
    do tree <- lift (ostree_repo_load_dirtree repo checksum);
    scan_dirtree_files (tree_files tree) >>
    scan_dirtree_dirs scan_one (tree_dirs tree) recursion_depth.

(** The loop of scan_commit_object over the related commits. *)
Fixpoint scan_commit_related (scan_one : ScanOne)
  (related : list (string * Checksum)) (recursion_depth : Z) : PullM unit :=
  match related with
  | [] => ret tt
  | (name, csum_v) :: rest =>
      scan_one csum_v OSTREE_OBJECT_TYPE_COMMIT ((recursion_depth + 1) mod 2 ^ 32) >>
      scan_commit_related scan_one rest recursion_depth
  end.

Definition scan_commit_object (scan_one : ScanOne) (checksum : Checksum)
  (recursion_depth : Z) : PullM unit :=
  if recursion_depth >? OSTREE_MAX_RECURSION
  then throw (g_set_error "Exceeded maximum recursion")
  else
    do commit <- lift (ostree_repo_load_commit repo checksum);
    scan_one (commit_tree_contents commit) OSTREE_OBJECT_TYPE_DIR_TREE
      ((recursion_depth + 1) mod 2 ^ 32) >>
    scan_one (commit_tree_meta commit) OSTREE_OBJECT_TYPE_DIR_META
      ((recursion_depth + 1) mod 2 ^ 32) >>
    if opt_related
    then scan_commit_related scan_one (commit_related commit) recursion_depth
    else ret tt.

(** scan_one_metadata_object.  The C recursion goes through the two object
    scanners and comes back one level deeper; [fuel] bounds the number of
    nested calls. *)
Fixpoint scan_one_metadata_object (fuel : nat) (csum : Checksum)
  (objtype : OstreeObjectType) (recursion_depth : Z) : PullM unit :=
  match fuel with
  | O => fun _ => NoFuel
  | S fuel' =>
      let tmp_checksum := csum in
      let object := ostree_object_name_serialize tmp_checksum objtype in
      do scanned <- gets scanned_metadata;
      if bool_decide (object ∈ scanned) then ret tt
      else
        do requested <- gets requested_metadata;
        let is_requested := bool_decide (tmp_checksum ∈ requested) in
        do is_stored <- lift (ostree_repo_has_object repo objtype tmp_checksum);
        if negb is_stored && negb is_requested
        then
          modify (fun p => set_requested_metadata ({[tmp_checksum]} ∪ requested_metadata p) p)
          >> push_fetch_queue (PULL_MSG_FETCH object)
        else if is_stored
        then
          match objtype with
          | OSTREE_OBJECT_TYPE_COMMIT =>
              scan_commit_object (scan_one_metadata_object fuel') tmp_checksum
                recursion_depth
          | OSTREE_OBJECT_TYPE_DIR_META => ret tt
          | OSTREE_OBJECT_TYPE_DIR_TREE =>
              scan_dirtree_object (scan_one_metadata_object fuel') tmp_checksum
                (guint_to_int recursion_depth)
          | OSTREE_OBJECT_TYPE_FILE => abort "g_assert_not_reached"
          end >>
          modify (fun p => set_scanned_metadata ({[object]} ∪ scanned_metadata p) p) >>
          modify (fun p => set_n_scanned_metadata (gint_inc (n_scanned_metadata p)) p)
        else ret tt
  end.

(** Enough fuel for a scan that starts at depth 0. *)
Definition scan_fuel : nat := Z.to_nat (OSTREE_MAX_RECURSION + 2).

Definition scan_one_metadata_object_v_name (object : ObjectName) : PullM unit :=
  let '(checksum, objtype) := object in
  scan_one_metadata_object scan_fuel checksum objtype 0.

(** One turn of the while loop of on_metadata_objects_to_scan_ready, on
    the message just popped. *)
Definition scan_ready_message (msg : PullWorkerMessage)
  (last_idle_msg : option PullWorkerMessage) : PullM (option PullWorkerMessage) :=
  match msg with
  | PULL_MSG_SCAN item =>
      scan_one_metadata_object_v_name item >> ret last_idle_msg
  | PULL_MSG_MAIN_IDLE _ => ret (Some msg)
  | PULL_MSG_QUIT =>
      modify (set_metadata_thread_loop_is_running false) >> ret last_idle_msg
  | _ => abort "g_assert_not_reached"
  end.

(** What follows the loop when no scan failed. *)
Definition scan_ready_notify (last_idle_msg : option PullWorkerMessage) : PullM unit :=
  match last_idle_msg with
  | Some msg => push_fetch_queue msg
  | None => ret tt
  end >>
  push_fetch_queue (PULL_MSG_SCAN_IDLE 0).

(** The code at the label [out]: a scan error is handed to the main
    context, to be thrown there by idle_throw_error. *)
Definition scan_ready_out (local_error : option GError) : PullM unit :=
  match local_error with
  | Some e =>
      modify (fun p => set_main_context_invocations (main_context_invocations p ++ [e]) p)
  | None => ret tt
  end.

(** The while loop, over the messages in the queue when the handler is
    entered: each turn pops the head. *)
Fixpoint scan_ready_loop (queued : list PullWorkerMessage)
  (last_idle_msg : option PullWorkerMessage) : PullM (option PullWorkerMessage) :=
  match queued with
  | [] => ret last_idle_msg
  | msg :: rest =>
      modify (set_metadata_objects_to_scan (Some rest)) >>
      do last_idle_msg <- scan_ready_message msg last_idle_msg;
      scan_ready_loop rest last_idle_msg
  end.

Definition on_metadata_objects_to_scan_ready : PullM unit :=
  do queue <- gets metadata_objects_to_scan;
  match queue with
  | None => abort "pop on a NULL queue"
  | Some queued =>
      do local_error <- catch (
        do last_idle_msg <- scan_ready_loop queued None;
        scan_ready_notify last_idle_msg);
      scan_ready_out local_error
  end.

End Scanner.

(** idle_throw_error, run by the main context for the oldest pending
    invocation. *)
Definition idle_throw_error (p : OtPullData) : OtPullData :=
  match main_context_invocations p with
  | e :: rest => throw_async_error (Some e) (set_main_context_invocations rest p)
  | [] => p
  end.

(** The fields of the struct that only the main thread writes. *)
Definition main_thread_fields (p : OtPullData) :=
  (remote_name p, remote_mode p, base_uri p, loop_is_running p,
   outstanding_uri_requests p, metadata_scan_idle p, idle_serial p,
   (n_outstanding_metadata_fetches p, n_outstanding_metadata_stage_requests p,
    n_outstanding_content_fetches p, n_outstanding_content_stage_requests p),
   (n_requested_metadata p, n_requested_content p, n_fetched_metadata p,
    n_fetched_content p),
   (async_error p, caught_error p, fetcher p, repo_stages p)).

(** The four outstanding counters the termination check reads. *)
Definition outstanding_all_zero (p : OtPullData) : Prop :=
  n_outstanding_metadata_fetches p = 0
  /\ n_outstanding_content_fetches p = 0
  /\ n_outstanding_metadata_stage_requests p = 0
  /\ n_outstanding_content_stage_requests p = 0.

(** The main loop has been quit and run_mainloop_monitor_fetcher reports
    success. *)
Definition quits_with_success (p : OtPullData) : Prop :=
  loop_is_running p = false /\ run_mainloop_monitor_fetcher_result p = true.

(** ** The scanner thread beside the main thread *)

(** The two threads: the struct they share, and where the scanner thread
    stands in on_metadata_objects_to_scan_ready: outside the handler
    ([None]), or inside its loop with the [last_idle_msg] it holds. *)
Record LoopState := mkLoop {
  ls_data : OtPullData;
  ls_scanner : option (option PullWorkerMessage)
}.

(** One turn of the scanner thread, which sees the store as [repo]: outside
    its handler it enters on_metadata_objects_to_scan_ready; inside, it
    pops the next message and processes it, leaving through [out] when
    the scan fails; with the queue empty it notifies the dispatcher and
    leaves.  Where the turn would abort the process there is no turn. *)
Definition scanner_thread_turn (opt_related : bool) (repo : OstreeRepo)
  (ls : LoopState) : LoopState :=
  let p := ls_data ls in
  match ls_scanner ls with
  | None => mkLoop p (Some None)
  | Some last_idle_msg =>
      match metadata_objects_to_scan p with
      | Some (msg :: rest) =>
          match scan_ready_message repo opt_related msg last_idle_msg
                  (set_metadata_objects_to_scan (Some rest) p) with
          | Ret last_idle_msg' p' => mkLoop p' (Some last_idle_msg')
          | Throw e p' =>
              match scan_ready_out (Some e) p' with
              | Ret _ p'' => mkLoop p'' None
              | _ => ls
              end
          | _ => ls
          end
      | Some [] =>
          match scan_ready_notify last_idle_msg p with
          | Ret _ p' => mkLoop p' None
          | _ => ls
          end
      | None => ls
      end
  end.

(** ** Digests, stores and states used in the examples *)

(** A digest in its 64-character hex form: the given prefix, then zeros. *)
Definition digest (prefix : string) : Checksum :=
  prefix +:+ String.string_of_list_ascii (repeat (Ascii.ascii_of_nat 48) (64 - String.length prefix)).

(** A store with one commit and its root dirtree and dirmeta.  The dirtree
    lists the digest dd01 twice: as the file "hello" and as the tree of the
    subdirectory "sub".  Neither object is in the store. *)
Definition example_repo : OstreeRepo :=
  mkRepo
    (fun t c =>
       GOk (bool_decide ((c, t) ∈ [(digest "aa01", OSTREE_OBJECT_TYPE_COMMIT);
                                   (digest "bb01", OSTREE_OBJECT_TYPE_DIR_TREE);
                                   (digest "cc01", OSTREE_OBJECT_TYPE_DIR_META)])))
    (fun c =>
       if bool_decide (c = digest "aa01")
       then GOk (mkCommit [] (digest "bb01") (digest "cc01"))
       else GErr (mkGError G_ERROR_FOREIGN "No such commit"))
    (fun c =>
       if bool_decide (c = digest "bb01")
       then GOk (mkTree [("hello", digest "dd01")]
                        [("sub", digest "dd01", digest "cc01")])
       else GErr (mkGError G_ERROR_FOREIGN "No such dirtree")).

(** A store in which every object is present and every dirtree has one
    subdirectory, whose tree is the digest extended by one character. *)
Definition endless_repo : OstreeRepo :=
  mkRepo
    (fun _ _ => GOk true)
    (fun c => GOk (mkCommit [] (c +:+ "0") (digest "cc01")))
    (fun c => GOk (mkTree [] [("sub", c +:+ "0", digest "cc01")])).

(** The struct when run_mainloop_monitor_fetcher starts the main loop of a
    pull that seeded no scan, the scanner thread not having had a turn:
    both queues exist, the serial is 1 and its MAIN_IDLE message waits in
    the scanner's queue. *)
Definition pull_data_primed : OtPullData :=
  set_loop_is_running true
    (set_metadata_objects_to_scan (Some [PULL_MSG_MAIN_IDLE 1])
       (set_idle_serial 1
          (set_metadata_objects_to_fetch (Some []) pull_data_zero))).

(** The same once the scanner has drained its queue: the MAIN_IDLE message
    and a SCAN_IDLE message wait in the dispatcher's queue. *)
Definition pull_data_scanner_drained : OtPullData :=
  set_metadata_objects_to_fetch (Some [PULL_MSG_MAIN_IDLE 1; PULL_MSG_SCAN_IDLE 0])
    (set_metadata_objects_to_scan (Some []) pull_data_primed).

(** The dispatcher has latched the idle flag; a SCAN_IDLE message is next. *)
Definition pull_data_latched : OtPullData :=
  set_metadata_scan_idle true
    (set_metadata_objects_to_fetch (Some [PULL_MSG_SCAN_IDLE 0]) pull_data_scanner_drained).

(** The flag is not latched and a SCAN_IDLE message is next. *)
Definition pull_data_not_latched : OtPullData :=
  set_metadata_objects_to_fetch (Some [PULL_MSG_SCAN_IDLE 0]) pull_data_scanner_drained.

(** A stale token: the serial has moved on to 2 while MAIN_IDLE(1) was in
    flight. *)
Definition pull_data_stale_token : OtPullData :=
  set_idle_serial 2
    (set_metadata_objects_to_fetch (Some [PULL_MSG_MAIN_IDLE 1]) pull_data_scanner_drained).

(** A content object requested under one digest, and the main loop in the
    middle of a pull with its stage operation outstanding. *)
Definition example_file_request : FetchObjectData :=
  mkFetchObjectData (digest "dd01", OSTREE_OBJECT_TYPE_FILE) (Some "tmp-dd01").

Definition example_meta_request : FetchObjectData :=
  mkFetchObjectData (digest "bb01", OSTREE_OBJECT_TYPE_DIR_TREE) (Some "tmp-bb01").

Definition pull_data_staging : OtPullData :=
  set_n_outstanding_content_stage_requests 1
    (set_n_outstanding_metadata_stage_requests 1
       (set_metadata_objects_to_scan (Some []) pull_data_primed)).

(** ** Vocabulary of the properties *)

(** What a computation establishes from a state: [Q] when it returns, [E]
    when it fails with an error.  An aborted process establishes nothing
    further. *)
Definition wp {A} (m : PullM A) (p : OtPullData)
  (Q : A -> OtPullData -> Prop) (E : GError -> OtPullData -> Prop) : Prop :=
  match m p with
  | Ret a p' => Q a p'
  | Throw e p' => E e p'
  | Abort _ _ => True
  | NoFuel => True
  end.

(** The dispatcher's queue, empty while it does not exist. *)
Definition fetch_queue (p : OtPullData) : list PullWorkerMessage :=
  default [] (metadata_objects_to_fetch p).

(** The digests of the metadata FETCH messages of a queue, in order. *)
Definition metadata_fetches (q : list PullWorkerMessage) : list Checksum :=
  omap (fun msg => match msg with
                   | PULL_MSG_FETCH (c, t) =>
                       if OSTREE_OBJECT_TYPE_IS_META t then Some c else None
                   | _ => None
                   end) q.

(** The digests of the content FETCH messages of a queue, in order. *)
Definition content_fetches (q : list PullWorkerMessage) : list Checksum :=
  omap (fun msg => match msg with
                   | PULL_MSG_FETCH (c, t) =>
                       if OSTREE_OBJECT_TYPE_IS_META t then None else Some c
                   | _ => None
                   end) q.

(** A FETCH message for an object that one of the stores reports absent. *)
Definition fetch_of_absent (repos : list OstreeRepo) (msg : PullWorkerMessage) : Prop :=
  exists c t repo,
    msg = PULL_MSG_FETCH (c, t) /\ repo ∈ repos
    /\ ostree_repo_has_object repo t c = GOk false.

(** From [p0] to [p] the scanner has appended the messages [em] to the
    dispatcher's queue: all of them FETCH messages for objects absent from
    the store, each digest entered in its ledger as it was queued, none
    queued twice through the same ledger and none that the ledger held at
    [p0]. *)
Record Emits (repos : list OstreeRepo) (p0 p : OtPullData)
  (em : list PullWorkerMessage) : Prop := mkEmits {
  em_queue : fetch_queue p = fetch_queue p0 ++ em;
  em_created : is_Some (metadata_objects_to_fetch p0) ->
               is_Some (metadata_objects_to_fetch p);
  em_absent : Forall (fetch_of_absent repos) em;
  em_metadata : requested_metadata p
                = requested_metadata p0 ∪ list_to_set (metadata_fetches em);
  em_content : requested_content p
               = requested_content p0 ∪ list_to_set (content_fetches em);
  em_metadata_new : forall d, d ∈ metadata_fetches em -> d ∉ requested_metadata p0;
  em_content_new : forall d, d ∈ content_fetches em -> d ∉ requested_content p0;
  em_metadata_once : NoDup (metadata_fetches em);
  em_content_once : NoDup (content_fetches em)
}.

(** The callback keeps an invariant of the struct, whatever object of an
    admitted type it is given, whether it returns or fails. *)
Definition keeps (admitted : OstreeObjectType -> Prop) (Inv : OtPullData -> Prop)
  (scan_one : ScanOne) : Prop :=
  forall csum t depth p,
    admitted t -> Inv p ->
    wp (scan_one csum t depth) p (fun _ => Inv) (fun _ => Inv).

(** The state is one the scanner can have reached from [p0]. *)
Definition reached (repos : list OstreeRepo) (p0 p : OtPullData) : Prop :=
  exists em, Emits repos p0 p em.

(** The number of FETCH messages of a queue that name the digest [d]. *)
Definition fetches_of_digest (d : Checksum) (q : list PullWorkerMessage) : nat :=
  length (List.filter (fun msg => match msg with
                                  | PULL_MSG_FETCH (c, _) => String.eqb c d
                                  | _ => false
                                  end) q).

(** Two runs agree and neither ran out of fuel. *)
Definition Agree {A} (r1 r2 : Res A) : Prop := r1 = r2 /\ r1 <> NoFuel.

(** Two callbacks that agree at one depth. *)
Definition agree_at (depth : Z) (scan1 scan2 : ScanOne) : Prop :=
  forall csum t p, Agree (scan1 csum t depth p) (scan2 csum t depth p).

(** The scanner at work: the SCAN messages it processes, in order, each
    against the store as it stands at that time.  A scan that fails hands
    its error to the main thread, and the scanner thread goes on with the
    messages that are still queued. *)
Fixpoint scanner_run (opt_related : bool) (scans : list (OstreeRepo * ObjectName))
  : PullM unit :=
  match scans with
  | [] => ret tt
  | (repo, object) :: rest =>
      do _ <- catch (scan_one_metadata_object_v_name repo opt_related object);
      scanner_run opt_related rest
  end.

(** ** The coordinator: its collaborators *)

(** A GKeyFile: groups of key-value pairs, looked up as GLib documents
    g_key_file_get_value. *)
Definition GKeyFile : Type := list (string * list (string * string)).

Fixpoint assoc {A} (k : string) (l : list (string * A)) : option A :=
  match l with
  | [] => None
  | (k', v) :: rest => if String.eqb k k' then Some v else assoc k rest
  end.

Definition g_key_file_get_value (kf : GKeyFile) (group key : string) : gresult string :=
  match assoc group kf with
  | None => GErr (mkGError G_KEY_FILE_ERROR_GROUP_NOT_FOUND "Key file does not have group")
  | Some pairs =>
      match assoc key pairs with
      | None => GErr (mkGError G_KEY_FILE_ERROR_KEY_NOT_FOUND "Key file does not have key")
      | Some v => GOk v
      end
  end.

Definition is_not_found (e : GError) : bool :=
  g_error_matches e G_KEY_FILE_ERROR_KEY_NOT_FOUND
  || g_error_matches e G_KEY_FILE_ERROR_GROUP_NOT_FOUND.

(** Modelled from the spec: ostree_validate_checksum_string is declared in
    ostree-core.h; sections 4.1 and 8 give a digest in text as 64 lowercase
    hex characters. *)
Definition is_hex_digit (c : Ascii.ascii) : bool :=
  let n := Ascii.nat_of_ascii c in
  ((48 <=? n)%nat && (n <=? 57)%nat) || ((97 <=? n)%nat && (n <=? 102)%nat).

Definition ostree_validate_checksum_string (s : string) : gresult unit :=
  if (String.length s =? 64)%nat && forallb is_hex_digit (String.list_ascii_of_string s)
  then GOk tt
  else GErr (g_set_error "Invalid rev").

(** The local repository as the coordinator reads its configuration:
    ostree_repo_get_config and ostree_repo_get_parent. *)
Inductive RepoConfig :=
| mkRepoConfig (config : GKeyFile) (parent : option RepoConfig).

Definition ostree_repo_get_config (repo : RepoConfig) : GKeyFile :=
  match repo with mkRepoConfig config _ => config end.

(** What the coordinator's other collaborators answer: the option parser,
    the repository check, libsoup, the fetcher and the temp files it
    leaves, GLib's UTF-8 validation and key file parser, libotutil's
    ot_keyfile_get_value_with_default (called with a key file, a group, a
    key and a default value; it is not among the sources, and nothing is
    assumed of what it answers), the store's mode names, revision syntax,
    failures to resolve a revision, and transaction, and the main loop of
    the object phase, which hands back the struct as it is when the loop
    is left.  [w_opt_related] is the global set by the --related option.
    [w_scanner_thread] is the scheduler: given where the two threads
    stand when the main thread has made a write, the turns the scanner
    thread takes before the main thread's next write, each with the store
    as the scanner then sees it. *)
Record World := mkWorld {
  w_option_context_parse : option GError;
  w_opt_related : bool;
  w_repo_check : gresult unit;
  w_soup_uri_new : string -> option SoupURI;
  w_request_uri : SoupURI -> gresult GFile;
  w_load_contents : GFile -> gresult string;
  w_utf8_validate : string -> bool;
  w_key_file_load_from_data : string -> gresult GKeyFile;
  w_key_file_string_list : string -> list string;
  w_keyfile_get_value_with_default : GKeyFile -> string -> string -> string -> gresult string;
  w_repo_mode_from_string : string -> gresult OstreeRepoMode;
  w_validate_rev : string -> gresult unit;
  w_resolve_rev_error : string -> option GError;
  w_prepare_transaction : gresult unit;
  w_scanner_thread : LoopState -> list OstreeRepo;
  w_main_loop_run : OtPullData -> OtPullData;
  w_commit_transaction : gresult unit;
  w_write_ref : string -> string -> Checksum -> gresult unit
}.

(** The calls the coordinator makes on the fetcher and the store, in the
    order it makes them. *)
Inductive Event :=
| EvRequestUri (uri : SoupURI)
| EvPrepareTransaction
| EvMainLoop (p : OtPullData)
| EvCommitTransaction
| EvWriteRef (remote ref : string) (checksum : Checksum).

(** The state the coordinator works on: the struct, the refs of the local
    store, and the calls made so far. *)
Record PullState := mkPullState {
  st_data : OtPullData;
  st_refs : gmap string Checksum;
  st_trace : list Event
}.

Definition Coord (A : Type) : Type := PullState -> gresult A * PullState.

Definition cret {A} (a : A) : Coord A := fun s => (GOk a, s).
Definition cfail {A} (e : GError) : Coord A := fun s => (GErr e, s).
Definition cbind {A B} (m : Coord A) (k : A -> Coord B) : Coord B :=
  fun s =>
    match m s with
    | (GOk a, s') => k a s'
    | (GErr e, s') => (GErr e, s')
    end.
Definition clift {A} (r : gresult A) : Coord A := fun s => (r, s).
Definition log (ev : Event) : Coord unit :=
  fun s => (GOk tt, mkPullState (st_data s) (st_refs s) (st_trace s ++ [ev])).
Definition update_data (f : OtPullData -> OtPullData) : Coord unit :=
  fun s => (GOk tt, mkPullState (f (st_data s)) (st_refs s) (st_trace s)).
Definition get_data : Coord OtPullData := fun s => (GOk (st_data s), s).
Definition get_refs : Coord (gmap string Checksum) := fun s => (GOk (st_refs s), s).
Definition update_refs (f : gmap string Checksum -> gmap string Checksum) : Coord unit :=
  fun s => (GOk tt, mkPullState (st_data s) (f (st_refs s)) (st_trace s)).

Notation "'let*' x := m 'in' k" := (cbind m (fun x => k))
  (at level 10, x name, m at level 100, k at level 200).
Notation "m ;;; k" := (cbind m (fun _ => k))
  (at level 100, k at level 200, right associativity).

(** Modelled from the spec: the store's refs are not among the sources;
    section 6 gives resolve_rev(ref, allow_missing), which yields the digest
    a ref points at if there is one, and write_ref(remote, ref, digest),
    after which remote/ref points at the digest.  Either call may fail, as
    the source provides for. *)
Definition ostree_repo_resolve_rev (w : World) (refs : gmap string Checksum)
  (rev : string) : gresult (option Checksum) :=
  match w_resolve_rev_error w rev with
  | Some e => GErr e
  | None => GOk (refs !! rev)
  end.

Definition remote_ref_name (remote ref : string) : string := remote +:+ "/" +:+ ref.

Definition ostree_repo_write_ref (w : World) (remote ref : string) (checksum : Checksum)
  : Coord unit :=
  log (EvWriteRef remote ref checksum) ;;;
  let* _ := clift (w_write_ref w remote ref checksum) in
  update_refs (fun refs => <[remote_ref_name remote ref := checksum]> refs).

(** ** The coordinator: fetching refs and the remote configuration *)

(** What run_mainloop_monitor_fetcher leaves in [*error] when it reports a
    failure: the error that throw_async_error stored. *)
Definition async_failure (p : OtPullData) : GError :=
  default (g_set_error "") (async_error p).

(** fetch_uri, in the phase before the queues exist: the request is handed
    to the fetcher and the main loop is run until uri_fetch_on_complete has
    taken the answer and check_outstanding_requests_handle_error has quit
    the loop. *)
Definition fetch_uri (w : World) (uri : SoupURI) : Coord GFile :=
  update_data (fun p => set_outstanding_uri_requests
                          (guint_inc (outstanding_uri_requests p)) p) ;;;
  log (EvRequestUri uri) ;;;
  update_data (fun p => idle_check_outstanding_requests (set_loop_is_running true p)) ;;;
  let result := w_request_uri w uri in
  update_data (fun p =>
    check_outstanding_requests_handle_error
      (match result with GOk _ => None | GErr e => Some e end)
      (set_outstanding_uri_requests (guint_dec (outstanding_uri_requests p)) p)) ;;;
  let* p := get_data in
  if run_mainloop_monitor_fetcher_result p
  then clift result
  else cfail (async_failure p).

Definition fetch_uri_contents_utf8 (w : World) (uri : SoupURI) : Coord string :=
  let* tmpf := fetch_uri w uri in
  let* ret_contents := clift (w_load_contents w tmpf) in
  if w_utf8_validate w ret_contents
  then cret ret_contents
  else cfail (g_set_error "Invalid UTF-8").

Definition g_ascii_isspace (c : Ascii.ascii) : bool :=
  let n := Ascii.nat_of_ascii c in
  (n =? 32)%nat || ((9 <=? n)%nat && (n <=? 13)%nat).

(** g_strchomp: the string without its trailing whitespace. *)
Fixpoint g_strchomp (s : string) : string :=
  match s with
  | EmptyString => EmptyString
  | String c rest =>
      match g_strchomp rest with
      | EmptyString => if g_ascii_isspace c then EmptyString else String c EmptyString
      | chomped => String c chomped
      end
  end.

Definition fetch_ref_contents (w : World) (ref : string) : Coord Checksum :=
  let* p := get_data in
  let target_uri := suburi_new (base_uri p) "refs" ["heads"; ref] in
  let* ret_contents := fetch_uri_contents_utf8 w target_uri in
  let ret_contents := g_strchomp ret_contents in
  let* _ := clift (ostree_validate_checksum_string ret_contents) in
  cret ret_contents.

(** g_strsplit_set (contents, "\n", -1). *)
Fixpoint split_lines (s : string) : list string :=
  match s with
  | EmptyString => [EmptyString]
  | String c rest =>
      if (Ascii.nat_of_ascii c =? 10)%nat
      then EmptyString :: split_lines rest
      else match split_lines rest with
           | line :: lines => String c line :: lines
           | [] => [String c EmptyString]
           end
  end.

(** The loop of parse_ref_summary over the lines. *)
Fixpoint parse_ref_summary_lines (w : World) (lines : list string)
  (ret_refs : gmap string Checksum) : gresult (gmap string Checksum) :=
  match lines with
  | [] => GOk ret_refs
  | line :: rest =>
      if bool_decide (line = "") then parse_ref_summary_lines w rest ret_refs
      else
        match String.index 0 " " line with
        | None => GErr (g_set_error "Invalid ref summary file; missing ' ' in line")
        | Some spc =>
            let ref := String.substring (S spc) (String.length line - S spc) line in
            match w_validate_rev w ref with
            | GErr e => GErr e
            | GOk _ =>
                let sha256 := String.substring 0 spc line in
                match ostree_validate_checksum_string sha256 with
                | GErr e => GErr e
                | GOk _ => parse_ref_summary_lines w rest (<[ref := sha256]> ret_refs)
                end
            end
        end
  end.

Definition parse_ref_summary (w : World) (contents : string)
  : gresult (gmap string Checksum) :=
  parse_ref_summary_lines w (split_lines contents) ∅.

Fixpoint repo_get_string_key_inherit (repo : RepoConfig) (group key : string)
  : gresult string :=
  match repo with
  | mkRepoConfig config parent =>
      match g_key_file_get_value config group key with
      | GOk ret_value => GOk ret_value
      | GErr temp_error =>
          match parent with
          | Some parent_repo =>
              if is_not_found temp_error
              then repo_get_string_key_inherit parent_repo group key
              else GErr temp_error
          | None => GErr temp_error
          end
      end
  end.

Definition load_remote_repo_config (w : World) : Coord GKeyFile :=
  let* p := get_data in
  let target_uri := suburi_new (base_uri p) "config" [] in
  let* contents := fetch_uri_contents_utf8 w target_uri in
  clift (w_key_file_load_from_data w contents).

(** ** The coordinator: ostree_builtin_pull *)

Definition dquote : string := String (Ascii.ascii_of_nat 34) EmptyString.

(** The loop over argv[2..]: a token that is a digest is a commit to fetch,
    any other is a branch whose ref is fetched. *)
Fixpoint resolve_arguments (w : World) (branches : list string)
  (commits_to_fetch : gset Checksum) (requested_refs_to_fetch : gmap string Checksum)
  : Coord (gset Checksum * gmap string Checksum) :=
  match branches with
  | [] => cret (commits_to_fetch, requested_refs_to_fetch)
  | branch :: rest =>
      match ostree_validate_checksum_string branch with
      | GOk _ =>
          resolve_arguments w rest ({[branch]} ∪ commits_to_fetch) requested_refs_to_fetch
      | GErr _ =>
          let* contents := fetch_ref_contents w branch in
          resolve_arguments w rest commits_to_fetch
            (<[branch := contents]> requested_refs_to_fetch)
      end
  end.

(** The loop over the configured branches. *)
Fixpoint resolve_configured_branches (w : World) (branches : list string)
  (requested_refs_to_fetch : gmap string Checksum) : Coord (gmap string Checksum) :=
  match branches with
  | [] => cret requested_refs_to_fetch
  | branch :: rest =>
      let* contents := fetch_ref_contents w branch in
      resolve_configured_branches w rest (<[branch := contents]> requested_refs_to_fetch)
  end.

Definition push_scan (checksum : Checksum) (p : OtPullData) : OtPullData :=
  set_metadata_objects_to_scan
    ((fun q => q ++ [PULL_MSG_SCAN
                       (ostree_object_name_serialize checksum OSTREE_OBJECT_TYPE_COMMIT)])
       <$> metadata_objects_to_scan p) p.

(** What the scanner thread does between two writes of the main thread:
    the turns the scheduler gives it. *)
Definition scanner_thread_runs (w : World) (ls : LoopState) : LoopState :=
  foldl (fun ls repo => scanner_thread_turn (w_opt_related w) repo ls) ls
    (w_scanner_thread w ls).

(** The coordinator, once the scanner thread is started, after a write to
    the struct: the scanner thread, which stood at [scanner], has its
    turns; yields where it stands then. *)
Definition scanner_thread_yield (w : World) (scanner : option (option PullWorkerMessage))
  : Coord (option (option PullWorkerMessage)) :=
  fun s =>
    let ls := scanner_thread_runs w (mkLoop (st_data s) scanner) in
    (GOk (ls_scanner ls), mkPullState (ls_data ls) (st_refs s) (st_trace s)).

(** The loop over commits_to_fetch that seeds the scanner. *)
Fixpoint seed_commits (w : World) (commits : list Checksum)
  (scanner : option (option PullWorkerMessage))
  : Coord (option (option PullWorkerMessage)) :=
  match commits with
  | [] => cret scanner
  | commit :: rest =>
      update_data (push_scan commit) ;;;
      let* scanner := scanner_thread_yield w scanner in
      seed_commits w rest scanner
  end.

(** The loop over requested_refs_to_fetch that seeds the scanner: a ref
    whose fetched digest is what remote/ref resolves to is left alone; any
    other gets a SCAN of its commit and an entry in updated_refs. *)
Fixpoint seed_requested_refs (w : World) (remote : string)
  (requested : list (string * Checksum)) (updated_refs : gmap string Checksum)
  (scanner : option (option PullWorkerMessage))
  : Coord (gmap string Checksum * option (option PullWorkerMessage)) :=
  match requested with
  | [] => cret (updated_refs, scanner)
  | (ref, sha256) :: rest =>
      let remote_ref := remote_ref_name remote ref in
      let* refs := get_refs in
      let* original_rev := clift (ostree_repo_resolve_rev w refs remote_ref) in
      if bool_decide (original_rev = Some sha256)
      then seed_requested_refs w remote rest updated_refs scanner
      else
        update_data (push_scan sha256) ;;;
        let* scanner := scanner_thread_yield w scanner in
        seed_requested_refs w remote rest (<[ref := sha256]> updated_refs) scanner
  end.

(** The loop over updated_refs after the transaction is committed. *)
Fixpoint write_updated_refs (w : World) (remote : string)
  (updated : list (string * Checksum)) : Coord unit :=
  match updated with
  | [] => cret tt
  | (ref, checksum) :: rest =>
      ostree_repo_write_ref w remote ref checksum ;;;
      write_updated_refs w remote rest
  end.

(** ostree_builtin_pull, first part: from the memset to the remote's mode
    (source lines 1204 to 1260).  argv is what g_option_context_parse
    leaves.  Yields the remote's name, its base URI, the branch arguments,
    the mode string and the mode. *)
Definition pull_open_remote (w : World) (repo : RepoConfig) (argv : list string)
  : Coord (string * SoupURI * list string * string * OstreeRepoMode) :=
  update_data (fun _ => pull_data_zero) ;;;
  let* _ := clift (match w_option_context_parse w with
                   | Some e => GErr e
                   | None => GOk tt
                   end) in
  let* _ := clift (w_repo_check w) in
  match argv with
  | [] | [_] => cfail (g_set_error "REMOTE must be specified")
  | _ :: remote :: branches =>
      update_data (set_remote_name remote) ;;;
      let remote_key := "remote " +:+ dquote +:+ remote +:+ dquote in
      let* baseurl := clift (repo_get_string_key_inherit repo remote_key "url") in
      match w_soup_uri_new w baseurl with
      | None => cfail (g_set_error ("Failed to parse url '" +:+ baseurl +:+ "'"))
      | Some base =>
          update_data (set_base_uri base) ;;;
          let* remote_config := load_remote_repo_config w in
          let* remote_mode_str :=
            clift (w_keyfile_get_value_with_default w remote_config "core" "mode" "bare") in
          let* mode := clift (w_repo_mode_from_string w remote_mode_str) in
          update_data (set_remote_mode mode) ;;;
          cret (remote, base, branches, remote_mode_str, mode)
      end
  end.

(** Second part: the arguments resolved to commits and refs to fetch
    (source lines 1270 to 1348). *)
Definition pull_resolve_refs (w : World) (repo : RepoConfig) (remote : string)
  (base : SoupURI) (branches : list string)
  : Coord (gset Checksum * gmap string Checksum) :=
  let config := ostree_repo_get_config repo in
  let remote_key := "remote " +:+ dquote +:+ remote +:+ dquote in
  match branches with
  | _ :: _ => resolve_arguments w branches ∅ ∅
  | [] =>
      match g_key_file_get_value config remote_key "branches" with
      | GErr temp_error =>
          if g_error_matches temp_error G_KEY_FILE_ERROR_KEY_NOT_FOUND
          then
            let summary_uri := suburi_new base "refs" ["summary"] in
            let* summary_data := fetch_uri_contents_utf8 w summary_uri in
            let* refs := clift (parse_ref_summary w summary_data) in
            cret (∅, refs)
          else cfail temp_error
      | GOk value =>
          let* refs := resolve_configured_branches w (w_key_file_string_list w value) ∅ in
          cret (∅, refs)
      end
  end.

(** Third part: the transaction, the queues, the scanner thread, the
    seeds, the main loop and the refs (source lines 1350 to 1427).  From
    g_thread_new on (line 1355) the scanner thread runs beside the
    coordinator: it has its turns after each write of the coordinator to
    the struct, so it may have taken seeds from its queue before the main
    loop is run. *)
Definition pull_transfer (w : World) (remote : string)
  (commits_to_fetch : gset Checksum) (requested_refs_to_fetch : gmap string Checksum)
  : Coord unit :=
  log EvPrepareTransaction ;;;
  let* _ := clift (w_prepare_transaction w) in
  update_data (fun p => set_metadata_objects_to_scan (Some [])
                          (set_metadata_objects_to_fetch (Some []) p)) ;;;
  let* scanner := scanner_thread_yield w None in
  let* scanner := seed_commits w (elements commits_to_fetch) scanner in
  let* seeded :=
    seed_requested_refs w remote (map_to_list requested_refs_to_fetch) ∅ scanner in
  let '(updated_refs, scanner) := seeded in
  update_data (fun p => set_idle_serial (guint_inc (idle_serial p)) p) ;;;
  let* scanner := scanner_thread_yield w scanner in
  update_data (fun p => set_metadata_objects_to_scan
                          ((fun q => q ++ [PULL_MSG_MAIN_IDLE (idle_serial p)])
                             <$> metadata_objects_to_scan p) p) ;;;
  let* _ := scanner_thread_yield w scanner in
  let* p := get_data in
  log (EvMainLoop p) ;;;
  update_data (w_main_loop_run w) ;;;
  let* p := get_data in
  if negb (run_mainloop_monitor_fetcher_result p)
  then cfail (async_failure p)
  else
    log EvCommitTransaction ;;;
    let* _ := clift (w_commit_transaction w) in
    write_updated_refs w remote (map_to_list updated_refs).

Definition unsupported_mode_error (remote_mode_str : string) : GError :=
  g_set_error ("Can't pull from archives with mode "
               +:+ dquote +:+ remote_mode_str +:+ dquote).

Definition ostree_builtin_pull (w : World) (repo : RepoConfig) (argv : list string)
  : Coord unit :=
  let* opened := pull_open_remote w repo argv in
  let '(remote, base, branches, remote_mode_str, mode) := opened in
  if negb (bool_decide (mode = OSTREE_REPO_MODE_ARCHIVE_Z2))
  then cfail (unsupported_mode_error remote_mode_str)
  else
    let* resolved := pull_resolve_refs w repo remote base branches in
    pull_transfer w remote resolved.1 resolved.2.

(** ** A world for the examples *)

Definition example_local_repo : RepoConfig :=
  mkRepoConfig [("remote " +:+ dquote +:+ "origin" +:+ dquote, [("url", "http://h/r")])]
    None.

(** A remote whose config file reads as the given key file and whose branch
    main points at the commit aa01; every collaborator succeeds, the
    helper for key files answers a missing key with the default, the
    scanner thread has no turn before the main loop, and the main loop
    comes back without an error. *)
Definition example_world (remote_config : GKeyFile) : World :=
  mkWorld None false (GOk tt)
    (fun url => Some (mkSoupURI url []))
    (fun uri => GOk (String.concat "/" (uri_path uri)))
    (fun file => if bool_decide (file = "config") then GOk "config"
                 else GOk (digest "aa01" +:+ String (Ascii.ascii_of_nat 10) ""))
    (fun _ => true)
    (fun _ => GOk remote_config)
    (fun value => [value])
    (fun kf group key default_value =>
       match g_key_file_get_value kf group key with
       | GOk value => GOk value
       | GErr e => if g_error_matches e G_KEY_FILE_ERROR_KEY_NOT_FOUND
                   then GOk default_value else GErr e
       end)
    (fun name => if bool_decide (name = "archive-z2") then GOk OSTREE_REPO_MODE_ARCHIVE_Z2
                 else if bool_decide (name = "bare") then GOk OSTREE_REPO_MODE_BARE
                 else GErr (g_set_error "Invalid mode in repository configuration"))
    (fun _ => GOk tt)
    (fun _ => None)
    (GOk tt)
    (fun _ => [])
    (fun p => g_main_loop_quit p)
    (GOk tt)
    (fun _ _ _ => GOk tt).

Definition initial_state (refs : gmap string Checksum) : PullState :=
  mkPullState pull_data_zero refs [].

(** ** Vocabulary of the coordinator's properties *)

(** The remote opens: the options parse, the repository checks, argv names
    a remote whose url is configured and parses, and the remote's config
    file is fetched, is UTF-8 and reads as the key file [remote_config]. *)
Definition RemoteOpens (w : World) (repo : RepoConfig) (argv : list string)
  (remote : string) (base : SoupURI) (branches : list string)
  (remote_config : GKeyFile) : Prop :=
  w_option_context_parse w = None
  /\ w_repo_check w = GOk tt
  /\ (exists prog, argv = prog :: remote :: branches)
  /\ (exists baseurl,
        repo_get_string_key_inherit repo
          ("remote " +:+ dquote +:+ remote +:+ dquote) "url" = GOk baseurl
        /\ w_soup_uri_new w baseurl = Some base)
  /\ (exists tmpf contents,
        w_request_uri w (suburi_new base "config" []) = GOk tmpf
        /\ w_load_contents w tmpf = GOk contents
        /\ w_utf8_validate w contents = true
        /\ w_key_file_load_from_data w contents = GOk remote_config).

(** From [s] to [s'] the coordinator has only asked the fetcher for URIs:
    the refs of the store are what they were. *)
Definition only_requests (s s' : PullState) : Prop :=
  st_refs s' = st_refs s
  /\ exists uris, st_trace s' = st_trace s ++ (EvRequestUri <$> uris).

(** A computation that only asks the fetcher for URIs. *)
Definition requests_only {A} (m : Coord A) : Prop := forall s, only_requests s (m s).2.

(** No ref is written in a trace. *)
Definition writes_no_ref (trace : list Event) : Prop :=
  forall remote ref checksum, EvWriteRef remote ref checksum ∉ trace.

(** The requested refs that the seeding loop does not leave alone: those
    whose fetched digest is not what remote/ref resolves to. *)
Definition changed_refs (remote : string) (refs : gmap string Checksum)
  (requested : list (string * Checksum)) : list (string * Checksum) :=
  List.filter
    (fun x => negb (bool_decide (refs !! remote_ref_name remote x.1 = Some x.2)))
    requested.

(** Where the seeding loop stops: at the first requested ref whose
    revision the store fails to resolve, with the error and the refs
    handled before. *)
Fixpoint seeding_failure (w : World) (remote : string)
  (requested : list (string * Checksum)) : option (GError * list (string * Checksum)) :=
  match requested with
  | [] => None
  | x :: rest =>
      match w_resolve_rev_error w (remote_ref_name remote x.1) with
      | Some e => Some (e, [])
      | None =>
          match seeding_failure w remote rest with
          | Some (e, handled) => Some (e, x :: handled)
          | None => None
          end
      end
  end.

(** The write_ref calls for a list of refs, as events. *)
Definition write_events (remote : string) (refs : list (string * Checksum)) : list Event :=
  (fun x => EvWriteRef remote x.1 x.2) <$> refs.

(** The SCAN messages that seed the commits of a list of refs. *)
Definition scan_seeds (refs : list (string * Checksum)) : list PullWorkerMessage :=
  (fun x => PULL_MSG_SCAN (x.2, OSTREE_OBJECT_TYPE_COMMIT)) <$> refs.

(** A write of the main thread to the struct, and the turns the scanner
    thread has after it. *)
Definition main_thread_writes (w : World) (f : OtPullData -> OtPullData)
  (ls : LoopState) : LoopState :=
  scanner_thread_runs w (mkLoop (f (ls_data ls)) (ls_scanner ls)).

(** The two threads once pull_transfer has seeded the scanner: the queues
    created, the scanner thread started, a SCAN pushed for every commit to
    fetch and for every changed ref. *)
Definition seeded_loop (w : World) (p : OtPullData) (commits_to_fetch : gset Checksum)
  (changed : list (string * Checksum)) : LoopState :=
  let created :=
    set_metadata_objects_to_scan (Some []) (set_metadata_objects_to_fetch (Some []) p) in
  foldl (fun ls x => main_thread_writes w (push_scan x.2) ls)
    (foldl (fun ls commit => main_thread_writes w (push_scan commit) ls)
       (scanner_thread_runs w (mkLoop created None)) (elements commits_to_fetch))
    changed.

Definition seeded_data (w : World) (p : OtPullData) (commits_to_fetch : gset Checksum)
  (changed : list (string * Checksum)) : OtPullData :=
  ls_data (seeded_loop w p commits_to_fetch changed).

(** The two threads when pull_transfer runs the main loop: seeded, the
    serial incremented and its MAIN_IDLE message pushed last. *)
Definition main_loop_start (w : World) (p : OtPullData) (commits_to_fetch : gset Checksum)
  (changed : list (string * Checksum)) : LoopState :=
  let seeded := seeded_loop w p commits_to_fetch changed in
  let primed :=
    main_thread_writes w (fun p => set_idle_serial (guint_inc (idle_serial p)) p) seeded in
  main_thread_writes w
    (fun p => set_metadata_objects_to_scan
                ((fun q => q ++ [PULL_MSG_MAIN_IDLE (idle_serial p)])
                   <$> metadata_objects_to_scan p) p)
    primed.

(** The struct as pull_transfer hands it to the main loop. *)
Definition main_loop_input (w : World) (p : OtPullData) (commits_to_fetch : gset Checksum)
  (changed : list (string * Checksum)) : OtPullData :=
  ls_data (main_loop_start w p commits_to_fetch changed).

(** The scanner's queue is what is left of the messages [pushed] on it:
    the scanner thread has taken the others from its front. *)
Definition scan_queue_left (pushed : list PullWorkerMessage) (p : OtPullData) : Prop :=
  exists taken q, metadata_objects_to_scan p = Some q /\ pushed = taken ++ q.

(** The scanner thread holds no message, or an idle token. *)
Definition holds_idle_token (scanner : option (option PullWorkerMessage)) : Prop :=
  forall msg, scanner = Some (Some msg) -> exists serial, msg = PULL_MSG_MAIN_IDLE serial.

(** The entries of updated_refs, given the changed refs. *)
Definition updated_refs_of (changed : list (string * Checksum)) : gmap string Checksum :=
  foldl (fun m x => <[x.1 := x.2]> m) ∅ changed.

(** ** The main loop of the object phase, as a transition system *)

(** One callback of the main thread, or one turn of the scanner's loop.
    The fetcher and the store complete the requests they hold in any order
    and with any result; the scanner sees the store as it stands when it
    processes a message. *)
Inductive main_loop_step (ps : Parsers) (opt_related : bool)
  : LoopState -> LoopState -> Prop :=
| step_idle_check p sc :
    main_loop_step ps opt_related
      (mkLoop p sc) (mkLoop (idle_check_outstanding_requests p) sc)
| step_fetch_ready p p' sc :
    on_metadata_objects_to_fetch_ready p = Ret tt p' ->
    main_loop_step ps opt_related (mkLoop p sc) (mkLoop p' sc)
| step_fetch_complete p p' sc before req after result :
    fetcher p = before ++ req :: after ->
    (if fr_is_meta req
     then meta_fetch_on_complete ps result (fr_data req)
     else content_fetch_on_complete ps result (fr_data req))
      (set_fetcher (before ++ after) p) = Ret tt p' ->
    main_loop_step ps opt_related (mkLoop p sc) (mkLoop p' sc)
| step_stage_complete p p' sc before req after result :
    repo_stages p = before ++ req :: after ->
    (if sr_is_meta req
     then on_metadata_staged result (sr_data req)
     else content_fetch_on_stage_complete result (sr_data req))
      (set_repo_stages (before ++ after) p) = Ret tt p' ->
    main_loop_step ps opt_related (mkLoop p sc) (mkLoop p' sc)
| step_idle_throw p sc :
    main_context_invocations p <> [] ->
    main_loop_step ps opt_related (mkLoop p sc) (mkLoop (idle_throw_error p) sc)
| step_scan_enter p :
    main_loop_step ps opt_related (mkLoop p None) (mkLoop p (Some None))
| step_scan_message p p' repo msg rest last last' :
    metadata_objects_to_scan p = Some (msg :: rest) ->
    scan_ready_message repo opt_related msg last
      (set_metadata_objects_to_scan (Some rest) p) = Ret last' p' ->
    main_loop_step ps opt_related (mkLoop p (Some last)) (mkLoop p' (Some last'))
| step_scan_failed p p' p'' repo msg rest last e :
    metadata_objects_to_scan p = Some (msg :: rest) ->
    scan_ready_message repo opt_related msg last
      (set_metadata_objects_to_scan (Some rest) p) = Throw e p' ->
    scan_ready_out (Some e) p' = Ret tt p'' ->
    main_loop_step ps opt_related (mkLoop p (Some last)) (mkLoop p'' None)
| step_scan_notify p p' last :
    metadata_objects_to_scan p = Some [] ->
    scan_ready_notify last p = Ret tt p' ->
    main_loop_step ps opt_related (mkLoop p (Some last)) (mkLoop p' None).

(** Nothing to transfer: no SCAN waits for the scanner, no FETCH for the
    dispatcher, the fetcher and the store hold no request, and no object
    has been requested. *)
Definition NoWork (p : OtPullData) : Prop :=
  (forall item, PULL_MSG_SCAN item ∉ default [] (metadata_objects_to_scan p))
  /\ (forall item, PULL_MSG_FETCH item ∉ fetch_queue p)
  /\ fetcher p = []
  /\ repo_stages p = []
  /\ n_requested_metadata p = 0
  /\ n_requested_content p = 0
  /\ n_fetched_content p = 0.

Definition NoWorkLoop (ls : LoopState) : Prop :=
  NoWork (ls_data ls)
  /\ forall msg, ls_scanner ls = Some (Some msg) -> exists serial, msg = PULL_MSG_MAIN_IDLE serial.

(** A computation of the coordinator that leaves a struct with nothing to
    transfer that way, and whose result and struct do not depend on the
    refs of the store or on the calls made before. *)
Definition steady {A} (m : Coord A) : Prop :=
  forall s,
    (NoWork (st_data s) -> NoWork (st_data (m s).2))
    /\ forall refs trace,
         (m (mkPullState (st_data s) refs trace)).1 = (m s).1
         /\ st_data (m (mkPullState (st_data s) refs trace)).2 = st_data (m s).2.

(** The config of an archive-z2 remote, and parsers that accept every
    file. *)
Definition example_archive_config : GKeyFile := [("core", [("mode", "archive-z2")])].

Definition example_parsers : Parsers :=
  mkParsers (fun _ _ => GOk tt) (fun _ => GOk tt) (fun _ => GOk tt).

(** ** Vocabulary of the further properties of the main thread *)

(** What a sequence of callbacks hands to throw_async_error, in order;
    [None] is a callback that had no error. *)
Definition throw_async_errors (errors : list (option GError)) (p : OtPullData)
  : OtPullData :=
  foldl (fun p error => throw_async_error error p) p errors.

(** The requests of one kind that the fetcher holds, and the stage
    operations of one kind that the store holds. *)
Definition fetches_in_flight (is_meta : bool) (p : OtPullData) : Z :=
  Z.of_nat (length (List.filter (fun r => Bool.eqb (fr_is_meta r) is_meta) (fetcher p))).

Definition stages_in_flight (is_meta : bool) (p : OtPullData) : Z :=
  Z.of_nat (length (List.filter (fun r => Bool.eqb (sr_is_meta r) is_meta) (repo_stages p))).

(** The counters of the struct account for the work in flight: each
    outstanding counter is the number of requests of its kind, as a guint;
    every requested metadata object is fetched or being fetched; and, while
    no error has been caught, every requested content object is fetched,
    being fetched or being staged. *)
Record Balanced (p : OtPullData) : Prop := mkBalanced {
  bal_metadata_fetches :
    n_outstanding_metadata_fetches p = fetches_in_flight true p mod 2 ^ 32;
  bal_content_fetches :
    n_outstanding_content_fetches p = fetches_in_flight false p mod 2 ^ 32;
  bal_metadata_stages :
    n_outstanding_metadata_stage_requests p = stages_in_flight true p mod 2 ^ 32;
  bal_content_stages :
    n_outstanding_content_stage_requests p = stages_in_flight false p mod 2 ^ 32;
  bal_metadata_count :
    (n_requested_metadata p - n_fetched_metadata p
     - n_outstanding_metadata_fetches p) mod 2 ^ 32 = 0;
  bal_content_count :
    caught_error p = false ->
    (n_requested_content p - n_fetched_content p
     - n_outstanding_content_fetches p
     - n_outstanding_content_stage_requests p) mod 2 ^ 32 = 0
}.

(** The main loop with two FETCH messages waiting for the dispatcher, one
    of each kind. *)
Definition pull_data_two_fetches : OtPullData :=
  set_metadata_objects_to_fetch
    (Some [PULL_MSG_FETCH (digest "bb01", OSTREE_OBJECT_TYPE_DIR_TREE);
           PULL_MSG_FETCH (digest "dd01", OSTREE_OBJECT_TYPE_FILE)])
    (set_metadata_objects_to_scan (Some []) pull_data_primed).

(** The scanner has nothing queued and has said so; the dispatcher has not
    yet taken notice. *)
Definition pull_data_scan_idle_sent : OtPullData :=
  set_metadata_objects_to_fetch (Some [PULL_MSG_SCAN_IDLE 0])
    (set_metadata_objects_to_scan (Some []) pull_data_primed).

(** ** Vocabulary of the further properties of the scanner thread *)

Definition is_fetch (msg : PullWorkerMessage) : Prop :=
  match msg with
  | PULL_MSG_FETCH _ => True
  | _ => False
  end.

(** The MAIN_IDLE messages of a queue, in order. *)
Definition main_idle_tokens (queued : list PullWorkerMessage) : list PullWorkerMessage :=
  List.filter (fun msg => match msg with
                          | PULL_MSG_MAIN_IDLE _ => true
                          | _ => false
                          end) queued.


(** A store like [example_repo], with the digests cut down to two
    characters (the scanner does not look at their length): a commit c1 with
    its root dirtree t1 and dirmeta m1; the dirtree lists the file f1 and
    the subdirectory tree t2, neither of them in the store. *)
Definition small_repo : OstreeRepo :=
  mkRepo
    (fun t c =>
       GOk (bool_decide ((c, t) ∈ [("c1", OSTREE_OBJECT_TYPE_COMMIT);
                                   ("t1", OSTREE_OBJECT_TYPE_DIR_TREE);
                                   ("m1", OSTREE_OBJECT_TYPE_DIR_META)])))
    (fun c =>
       if bool_decide (c = "c1")
       then GOk (mkCommit [] "t1" "m1")
       else GErr (mkGError G_ERROR_FOREIGN "No such commit"))
    (fun c =>
       if bool_decide (c = "t1")
       then GOk (mkTree [("hello", "f1")] [("sub", "t2", "m1")])
       else GErr (mkGError G_ERROR_FOREIGN "No such dirtree")).


(** The scanner's queue holds a commit whose tree never ends, and an idle
    token behind it. *)
Definition pull_data_endless_scan : OtPullData :=
  set_metadata_objects_to_scan
    (Some [PULL_MSG_SCAN ("a", OSTREE_OBJECT_TYPE_COMMIT); PULL_MSG_MAIN_IDLE 1])
    pull_data_primed.

(** ** Vocabulary of the further properties of the coordinator *)

(** The configurations an inheriting lookup passes through: the
    repository's own, then its parent's, and so on. *)
Fixpoint config_chain (repo : RepoConfig) : list GKeyFile :=
  match repo with
  | mkRepoConfig config parent =>
      config :: match parent with
                | Some parent_repo => config_chain parent_repo
                | None => []
                end
  end.

(** A repository that has no remote of its own and whose parent is
    [example_local_repo]. *)
Definition example_child_repo : RepoConfig :=
  mkRepoConfig [("core", [("mode", "bare")])] (Some example_local_repo).


(** The remote serves the digest [sha] for a branch: the fetcher answers
    for refs/heads/branch under the base URI with a file that loads as
    UTF-8 text, and the text without its trailing whitespace is [sha], a
    digest that ostree_validate_checksum_string accepts. *)
Definition served (w : World) (base : SoupURI) (branch : string) (sha : Checksum) : Prop :=
  exists tmpf contents,
    w_request_uri w (suburi_new base "refs" ["heads"; branch]) = GOk tmpf
    /\ w_load_contents w tmpf = GOk contents
    /\ w_utf8_validate w contents = true
    /\ ostree_validate_checksum_string (g_strchomp contents) = GOk tt
    /\ sha = g_strchomp contents.

(** The world [w], except that the store refuses to write the ref [bad]. *)
Definition world_refusing_ref (w : World) (bad : string) : World :=
  mkWorld (w_option_context_parse w) (w_opt_related w) (w_repo_check w)
    (w_soup_uri_new w) (w_request_uri w) (w_load_contents w) (w_utf8_validate w)
    (w_key_file_load_from_data w) (w_key_file_string_list w)
    (w_keyfile_get_value_with_default w) (w_repo_mode_from_string w)
    (w_validate_rev w) (w_resolve_rev_error w) (w_prepare_transaction w)
    (w_scanner_thread w) (w_main_loop_run w) (w_commit_transaction w)
    (fun remote ref checksum =>
       if bool_decide (ref = bad) then GErr (g_set_error "Failed to write ref")
       else w_write_ref w remote ref checksum).

(** The world [w], except that the scanner thread is eager: whenever the
    main thread has pushed a message and the scanner is outside its
    handler, it has three turns (it enters the handler, takes the message
    and leaves), and sees the store as [repo]. *)
Definition world_with_eager_scanner (w : World) (repo : OstreeRepo) : World :=
  mkWorld (w_option_context_parse w) (w_opt_related w) (w_repo_check w)
    (w_soup_uri_new w) (w_request_uri w) (w_load_contents w) (w_utf8_validate w)
    (w_key_file_load_from_data w) (w_key_file_string_list w)
    (w_keyfile_get_value_with_default w) (w_repo_mode_from_string w)
    (w_validate_rev w) (w_resolve_rev_error w) (w_prepare_transaction w)
    (fun ls => match ls_scanner ls, metadata_objects_to_scan (ls_data ls) with
               | None, Some (_ :: _) => [repo; repo; repo]
               | _, _ => []
               end)
    (w_main_loop_run w) (w_commit_transaction w) (w_write_ref w).

(** The fields of the struct that only the scanner thread writes. *)
Definition scanner_thread_fields (p : OtPullData) :=
  (scanned_metadata p, requested_metadata p, requested_content p, n_scanned_metadata p,
   metadata_thread_loop_is_running p).

(** A repository that tracks the branch main of its remote origin. *)
Definition example_tracking_repo : RepoConfig :=
  mkRepoConfig
    [("remote " +:+ dquote +:+ "origin" +:+ dquote,
      [("url", "http://h/r"); ("branches", "main")])]
    None.

(** The fields of the struct that the object phase works on: all but the
    remote's name, mode and base URI, the state of the main loop, the
    count of outstanding URI requests and the error state. *)
Definition object_phase_fields (p : OtPullData) :=
  (n_scanned_metadata p, metadata_objects_to_scan p, metadata_objects_to_fetch p,
   (scanned_metadata p, requested_metadata p, requested_content p),
   (metadata_scan_idle p, idle_serial p),
   (n_outstanding_metadata_fetches p, n_outstanding_metadata_stage_requests p,
    n_outstanding_content_fetches p, n_outstanding_content_stage_requests p),
   (n_requested_metadata p, n_requested_content p, n_fetched_metadata p,
    n_fetched_content p),
   (fetcher p, repo_stages p, metadata_thread_loop_is_running p,
    main_context_invocations p)).

(** A computation of the coordinator that leaves those fields alone. *)
Definition untouched {A} (m : Coord A) : Prop :=
  forall s, object_phase_fields (st_data (m s).2) = object_phase_fields (st_data s).

(** * Properties *)

(** ** Tactics *)

Ltac unfold_pull :=
  unfold g_assert, lift, catch, push_fetch_queue, push_scan_queue, pop_fetch_queue,
    pop_scan_queue, bind, ret, throw, abort, modify, gets in *.

(** ** The termination check *)

Arguments check_outstanding_requests_handle_error : simpl never.
Arguments throw_async_error : simpl never.

Lemma check_without_error_fields (p : OtPullData) :
  let p' := check_outstanding_requests_handle_error None p in
  metadata_scan_idle p' = metadata_scan_idle p
  /\ idle_serial p' = idle_serial p
  /\ n_outstanding_metadata_fetches p' = n_outstanding_metadata_fetches p
  /\ n_outstanding_content_fetches p' = n_outstanding_content_fetches p
  /\ n_outstanding_metadata_stage_requests p' = n_outstanding_metadata_stage_requests p
  /\ n_outstanding_content_stage_requests p' = n_outstanding_content_stage_requests p
  /\ caught_error p' = caught_error p
  /\ metadata_objects_to_scan p' = metadata_objects_to_scan p
  /\ metadata_objects_to_fetch p' = metadata_objects_to_fetch p.
Proof.
  unfold check_outstanding_requests_handle_error, throw_async_error, g_main_loop_quit.
  destruct (metadata_objects_to_scan p) eqn:E;
    repeat match goal with |- context [if ?b then _ else _] => destruct b end;
    cbn; rewrite ?E; repeat split; reflexivity.
Qed.

Lemma check_without_error_quits (p : OtPullData) q :
  metadata_objects_to_scan p = Some q ->
  loop_is_running p = true ->
  loop_is_running (check_outstanding_requests_handle_error None p) = false
  <-> (metadata_scan_idle p = true /\ outstanding_all_zero p).
Proof.
  intros Hq Hrun.
  unfold check_outstanding_requests_handle_error, throw_async_error, g_main_loop_quit,
    outstanding_all_zero.
  rewrite Hq.
  destruct (metadata_scan_idle p); cbn.
  - destruct (Z.eqb_spec (n_outstanding_metadata_fetches p) 0);
      destruct (Z.eqb_spec (n_outstanding_content_fetches p) 0);
      destruct (Z.eqb_spec (n_outstanding_metadata_stage_requests p) 0);
      destruct (Z.eqb_spec (n_outstanding_content_stage_requests p) 0);
      cbn; rewrite ?Hrun; intuition congruence.
  - rewrite Hrun. intuition congruence.
Qed.

(** Every run of the dispatcher's handler ends in the termination check,
    and what comes before it neither quits the loop nor records an error. *)
Lemma fetch_ready_ends_in_check (p p' : OtPullData) :
  on_metadata_objects_to_fetch_ready p = Ret tt p' ->
  exists p2,
    p' = check_outstanding_requests_handle_error None p2
    /\ loop_is_running p2 = loop_is_running p
    /\ caught_error p2 = caught_error p
    /\ (is_Some (metadata_objects_to_scan p) -> is_Some (metadata_objects_to_scan p2)).
Proof.
  unfold on_metadata_objects_to_fetch_ready. unfold_pull.
  destruct (metadata_objects_to_fetch p) as [[|msg q]|] eqn:Hq; [| |discriminate].
  - intros [= <-]. eauto.
  - destruct msg as [serial|serial|[checksum objtype]|item|]; cbn.
    + destruct (negb (metadata_scan_idle p)); cbn.
      * destruct (metadata_objects_to_scan p) eqn:Hs; cbn; [|discriminate].
        intros [= <-]. eexists. split; [reflexivity|]. cbn. eauto.
      * intros [= <-]. eexists. split; [reflexivity|]. cbn. eauto.
    + destruct (serial =? idle_serial p); cbn.
      * destruct (metadata_scan_idle p); cbn; [discriminate|].
        intros [= <-]. eexists. split; [reflexivity|]. cbn. eauto.
      * intros [= <-]. eexists. split; [reflexivity|]. cbn. eauto.
    + destruct (OSTREE_OBJECT_TYPE_IS_META objtype); cbn;
        intros [= <-]; eexists; (split; [reflexivity|]); cbn; eauto.
    + discriminate.
    + discriminate.
Qed.

(** C1. Once the scan and fetch queues exist, a run of the dispatcher's
    handler (one message processed, or none when the queue was empty) that
    starts with the loop running and no error caught quits the main loop
    with success exactly when, after the message, the latched scan-idle flag
    is set and the four outstanding counters are all zero. *)
Theorem dispatcher_quits_exactly_when_idle (p p' : OtPullData) :
  is_Some (metadata_objects_to_scan p) ->
  loop_is_running p = true ->
  caught_error p = false ->
  on_metadata_objects_to_fetch_ready p = Ret tt p' ->
  quits_with_success p' <-> (metadata_scan_idle p' = true /\ outstanding_all_zero p').
Proof.
  intros Hscan Hrun Hok Hstep.
  destruct (fetch_ready_ends_in_check _ _ Hstep) as (p2 & -> & Hrun2 & Hok2 & Hscan2).
  destruct (Hscan2 Hscan) as [q Hq].
  pose proof (check_without_error_fields p2) as (Hi & _ & Hf1 & Hf2 & Hs1 & Hs2 & Hc & _).
  pose proof (check_without_error_quits p2 q Hq) as Hquit.
  rewrite Hrun2 in Hquit. specialize (Hquit Hrun).
  unfold quits_with_success, run_mainloop_monitor_fetcher_result, outstanding_all_zero in *.
  rewrite Hi, Hf1, Hf2, Hs1, Hs2, Hc, Hok2, Hok. cbn.
  tauto.
Qed.

Lemma dispatcher_quits_exactly_when_idle_witness :
  exists p',
    on_metadata_objects_to_fetch_ready pull_data_scanner_drained = Ret tt p'
    /\ (quits_with_success p' <-> (metadata_scan_idle p' = true /\ outstanding_all_zero p')).
Proof.
  eexists. split; [reflexivity|].
  apply (dispatcher_quits_exactly_when_idle pull_data_scanner_drained);
    [cbn; eauto | reflexivity | reflexivity | reflexivity].
Defined.

(** ** The idle token *)

(** C2, as the code has it. When the dispatcher dequeues a SCAN_IDLE message
    the handler returns, and: if the scan-idle flag is false it increments
    idle_serial (modulo 2^32) and appends MAIN_IDLE with the new serial to
    the scanner's queue; if the flag is true it leaves the serial alone and
    sends nothing. *)
Theorem scan_idle_bumps_serial_when_not_idle
  (p : OtPullData) (serial : Z) (q sq : list PullWorkerMessage) :
  metadata_objects_to_fetch p = Some (PULL_MSG_SCAN_IDLE serial :: q) ->
  metadata_objects_to_scan p = Some sq ->
  exists p',
    on_metadata_objects_to_fetch_ready p = Ret tt p'
    /\ (metadata_scan_idle p = false ->
        idle_serial p' = guint_inc (idle_serial p)
        /\ metadata_objects_to_scan p'
           = Some (sq ++ [PULL_MSG_MAIN_IDLE (guint_inc (idle_serial p))]))
    /\ (metadata_scan_idle p = true ->
        idle_serial p' = idle_serial p /\ metadata_objects_to_scan p' = Some sq).
Proof.
  intros Hq Hs.
  unfold on_metadata_objects_to_fetch_ready. unfold_pull. rewrite Hq. cbn.
  destruct (metadata_scan_idle p) eqn:Hidle; cbn.
  - eexists. split; [reflexivity|].
    pose proof (check_without_error_fields (set_metadata_objects_to_fetch (Some q) p))
      as (_ & Hser & _ & _ & _ & _ & _ & Hsq & _).
    cbn in Hser, Hsq. rewrite Hser, Hsq, Hs. split; [discriminate | auto].
  - rewrite Hs. cbn. eexists. split; [reflexivity|].
    match goal with |- context [check_outstanding_requests_handle_error None ?x] =>
      pose proof (check_without_error_fields x) as (_ & Hser & _ & _ & _ & _ & _ & Hsq & _)
    end.
    cbn in Hser, Hsq. rewrite Hser, Hsq. split; [auto | discriminate].
Qed.

Lemma scan_idle_bumps_serial_when_not_idle_witness :
  exists p',
    on_metadata_objects_to_fetch_ready pull_data_not_latched = Ret tt p'
    /\ idle_serial p' = 2
    /\ metadata_objects_to_scan p' = Some [PULL_MSG_MAIN_IDLE 2].
Proof.
  destruct (scan_idle_bumps_serial_when_not_idle pull_data_not_latched 0 [] []
              eq_refl eq_refl) as (p' & Hret & Hfalse & _).
  exists p'. split; [exact Hret|]. apply Hfalse. reflexivity.
Defined.

(** C2, as the claim states it, fails: with the scan-idle flag set, a
    dequeued SCAN_IDLE message leaves idle_serial at 1 (not 2) and puts
    nothing in the scanner's queue. *)
Lemma scan_idle_when_latched_counterexample :
  metadata_scan_idle pull_data_latched = true
  /\ exists p',
       on_metadata_objects_to_fetch_ready pull_data_latched = Ret tt p'
       /\ idle_serial p' <> guint_inc (idle_serial pull_data_latched)
       /\ metadata_objects_to_scan p' = Some [].
Proof.
  split; [reflexivity|]. eexists. split; [reflexivity|]. split; [|reflexivity].
  vm_compute. discriminate.
Qed.

(** C3. When the dispatcher dequeues MAIN_IDLE(s): if s is the current
    idle_serial and the scan-idle flag is false, the handler returns with
    the flag set; if s differs from the current idle_serial, the handler
    returns and the struct is what it was, but for the dequeued message (and
    the loop's running flag, which the closing termination check owns). *)
Theorem main_idle_latches_current_serial_only
  (p : OtPullData) (serial : Z) (q : list PullWorkerMessage) :
  metadata_objects_to_fetch p = Some (PULL_MSG_MAIN_IDLE serial :: q) ->
  (serial = idle_serial p -> metadata_scan_idle p = false ->
   exists p',
     on_metadata_objects_to_fetch_ready p = Ret tt p' /\ metadata_scan_idle p' = true)
  /\ (serial <> idle_serial p ->
      exists p',
        on_metadata_objects_to_fetch_ready p = Ret tt p'
        /\ p' = set_loop_is_running (loop_is_running p')
                  (set_metadata_objects_to_fetch (Some q) p)).
Proof.
  intros Hq.
  unfold on_metadata_objects_to_fetch_ready. unfold_pull. rewrite Hq. cbn.
  destruct (Z.eqb_spec serial (idle_serial p)) as [Heq|Hne]; cbn.
  - split; [|congruence]. intros _ ->. cbn.
    eexists. split; [reflexivity|].
    match goal with |- context [check_outstanding_requests_handle_error None ?x] =>
      pose proof (check_without_error_fields x) as (Hi & _)
    end.
    rewrite Hi. reflexivity.
  - split; [congruence|]. intros _.
    eexists. split; [reflexivity|].
    unfold check_outstanding_requests_handle_error, throw_async_error, g_main_loop_quit.
    destruct p; cbn.
    repeat match goal with |- context [if ?b then _ else _] => destruct b end;
      repeat match goal with |- context [match ?o with Some _ => _ | None => _ end] =>
        destruct o end; reflexivity.
Qed.

Lemma main_idle_latches_current_serial_only_witness :
  exists p',
    on_metadata_objects_to_fetch_ready pull_data_stale_token = Ret tt p'
    /\ p' = set_loop_is_running (loop_is_running p')
              (set_metadata_objects_to_fetch (Some []) pull_data_stale_token).
Proof.
  destruct (main_idle_latches_current_serial_only pull_data_stale_token 1 [] eq_refl)
    as [_ Hstale].
  apply Hstale. vm_compute. discriminate.
Defined.

(** ** The digest of a staged object *)

Lemma check_with_error_fields (e : GError) (p : OtPullData) :
  let p' := check_outstanding_requests_handle_error (Some e) p in
  caught_error p' = true
  /\ (caught_error p = false -> async_error p' = Some e /\ loop_is_running p' = false)
  /\ metadata_objects_to_scan p' = metadata_objects_to_scan p
  /\ n_fetched_content p' = n_fetched_content p.
Proof.
  unfold check_outstanding_requests_handle_error, throw_async_error, g_main_loop_quit.
  destruct (caught_error p) eqn:Hc; cbn;
    destruct (metadata_objects_to_scan p) eqn:Hs; cbn;
    repeat match goal with |- context [if ?b then _ else _] => destruct b end;
    cbn; rewrite ?Hc, ?Hs; repeat split; congruence.
Qed.

(** C5, as the code has it. When a stage operation completes with a digest,
    the completion callback goes on only if that digest is the one the
    object was requested under: a different digest fails a g_assert, which
    aborts the process (no error is handed to the coordinator) with the
    struct exactly as the callback found it: the content counter is not
    incremented, the scan-idle flag is not cleared, the metadata object is
    not queued for scanning and the outstanding counter is not
    decremented. With the requested digest, content_fetch_on_stage_complete
    counts the object as fetched and on_metadata_staged queues its SCAN.
    When the stage operation itself fails, the callback returns, the error
    is caught (and, if it is the first, stored, and the loop quit), and the
    object is neither counted nor queued. *)
Theorem stage_completion_asserts_requested_digest
  (p : OtPullData) (expected : Checksum) (objtype : OstreeObjectType)
  (tmp : option GFile) :
  let fetch_data := mkFetchObjectData (expected, objtype) tmp in
  (forall csum, csum <> expected ->
     on_metadata_staged (GOk csum) fetch_data p = Abort "assertion failed" p
     /\ content_fetch_on_stage_complete (GOk csum) fetch_data p
        = Abort "assertion failed" p)
  /\ (forall sq, OSTREE_OBJECT_TYPE_IS_META objtype = true ->
        metadata_objects_to_scan p = Some sq ->
        exists p',
          on_metadata_staged (GOk expected) fetch_data p = Ret tt p'
          /\ metadata_objects_to_scan p' = Some (sq ++ [PULL_MSG_SCAN (expected, objtype)]))
  /\ (objtype = OSTREE_OBJECT_TYPE_FILE ->
        exists p',
          content_fetch_on_stage_complete (GOk expected) fetch_data p = Ret tt p'
          /\ n_fetched_content p' = guint_inc (n_fetched_content p))
  /\ (forall e,
        exists p1 p2,
          on_metadata_staged (GErr e) fetch_data p = Ret tt p1
          /\ content_fetch_on_stage_complete (GErr e) fetch_data p = Ret tt p2
          /\ caught_error p1 = true /\ caught_error p2 = true
          /\ (caught_error p = false ->
              async_error p1 = Some e /\ loop_is_running p1 = false
              /\ async_error p2 = Some e /\ loop_is_running p2 = false)
          /\ metadata_objects_to_scan p1 = metadata_objects_to_scan p
          /\ n_fetched_content p2 = n_fetched_content p).
Proof.
  unfold on_metadata_staged, content_fetch_on_stage_complete. unfold_pull. cbn.
  repeat split.
  - destruct (OSTREE_OBJECT_TYPE_IS_META objtype); cbn; [|reflexivity].
    destruct (String.eqb_spec csum expected); [contradiction|reflexivity].
  - destruct (bool_decide (objtype = OSTREE_OBJECT_TYPE_FILE)); cbn; [|reflexivity].
    destruct (String.eqb_spec csum expected); [contradiction|reflexivity].
  - intros sq -> Hsq. cbn. rewrite String.eqb_refl. cbn. rewrite Hsq. cbn.
    eexists. split; [reflexivity|].
    match goal with |- context [check_outstanding_requests_handle_error None ?x] =>
      pose proof (check_without_error_fields x) as (_ & _ & _ & _ & _ & _ & _ & Hs & _)
    end.
    rewrite Hs. reflexivity.
  - intros ->. cbn. rewrite String.eqb_refl. cbn.
    eexists. split; [reflexivity|].
    unfold check_outstanding_requests_handle_error, throw_async_error, g_main_loop_quit.
    cbn.
    repeat match goal with |- context [if ?b then _ else _] => destruct b end;
      repeat match goal with |- context [match ?o with Some _ => _ | None => _ end] =>
        destruct o end; reflexivity.
  - intros e. cbn. do 2 eexists. split; [reflexivity|]. split; [reflexivity|].
    repeat match goal with |- context [check_outstanding_requests_handle_error (Some e) ?x] =>
      let H := fresh "H" in
      pose proof (check_with_error_fields e x) as H;
      cbn zeta in H;
      generalize dependent (check_outstanding_requests_handle_error (Some e) x); intros
    end.
    cbn in *. intuition congruence.
Qed.

Lemma stage_completion_asserts_requested_digest_witness :
  (on_metadata_staged (GOk (digest "ee01")) example_file_request pull_data_staging
   = Abort "assertion failed" pull_data_staging
   /\ content_fetch_on_stage_complete (GOk (digest "ee01")) example_file_request
        pull_data_staging = Abort "assertion failed" pull_data_staging)
  /\ exists p',
       content_fetch_on_stage_complete (GOk (digest "dd01")) example_file_request
         pull_data_staging = Ret tt p'
       /\ n_fetched_content p' = guint_inc (n_fetched_content pull_data_staging).
Proof.
  destruct (stage_completion_asserts_requested_digest pull_data_staging (digest "dd01")
              OSTREE_OBJECT_TYPE_FILE (Some "tmp-dd01")) as (Hdiffer & _ & Hcontent & _).
  split.
  - apply Hdiffer. vm_compute. intros H. discriminate H.
  - apply Hcontent. reflexivity.
Defined.

(** C5, as the claim states it, fails: a stage operation that completes
    with a digest other than the requested one does not make the pull fail
    with an error; the callback never returns, for content and for metadata
    alike. *)
Lemma staged_digest_mismatch_counterexample :
  content_fetch_on_stage_complete (GOk (digest "ee01")) example_file_request pull_data_staging
  = Abort "assertion failed" pull_data_staging
  /\ on_metadata_staged (GOk (digest "ee01")) example_meta_request pull_data_staging
     = Abort "assertion failed" pull_data_staging
  /\ ~ (exists p' e,
          content_fetch_on_stage_complete (GOk (digest "ee01")) example_file_request
            pull_data_staging = Ret tt p'
          /\ async_error p' = Some e).
Proof.
  split; [reflexivity|]. split; [reflexivity|].
  intros (p' & e & H & _). discriminate H.
Qed.

(** ** Rules for [wp] *)

Lemma wp_bind {A B} (m : PullM A) (k : A -> PullM B) p Q E :
  wp m p (fun a p' => wp (k a) p' Q E) E -> wp (bind m k) p Q E.
Proof. unfold wp, bind. destruct (m p); auto. Qed.

Lemma wp_ret {A} (a : A) p (Q : A -> OtPullData -> Prop) E : Q a p -> wp (ret a) p Q E.
Proof. auto. Qed.

Lemma wp_gets {A} (f : OtPullData -> A) p (Q : A -> OtPullData -> Prop) E :
  Q (f p) p -> wp (gets f) p Q E.
Proof. auto. Qed.

Lemma wp_modify f p (Q : unit -> OtPullData -> Prop) E : Q tt (f p) -> wp (modify f) p Q E.
Proof. auto. Qed.

Lemma wp_throw {A} e p (Q : A -> OtPullData -> Prop) (E : GError -> OtPullData -> Prop) :
  E e p -> wp (throw e) p Q E.
Proof. auto. Qed.

Lemma wp_abort {A} why p (Q : A -> OtPullData -> Prop) E : wp (abort why) p Q E.
Proof. exact I. Qed.

Lemma wp_lift {A} (r : gresult A) p (Q : A -> OtPullData -> Prop)
  (E : GError -> OtPullData -> Prop) :
  (forall a, r = GOk a -> Q a p) -> (forall e, r = GErr e -> E e p) -> wp (lift r) p Q E.
Proof. destruct r; cbn; auto. Qed.

Lemma wp_push_fetch_queue msg p (Q : unit -> OtPullData -> Prop) E :
  (forall q, metadata_objects_to_fetch p = Some q ->
             Q tt (set_metadata_objects_to_fetch (Some (q ++ [msg])) p)) ->
  wp (push_fetch_queue msg) p Q E.
Proof. unfold wp, push_fetch_queue. destruct (metadata_objects_to_fetch p); auto. Qed.

Lemma wp_mono {A} (m : PullM A) p (Q Q' : A -> OtPullData -> Prop)
  (E E' : GError -> OtPullData -> Prop) :
  wp m p Q E -> (forall a p', Q a p' -> Q' a p') -> (forall e p', E e p' -> E' e p') ->
  wp m p Q' E'.
Proof. unfold wp. destruct (m p); auto. Qed.

(** ** The request ledgers *)

Lemma metadata_fetches_app q1 q2 :
  metadata_fetches (q1 ++ q2) = metadata_fetches q1 ++ metadata_fetches q2.
Proof. apply omap_app. Qed.

Lemma content_fetches_app q1 q2 :
  content_fetches (q1 ++ q2) = content_fetches q1 ++ content_fetches q2.
Proof. apply omap_app. Qed.

Lemma Emits_refl repos p : Emits repos p p [].
Proof.
  constructor; cbn.
  - symmetry. apply app_nil_r.
  - auto.
  - constructor.
  - set_solver.
  - set_solver.
  - intros d Hd. inversion Hd.
  - intros d Hd. inversion Hd.
  - constructor.
  - constructor.
Qed.

Lemma Emits_frame repos p0 p p' em :
  Emits repos p0 p em ->
  metadata_objects_to_fetch p' = metadata_objects_to_fetch p ->
  requested_metadata p' = requested_metadata p ->
  requested_content p' = requested_content p ->
  Emits repos p0 p' em.
Proof.
  intros [Hq0 Hcr Habs Hm0 Hc0 Hmn Hcn Hmo Hco] Hq Hm Hc.
  constructor; auto.
  - unfold fetch_queue in *. rewrite Hq. exact Hq0.
  - rewrite Hq. exact Hcr.
  - rewrite Hm. exact Hm0.
  - rewrite Hc. exact Hc0.
Qed.

Lemma Emits_push repos p0 p em q c t repo :
  Emits repos p0 p em ->
  metadata_objects_to_fetch p = Some q ->
  repo ∈ repos ->
  ostree_repo_has_object repo t c = GOk false ->
  (if OSTREE_OBJECT_TYPE_IS_META t
   then c ∉ requested_metadata p else c ∉ requested_content p) ->
  Emits repos p0
    (set_metadata_objects_to_fetch (Some (q ++ [PULL_MSG_FETCH (c, t)]))
       (if OSTREE_OBJECT_TYPE_IS_META t
        then set_requested_metadata ({[c]} ∪ requested_metadata p) p
        else set_requested_content ({[c]} ∪ requested_content p) p))
    (em ++ [PULL_MSG_FETCH (c, t)]).
Proof.
  intros [Hq Hcr Habs Hm Hc Hmn Hcn Hmo Hco] Hqueue Hin Hstored Hfresh.
  unfold fetch_queue in *. rewrite Hqueue in Hq. cbn in Hq.
  assert (Hmf : metadata_fetches (em ++ [PULL_MSG_FETCH (c, t)])
                = metadata_fetches em
                  ++ (if OSTREE_OBJECT_TYPE_IS_META t then [c] else [])).
  { rewrite metadata_fetches_app. cbn. destruct (OSTREE_OBJECT_TYPE_IS_META t); reflexivity. }
  assert (Hcf : content_fetches (em ++ [PULL_MSG_FETCH (c, t)])
                = content_fetches em
                  ++ (if OSTREE_OBJECT_TYPE_IS_META t then [] else [c])).
  { rewrite content_fetches_app. cbn. destruct (OSTREE_OBJECT_TYPE_IS_META t); reflexivity. }
  constructor; rewrite ?Hmf, ?Hcf.
  - destruct (OSTREE_OBJECT_TYPE_IS_META t); cbn; rewrite Hq, app_assoc; reflexivity.
  - destruct (OSTREE_OBJECT_TYPE_IS_META t); cbn; eauto.
  - apply Forall_app. split; [assumption|]. repeat constructor.
    exists c, t, repo. auto.
  - rewrite list_to_set_app_L.
    destruct (OSTREE_OBJECT_TYPE_IS_META t); cbn; rewrite Hm; clear; set_solver.
  - rewrite list_to_set_app_L.
    destruct (OSTREE_OBJECT_TYPE_IS_META t); cbn; rewrite Hc; clear; set_solver.
  - intros d [Hd|Hd]%elem_of_app; [auto|].
    destruct (OSTREE_OBJECT_TYPE_IS_META t); [|inversion Hd].
    apply list_elem_of_singleton in Hd as ->. rewrite Hm in Hfresh.
    clear -Hfresh. set_solver.
  - intros d [Hd|Hd]%elem_of_app; [auto|].
    destruct (OSTREE_OBJECT_TYPE_IS_META t); [inversion Hd|].
    apply list_elem_of_singleton in Hd as ->. rewrite Hc in Hfresh.
    clear -Hfresh. set_solver.
  - destruct (OSTREE_OBJECT_TYPE_IS_META t); rewrite ?app_nil_r; [|assumption].
    apply NoDup_app. split; [assumption|]. split; [|apply NoDup_singleton].
    intros d Hd ->%list_elem_of_singleton. apply Hfresh. rewrite Hm.
    apply elem_of_union_r, elem_of_list_to_set, Hd.
  - destruct (OSTREE_OBJECT_TYPE_IS_META t); rewrite ?app_nil_r; [assumption|].
    apply NoDup_app. split; [assumption|]. split; [|apply NoDup_singleton].
    intros d Hd ->%list_elem_of_singleton. apply Hfresh. rewrite Hc.
    apply elem_of_union_r, elem_of_list_to_set, Hd.
Qed.

(** The scanner keeps every invariant of the struct that holds up under its
    two kinds of writes: queueing a FETCH for an absent object while
    entering its digest in the ledger that did not have it, and marking an
    object as scanned. *)
Section ScannerInvariant.

Variable repo : OstreeRepo.
Variable opt_related : bool.
Variable admitted : OstreeObjectType -> Prop.
Variable Inv : OtPullData -> Prop.

Hypothesis admitted_dir_tree : admitted OSTREE_OBJECT_TYPE_DIR_TREE.
Hypothesis admitted_dir_meta : admitted OSTREE_OBJECT_TYPE_DIR_META.
Hypothesis admitted_commit : admitted OSTREE_OBJECT_TYPE_COMMIT.

Hypothesis Inv_request_content :
  forall p q c,
    Inv p -> metadata_objects_to_fetch p = Some q ->
    ostree_repo_has_object repo OSTREE_OBJECT_TYPE_FILE c = GOk false ->
    c ∉ requested_content p ->
    Inv (set_metadata_objects_to_fetch
           (Some (q ++ [PULL_MSG_FETCH (c, OSTREE_OBJECT_TYPE_FILE)]))
           (set_requested_content ({[c]} ∪ requested_content p) p)).

Hypothesis Inv_request_metadata :
  forall p q c t,
    admitted t -> Inv p -> metadata_objects_to_fetch p = Some q ->
    ostree_repo_has_object repo t c = GOk false ->
    c ∉ requested_metadata p ->
    Inv (set_metadata_objects_to_fetch (Some (q ++ [PULL_MSG_FETCH (c, t)]))
           (set_requested_metadata ({[c]} ∪ requested_metadata p) p)).

Hypothesis Inv_scanned :
  forall p object,
    Inv p ->
    Inv (set_n_scanned_metadata (gint_inc (n_scanned_metadata p))
           (set_scanned_metadata ({[object]} ∪ scanned_metadata p) p)).

Lemma scan_dirtree_files_keeps files p :
  Inv p -> wp (scan_dirtree_files repo files) p (fun _ => Inv) (fun _ => Inv).
Proof.
  revert p. induction files as [|[filename c] rest IH]; intros p Hp;
    cbn [scan_dirtree_files].
  - apply wp_ret, Hp.
  - apply wp_bind, wp_lift; [intros _ _|auto].
    apply wp_bind, wp_lift; [intros stored Hstored|auto].
    apply wp_bind, wp_gets, wp_bind.
    destruct stored; cbn [negb andb].
    + apply wp_ret, IH, Hp.
    + case_bool_decide as Hreq; cbn [negb].
      * apply wp_ret, IH, Hp.
      * apply wp_bind, wp_modify, wp_push_fetch_queue. intros q Hq. apply IH.
        apply Inv_request_content; assumption.
Qed.

Lemma scan_dirtree_dirs_keeps scan_one dirs depth p :
  keeps admitted Inv scan_one -> Inv p ->
  wp (scan_dirtree_dirs scan_one dirs depth) p (fun _ => Inv) (fun _ => Inv).
Proof.
  intros Hrec. revert p.
  induction dirs as [|[[dirname tree_csum] meta_csum] rest IH]; intros p Hp;
    cbn [scan_dirtree_dirs].
  - apply wp_ret, Hp.
  - apply wp_bind, wp_lift; [intros _ _|auto].
    apply wp_bind.
    eapply wp_mono; [apply Hrec; [exact admitted_dir_tree|exact Hp] | | auto].
    cbn beta. intros _ p1 Hp1. apply wp_bind.
    eapply wp_mono; [apply Hrec; [exact admitted_dir_meta|exact Hp1] | | auto].
    cbn beta. intros _ p2 Hp2. apply IH, Hp2.
Qed.

Lemma scan_dirtree_object_keeps scan_one checksum depth p :
  keeps admitted Inv scan_one -> Inv p ->
  wp (scan_dirtree_object repo scan_one checksum depth) p (fun _ => Inv) (fun _ => Inv).
Proof.
  intros Hrec Hp. unfold scan_dirtree_object.
  destruct (depth >? OSTREE_MAX_RECURSION); [apply wp_throw, Hp|].
  apply wp_bind, wp_lift; [intros tree _|auto].
  apply wp_bind.
  eapply wp_mono; [apply scan_dirtree_files_keeps, Hp | | auto].
  cbn beta. intros _ p1 Hp1. apply scan_dirtree_dirs_keeps; assumption.
Qed.

Lemma scan_commit_related_keeps scan_one related depth p :
  keeps admitted Inv scan_one -> Inv p ->
  wp (scan_commit_related scan_one related depth) p (fun _ => Inv) (fun _ => Inv).
Proof.
  intros Hrec. revert p.
  induction related as [|[name csum_v] rest IH]; intros p Hp;
    cbn [scan_commit_related].
  - apply wp_ret, Hp.
  - apply wp_bind.
    eapply wp_mono; [apply Hrec; [exact admitted_commit|exact Hp] | | auto].
    cbn beta. intros _ p1 Hp1. apply IH, Hp1.
Qed.

Lemma scan_commit_object_keeps scan_one checksum depth p :
  keeps admitted Inv scan_one -> Inv p ->
  wp (scan_commit_object repo opt_related scan_one checksum depth) p
    (fun _ => Inv) (fun _ => Inv).
Proof.
  intros Hrec Hp. unfold scan_commit_object.
  destruct (depth >? OSTREE_MAX_RECURSION); [apply wp_throw, Hp|].
  apply wp_bind, wp_lift; [intros commit _|auto].
  apply wp_bind.
  eapply wp_mono; [apply Hrec; [exact admitted_dir_tree|exact Hp] | | auto].
  cbn beta. intros _ p1 Hp1. apply wp_bind.
  eapply wp_mono; [apply Hrec; [exact admitted_dir_meta|exact Hp1] | | auto].
  cbn beta. intros _ p2 Hp2.
  destruct opt_related; [|apply wp_ret, Hp2].
  apply scan_commit_related_keeps; assumption.
Qed.

Lemma scan_one_metadata_object_keeps fuel :
  keeps admitted Inv (scan_one_metadata_object repo opt_related fuel).
Proof.
  induction fuel as [|fuel IH]; intros csum t depth p Ht Hp;
    cbn [scan_one_metadata_object]; [exact I|].
  apply wp_bind, wp_gets.
  case_bool_decide as Hscanned; [apply wp_ret, Hp|].
  apply wp_bind, wp_gets, wp_bind, wp_lift; [intros stored Hstored|auto].
  destruct stored; cbn [negb andb].
  - apply wp_bind.
    assert (Hmark : forall p1, Inv p1 ->
              wp (modify (fun p => set_scanned_metadata
                         ({[ostree_object_name_serialize csum t]} ∪ scanned_metadata p) p)
                  >> modify (fun p => set_n_scanned_metadata
                                        (gint_inc (n_scanned_metadata p)) p))
                p1 (fun _ => Inv) (fun _ => Inv)).
    { intros p1 Hp1. apply wp_bind, wp_modify, wp_modify.
      apply (Inv_scanned p1 (ostree_object_name_serialize csum t) Hp1). }
    destruct t; [apply wp_abort| | |].
    + eapply wp_mono; [apply scan_dirtree_object_keeps; [exact IH|exact Hp] | | auto].
      cbn beta. intros _ p1 Hp1. apply Hmark, Hp1.
    + apply wp_ret. apply Hmark, Hp.
    + eapply wp_mono; [apply scan_commit_object_keeps; [exact IH|exact Hp] | | auto].
      cbn beta. intros _ p1 Hp1. apply Hmark, Hp1.
  - case_bool_decide as Hreq; cbn [negb]; [apply wp_ret, Hp|].
    apply wp_bind, wp_modify, wp_push_fetch_queue. intros q Hq.
    apply Inv_request_metadata; assumption.
Qed.

End ScannerInvariant.

(** The scanner stays within what [Emits] describes. *)
Lemma scan_one_metadata_object_reached repos repo opt_related p0 fuel :
  repo ∈ repos ->
  keeps (fun t => OSTREE_OBJECT_TYPE_IS_META t = true) (reached repos p0)
    (scan_one_metadata_object repo opt_related fuel).
Proof.
  intros Hin. apply scan_one_metadata_object_keeps; try reflexivity.
  - intros p q c [em Hem] Hq Hstored Hreq. eexists.
    apply (Emits_push repos p0 p em q c OSTREE_OBJECT_TYPE_FILE repo); auto.
  - intros p q c t Ht [em Hem] Hq Hstored Hreq. eexists.
    pose proof (Emits_push repos p0 p em q c t repo Hem Hq Hin Hstored) as Hpush.
    rewrite Ht in Hpush. apply Hpush, Hreq.
  - intros p object [em Hem]. exists em.
    eapply Emits_frame; [exact Hem|reflexivity..].
Qed.

(** The scanner leaves its own queue alone. *)
Lemma scan_one_metadata_object_scan_queue repo opt_related fuel q :
  keeps (fun _ => True) (fun p => metadata_objects_to_scan p = q)
    (scan_one_metadata_object repo opt_related fuel).
Proof. apply scan_one_metadata_object_keeps; auto. Qed.

(** ** The recursion bound *)

Lemma Agree_refl {A} (r : Res A) : r <> NoFuel -> Agree r r.
Proof. split; auto. Qed.

Lemma Agree_bind {A B} (m1 m2 : PullM A) (k1 k2 : A -> PullM B) p :
  Agree (m1 p) (m2 p) ->
  (forall a p', m1 p = Ret a p' -> Agree (k1 a p') (k2 a p')) ->
  Agree (bind m1 k1 p) (bind m2 k2 p).
Proof.
  intros [Heq Hne] Hk. unfold bind. rewrite <- Heq.
  destruct (m1 p) as [a p'| | |]; [apply Hk; reflexivity | split; congruence..].
Qed.

Lemma Agree_lift {A} (r : gresult A) p : Agree (lift r p) (lift r p).
Proof. apply Agree_refl. destruct r; discriminate. Qed.

Lemma scan_dirtree_files_total repo files p : scan_dirtree_files repo files p <> NoFuel.
Proof.
  revert p. induction files as [|[filename c] rest IH]; intros p; cbn [scan_dirtree_files].
  - discriminate.
  - unfold_pull. destruct (ot_util_filename_validate filename); [|discriminate].
    destruct (ostree_repo_has_object repo OSTREE_OBJECT_TYPE_FILE c) as [stored|];
      [|discriminate].
    destruct (negb stored && negb (bool_decide (c ∈ requested_content p))).
    + destruct (metadata_objects_to_fetch _); [apply IH|discriminate].
    + apply IH.
Qed.

Section RecursionBound.

Variable repo : OstreeRepo.
Variable opt_related : bool.

Lemma scan_dirtree_dirs_agree scan1 scan2 dirs depth p :
  agree_at (int_to_guint (depth + 1)) scan1 scan2 ->
  Agree (scan_dirtree_dirs scan1 dirs depth p) (scan_dirtree_dirs scan2 dirs depth p).
Proof.
  intros Hrec. revert p.
  induction dirs as [|[[dirname tree_csum] meta_csum] rest IH]; intros p;
    cbn [scan_dirtree_dirs].
  - apply Agree_refl. discriminate.
  - apply Agree_bind; [apply Agree_lift|]. intros _ p1 _.
    apply Agree_bind; [apply Hrec|]. intros _ p2 _.
    apply Agree_bind; [apply Hrec|]. intros _ p3 _. apply IH.
Qed.

Lemma scan_dirtree_object_agree scan1 scan2 checksum depth p :
  (depth <= OSTREE_MAX_RECURSION -> agree_at (int_to_guint (depth + 1)) scan1 scan2) ->
  Agree (scan_dirtree_object repo scan1 checksum depth p)
        (scan_dirtree_object repo scan2 checksum depth p).
Proof.
  intros Hrec. unfold scan_dirtree_object.
  destruct (Z.gtb_spec depth OSTREE_MAX_RECURSION); [apply Agree_refl; discriminate|].
  apply Agree_bind; [apply Agree_lift|]. intros tree p1 _.
  apply Agree_bind; [apply Agree_refl, scan_dirtree_files_total|]. intros _ p2 _.
  apply scan_dirtree_dirs_agree, Hrec. assumption.
Qed.

Lemma scan_commit_related_agree scan1 scan2 related depth p :
  agree_at ((depth + 1) mod 2 ^ 32) scan1 scan2 ->
  Agree (scan_commit_related scan1 related depth p)
        (scan_commit_related scan2 related depth p).
Proof.
  intros Hrec. revert p.
  induction related as [|[name csum_v] rest IH]; intros p; cbn [scan_commit_related].
  - apply Agree_refl. discriminate.
  - apply Agree_bind; [apply Hrec|]. intros _ p1 _. apply IH.
Qed.

Lemma scan_commit_object_agree scan1 scan2 checksum depth p :
  (depth <= OSTREE_MAX_RECURSION -> agree_at ((depth + 1) mod 2 ^ 32) scan1 scan2) ->
  Agree (scan_commit_object repo opt_related scan1 checksum depth p)
        (scan_commit_object repo opt_related scan2 checksum depth p).
Proof.
  intros Hrec. unfold scan_commit_object.
  destruct (Z.gtb_spec depth OSTREE_MAX_RECURSION); [apply Agree_refl; discriminate|].
  apply Agree_bind; [apply Agree_lift|]. intros commit p1 _.
  apply Agree_bind; [apply Hrec; assumption|]. intros _ p2 _.
  apply Agree_bind; [apply Hrec; assumption|]. intros _ p3 _.
  destruct opt_related; [|apply Agree_refl; discriminate].
  apply scan_commit_related_agree, Hrec. assumption.
Qed.

(** With one unit of fuel for every depth from the current one to
    OSTREE_MAX_RECURSION + 1, the scan is the same whatever the fuel. *)
Lemma scan_one_metadata_object_agree fuel1 :
  forall fuel2 depth csum t p,
    0 <= depth <= OSTREE_MAX_RECURSION + 1 ->
    OSTREE_MAX_RECURSION + 2 - depth <= Z.of_nat fuel1 ->
    OSTREE_MAX_RECURSION + 2 - depth <= Z.of_nat fuel2 ->
    Agree (scan_one_metadata_object repo opt_related fuel1 csum t depth p)
          (scan_one_metadata_object repo opt_related fuel2 csum t depth p).
Proof.
  unfold OSTREE_MAX_RECURSION.
  induction fuel1 as [|fuel1 IH]; intros fuel2 depth csum t p Hd H1 H2; [lia|].
  destruct fuel2 as [|fuel2]; [lia|].
  assert (Hnext : depth <= 256 ->
            agree_at (depth + 1)
              (scan_one_metadata_object repo opt_related fuel1)
              (scan_one_metadata_object repo opt_related fuel2)).
  { intros Hle csum' t' p'. apply IH; lia. }
  cbn [scan_one_metadata_object].
  apply Agree_bind; [apply Agree_refl; discriminate|]. intros scanned p1 _.
  destruct (bool_decide _); [apply Agree_refl; discriminate|].
  apply Agree_bind; [apply Agree_refl; discriminate|]. intros requested p2 _.
  apply Agree_bind; [apply Agree_lift|]. intros stored p3 _.
  destruct (negb stored && negb (bool_decide (csum ∈ requested))).
  { apply Agree_refl. unfold_pull.
    destruct (metadata_objects_to_fetch _); discriminate. }
  destruct stored; [|apply Agree_refl; discriminate].
  apply Agree_bind; [|intros; apply Agree_refl; discriminate].
  destruct t.
  - apply Agree_refl. discriminate.
  - apply scan_dirtree_object_agree.
    unfold guint_to_int, int_to_guint, OSTREE_MAX_RECURSION.
    replace (depth <? 2 ^ 31) with true by (symmetry; apply Z.ltb_lt; lia).
    intros Hle. rewrite Z.mod_small by lia. apply Hnext, Hle.
  - apply Agree_refl. discriminate.
  - apply scan_commit_object_agree. unfold OSTREE_MAX_RECURSION.
    intros Hle. rewrite Z.mod_small by lia. apply Hnext, Hle.
Qed.

End RecursionBound.

(** C9. scan_commit_object and scan_dirtree_object, entered with a
    recursion depth above OSTREE_MAX_RECURSION, fail with the error
    "Exceeded maximum recursion" before they load the object or write the
    struct.  So a scan that starts at depth 0 never nests more than
    OSTREE_MAX_RECURSION + 2 calls of scan_one_metadata_object, those at
    the depths 0 to OSTREE_MAX_RECURSION + 1: that much fuel is never used
    up, and more fuel changes nothing. *)
Theorem recursion_depth_is_bounded (repo : OstreeRepo) (opt_related : bool) :
  (forall scan_one checksum depth p,
     depth > OSTREE_MAX_RECURSION ->
     scan_commit_object repo opt_related scan_one checksum depth p
     = Throw (g_set_error "Exceeded maximum recursion") p
     /\ scan_dirtree_object repo scan_one checksum depth p
        = Throw (g_set_error "Exceeded maximum recursion") p)
  /\ (forall fuel csum t p,
        (scan_fuel <= fuel)%nat ->
        scan_one_metadata_object repo opt_related fuel csum t 0 p
        = scan_one_metadata_object repo opt_related scan_fuel csum t 0 p
        /\ scan_one_metadata_object repo opt_related scan_fuel csum t 0 p <> NoFuel).
Proof.
  split.
  - intros scan_one checksum depth p Hd.
    unfold scan_commit_object, scan_dirtree_object.
    replace (depth >? OSTREE_MAX_RECURSION) with true by (symmetry; apply Z.gtb_lt; lia).
    split; reflexivity.
  - intros fuel csum t p Hfuel.
    destruct (scan_one_metadata_object_agree repo opt_related scan_fuel fuel 0 csum t p)
      as [Heq Hne]; unfold scan_fuel, OSTREE_MAX_RECURSION in *; try lia.
    split; [symmetry; exact Heq | exact Hne].
Qed.

Lemma recursion_depth_is_bounded_witness :
  scan_dirtree_object endless_repo
    (scan_one_metadata_object endless_repo false 0) (digest "bb01") 257 pull_data_primed
  = Throw (g_set_error "Exceeded maximum recursion") pull_data_primed
  /\ scan_one_metadata_object endless_repo false 300 "a" OSTREE_OBJECT_TYPE_COMMIT 0
       pull_data_primed
     = scan_one_metadata_object endless_repo false scan_fuel "a" OSTREE_OBJECT_TYPE_COMMIT 0
         pull_data_primed.
Proof.
  destruct (recursion_depth_is_bounded endless_repo false) as [Hdeep Hfuel]. split.
  - apply (Hdeep (scan_one_metadata_object endless_repo false 0) (digest "bb01") 257
             pull_data_primed). reflexivity.
  - apply (Hfuel 300%nat "a" OSTREE_OBJECT_TYPE_COMMIT pull_data_primed).
    unfold scan_fuel, OSTREE_MAX_RECURSION. cbn. lia.
Defined.

Example endless_tree_exceeds_recursion :
  scan_one_metadata_object_v_name endless_repo false ("a", OSTREE_OBJECT_TYPE_COMMIT)
    pull_data_primed
  = Throw (g_set_error "Exceeded maximum recursion") pull_data_primed.
Proof. vm_compute. reflexivity. Qed.

(** ** No redundant fetch *)

Lemma wp_catch {A} (m : PullM A) p (Q : option GError -> OtPullData -> Prop) E :
  wp m p (fun _ p' => Q None p') (fun e p' => Q (Some e) p') -> wp (catch m) p Q E.
Proof. unfold wp, catch. destruct (m p); auto. Qed.

Lemma scanner_run_reached repos opt_related p0 scans :
  forall p,
    Forall (fun s => s.1 ∈ repos /\ OSTREE_OBJECT_TYPE_IS_META s.2.2 = true) scans ->
    (exists em, Emits repos p0 p em) ->
    wp (scanner_run opt_related scans) p
      (fun _ p' => exists em, Emits repos p0 p' em)
      (fun _ p' => exists em, Emits repos p0 p' em).
Proof.
  induction scans as [|[repo [csum t]] rest IH]; intros p Hscans Hp; cbn [scanner_run].
  - apply wp_ret, Hp.
  - apply Forall_cons in Hscans as [[Hin Hmeta] Hrest]. cbn in Hin, Hmeta.
    apply wp_bind, wp_catch.
    eapply wp_mono;
      [apply (scan_one_metadata_object_reached repos repo opt_related p0 scan_fuel Hin);
       [exact Hmeta|exact Hp] | |];
      cbn beta; intros _ p1 Hp1; apply IH; assumption.
Qed.

Lemma scanner_run_total opt_related scans :
  forall p, scanner_run opt_related scans p <> NoFuel.
Proof.
  induction scans as [|[repo [csum t]] rest IH]; intros p; cbn [scanner_run];
    [discriminate|].
  unfold bind, catch, scan_one_metadata_object_v_name.
  destruct (scan_one_metadata_object_agree repo opt_related scan_fuel scan_fuel 0 csum t p)
    as [_ Hne]; [unfold OSTREE_MAX_RECURSION; lia
                |unfold scan_fuel, OSTREE_MAX_RECURSION; lia..|].
  destruct (scan_one_metadata_object repo opt_related scan_fuel csum t 0 p);
    [apply IH | apply IH | discriminate | congruence].
Qed.

Lemma fetches_of_digest_split d q :
  fetches_of_digest d q
  = (count_occ String.string_dec (metadata_fetches q) d
     + count_occ String.string_dec (content_fetches q) d)%nat.
Proof.
  unfold fetches_of_digest, metadata_fetches, content_fetches.
  induction q as [|msg q IH]; [reflexivity|].
  destruct msg as [s|s|[c t]|i|]; try exact IH.
  cbn -[String.eqb] in *.
  destruct (OSTREE_OBJECT_TYPE_IS_META t); cbn -[String.eqb];
    destruct (String.string_dec c d) as [->|Hne];
    [rewrite String.eqb_refl | apply String.eqb_neq in Hne; rewrite Hne
    |rewrite String.eqb_refl | apply String.eqb_neq in Hne; rewrite Hne];
    cbn [length]; lia.
Qed.

(** C4, as the code has it. Over a run of the scanner, which processes any
    sequence of SCAN messages for metadata objects against the store as it
    stands at each one, the scan always finishes, and the messages [em] it
    appends to the dispatcher's queue are FETCH messages such that: a
    metadata FETCH is queued only for a digest absent from the store and not
    in requested_metadata, and enters it there at the same time; a content
    FETCH is queued only for a digest absent from the store and not in
    requested_content, and enters it there at the same time; both ledgers
    only grow; and no digest is queued twice through the same ledger. A
    digest thus gets at most one metadata FETCH and at most one content
    FETCH, two FETCH messages at most. *)
Theorem scanner_fetches_once_per_ledger
  (opt_related : bool) (scans : list (OstreeRepo * ObjectName)) (p : OtPullData) :
  Forall (fun s => OSTREE_OBJECT_TYPE_IS_META s.2.2 = true) scans ->
  scanner_run opt_related scans p <> NoFuel
  /\ forall p',
       scanner_run opt_related scans p = Ret tt p' ->
       exists em,
         Emits (scans.*1) p p' em
         /\ forall d, (fetches_of_digest d em <= 2)%nat.
Proof.
  intros Hmeta. split; [apply scanner_run_total|]. intros p' Hrun.
  assert (Hscans : Forall (fun s => s.1 ∈ scans.*1
                                    /\ OSTREE_OBJECT_TYPE_IS_META s.2.2 = true) scans).
  { apply Forall_forall. intros s Hs. split.
    - apply list_elem_of_fmap. exists s. auto.
    - rewrite Forall_forall in Hmeta. apply Hmeta, Hs. }
  pose proof (scanner_run_reached (scans.*1) opt_related p scans p Hscans
                (ex_intro _ [] (Emits_refl _ p))) as Hwp.
  unfold wp in Hwp. rewrite Hrun in Hwp. destruct Hwp as [em Hem].
  exists em. split; [exact Hem|]. intros d.
  rewrite fetches_of_digest_split.
  pose proof (proj1 (NoDup_count_occ String.string_dec _)
                (proj1 (NoDup_ListNoDup _) (em_metadata_once _ _ _ _ Hem)) d).
  pose proof (proj1 (NoDup_count_occ String.string_dec _)
                (proj1 (NoDup_ListNoDup _) (em_content_once _ _ _ _ Hem)) d).
  lia.
Qed.

Lemma scanner_fetches_once_per_ledger_witness :
  scanner_run false [(example_repo, (digest "aa01", OSTREE_OBJECT_TYPE_COMMIT))]
    pull_data_primed <> NoFuel
  /\ forall p',
       scanner_run false [(example_repo, (digest "aa01", OSTREE_OBJECT_TYPE_COMMIT))]
         pull_data_primed = Ret tt p' ->
       exists em,
         Emits [example_repo] pull_data_primed p' em
         /\ forall d, (fetches_of_digest d em <= 2)%nat.
Proof.
  apply (scanner_fetches_once_per_ledger false
           [(example_repo, (digest "aa01", OSTREE_OBJECT_TYPE_COMMIT))] pull_data_primed).
  repeat constructor.
Defined.

(** C4, as the claim states it, fails: scanning a commit whose dirtree lists
    one digest both as a file and as the tree of a subdirectory queues two
    FETCH messages for that digest, one through each ledger. *)
Lemma one_digest_fetched_twice_counterexample :
  exists p',
    scanner_run false [(example_repo, (digest "aa01", OSTREE_OBJECT_TYPE_COMMIT))]
      pull_data_primed = Ret tt p'
    /\ metadata_objects_to_fetch p'
       = Some [PULL_MSG_FETCH (digest "dd01", OSTREE_OBJECT_TYPE_FILE);
               PULL_MSG_FETCH (digest "dd01", OSTREE_OBJECT_TYPE_DIR_TREE)]
    /\ fetches_of_digest (digest "dd01") (fetch_queue p') = 2%nat.
Proof.
  eexists. split; [vm_compute; reflexivity|]. split; vm_compute; reflexivity.
Qed.

(** ** The coordinator *)

Ltac unfold_coord :=
  unfold cbind, cret, cfail, clift, log, update_data, get_data, get_refs, update_refs in *.

Lemma only_requests_refl s : only_requests s s.
Proof. split; [reflexivity|]. exists []. cbn. rewrite app_nil_r. reflexivity. Qed.

Lemma only_requests_trans s1 s2 s3 :
  only_requests s1 s2 -> only_requests s2 s3 -> only_requests s1 s3.
Proof.
  intros [Hr1 [u1 Ht1]] [Hr2 [u2 Ht2]]. split; [congruence|].
  exists (u1 ++ u2). rewrite Ht2, Ht1, fmap_app, app_assoc. reflexivity.
Qed.

Lemma only_requests_data f s :
  only_requests s (mkPullState (f (st_data s)) (st_refs s) (st_trace s)).
Proof. split; [reflexivity|]. exists []. cbn. rewrite app_nil_r. reflexivity. Qed.

Lemma requests_only_bind {A B} (m : Coord A) (k : A -> Coord B) :
  requests_only m -> (forall a, requests_only (k a)) -> requests_only (cbind m k).
Proof.
  intros Hm Hk s. unfold cbind. specialize (Hm s).
  destruct (m s) as [[a|e] s1]; cbn in *; [|exact Hm].
  eapply only_requests_trans; [exact Hm|apply Hk].
Qed.

Lemma requests_only_ret {A} (a : A) : requests_only (cret a).
Proof. intros s. apply only_requests_refl. Qed.

Lemma requests_only_fail {A} e : requests_only (@cfail A e).
Proof. intros s. apply only_requests_refl. Qed.

Lemma requests_only_lift {A} (r : gresult A) : requests_only (clift r).
Proof. intros s. apply only_requests_refl. Qed.

Lemma requests_only_update f : requests_only (update_data f).
Proof. intros s. apply only_requests_data. Qed.

Lemma requests_only_get : requests_only get_data.
Proof. intros s. apply only_requests_refl. Qed.

Lemma requests_only_log uri : requests_only (log (EvRequestUri uri)).
Proof. intros s. split; [reflexivity|]. exists [uri]. reflexivity. Qed.

Ltac requests_only_step :=
  first [ apply requests_only_ret | apply requests_only_fail | apply requests_only_lift
        | apply requests_only_update | apply requests_only_get | apply requests_only_log
        | apply requests_only_bind; [|intros ?] ].

Lemma fetch_uri_requests_only w uri : requests_only (fetch_uri w uri).
Proof.
  unfold fetch_uri. repeat requests_only_step.
  destruct (run_mainloop_monitor_fetcher_result _); requests_only_step.
Qed.

Lemma fetch_uri_contents_utf8_requests_only w uri :
  requests_only (fetch_uri_contents_utf8 w uri).
Proof.
  unfold fetch_uri_contents_utf8.
  apply requests_only_bind; [apply fetch_uri_requests_only|intros tmpf].
  apply requests_only_bind; [apply requests_only_lift|intros contents].
  destruct (w_utf8_validate w contents); requests_only_step.
Qed.

Lemma fetch_ref_contents_requests_only w ref : requests_only (fetch_ref_contents w ref).
Proof.
  unfold fetch_ref_contents.
  apply requests_only_bind; [apply requests_only_get|intros p].
  apply requests_only_bind; [apply fetch_uri_contents_utf8_requests_only|intros c].
  repeat requests_only_step.
Qed.

Lemma resolve_arguments_requests_only w branches :
  forall commits refs, requests_only (resolve_arguments w branches commits refs).
Proof.
  induction branches as [|branch rest IH]; intros commits refs; cbn [resolve_arguments].
  - apply requests_only_ret.
  - destruct (ostree_validate_checksum_string branch); [apply IH|].
    apply requests_only_bind; [apply fetch_ref_contents_requests_only|intros c]. apply IH.
Qed.

Lemma resolve_configured_branches_requests_only w branches :
  forall refs, requests_only (resolve_configured_branches w branches refs).
Proof.
  induction branches as [|branch rest IH]; intros refs; cbn [resolve_configured_branches].
  - apply requests_only_ret.
  - apply requests_only_bind; [apply fetch_ref_contents_requests_only|intros c]. apply IH.
Qed.

Lemma pull_resolve_refs_requests_only w repo remote base branches :
  requests_only (pull_resolve_refs w repo remote base branches).
Proof.
  unfold pull_resolve_refs. destruct branches as [|b rest].
  - destruct (g_key_file_get_value _ _ _) as [value|temp_error].
    + apply requests_only_bind;
        [apply resolve_configured_branches_requests_only|intros refs].
      apply requests_only_ret.
    + destruct (g_error_matches _ _); [|apply requests_only_fail].
      apply requests_only_bind; [apply fetch_uri_contents_utf8_requests_only|intros d].
      repeat requests_only_step.
  - apply resolve_arguments_requests_only.
Qed.

Lemma fetch_uri_ok w uri tmpf s :
  w_request_uri w uri = GOk tmpf ->
  caught_error (st_data s) = false ->
  exists p',
    fetch_uri w uri s
    = (GOk tmpf, mkPullState p' (st_refs s) (st_trace s ++ [EvRequestUri uri]))
    /\ caught_error p' = false
    /\ base_uri p' = base_uri (st_data s).
Proof.
  intros Hreq Hok. unfold fetch_uri. unfold_coord. cbn. rewrite Hreq.
  unfold idle_check_outstanding_requests, run_mainloop_monitor_fetcher_result.
  match goal with |- context [caught_error ?x] =>
    assert (Hc : caught_error x = false /\ base_uri x = base_uri (st_data s))
  end.
  { unfold check_outstanding_requests_handle_error, throw_async_error, g_main_loop_quit.
    cbn.
    repeat match goal with |- context [if ?b then _ else _] => destruct b end;
      repeat match goal with |- context [match ?o with Some _ => _ | None => _ end] =>
        destruct o end; cbn; auto. }
  destruct Hc as [Hc Hb]. rewrite Hc. cbn. eexists. split; [reflexivity|]. auto.
Qed.

Lemma fetch_uri_failed w uri e s :
  w_request_uri w uri = GErr e -> exists e' s', fetch_uri w uri s = (GErr e', s').
Proof.
  intros Hreq. unfold fetch_uri. unfold_coord. cbn. rewrite Hreq.
  unfold run_mainloop_monitor_fetcher_result.
  match goal with |- context [check_outstanding_requests_handle_error (Some e) ?x] =>
    pose proof (check_with_error_fields e x) as (Hc & _)
  end.
  cbn zeta in Hc. rewrite Hc. cbn. eauto.
Qed.

Lemma fetch_uri_contents_utf8_ok w uri tmpf contents s :
  w_request_uri w uri = GOk tmpf ->
  w_load_contents w tmpf = GOk contents ->
  w_utf8_validate w contents = true ->
  caught_error (st_data s) = false ->
  exists p',
    fetch_uri_contents_utf8 w uri s
    = (GOk contents, mkPullState p' (st_refs s) (st_trace s ++ [EvRequestUri uri]))
    /\ caught_error p' = false
    /\ base_uri p' = base_uri (st_data s).
Proof.
  intros Hreq Hload Hutf Hok.
  destruct (fetch_uri_ok w uri tmpf s Hreq Hok) as (p' & Hfetch & Hc & Hb).
  unfold fetch_uri_contents_utf8, cbind. rewrite Hfetch. unfold clift.
  rewrite Hload, Hutf. exists p'. auto.
Qed.

Lemma fetch_uri_contents_utf8_inv w uri contents s s' :
  fetch_uri_contents_utf8 w uri s = (GOk contents, s') ->
  exists tmpf,
    w_request_uri w uri = GOk tmpf
    /\ w_load_contents w tmpf = GOk contents
    /\ w_utf8_validate w contents = true.
Proof.
  unfold fetch_uri_contents_utf8, cbind. intros H.
  destruct (w_request_uri w uri) as [tmpf|e] eqn:Hreq.
  - destruct (fetch_uri w uri s) as [[f|e] s1] eqn:Hfetch; [|discriminate].
    assert (f = tmpf) as ->.
    { revert Hfetch. unfold fetch_uri. unfold_coord. cbn. rewrite Hreq.
      destruct (run_mainloop_monitor_fetcher_result _); congruence. }
    unfold clift, cret, cfail in H.
    destruct (w_load_contents w tmpf) as [c|e] eqn:Hload; [|discriminate].
    destruct (w_utf8_validate w c) eqn:Hutf; [|discriminate].
    injection H as -> _. exists tmpf. auto.
  - destruct (fetch_uri_failed w uri e s Hreq) as (e' & s1 & Hfetch).
    rewrite Hfetch in H. discriminate.
Qed.

(** When the remote opens, the first part of the pull yields the mode that
    the remote's config resolves to, having asked the fetcher for the config
    file and nothing else. *)
Lemma pull_open_remote_run w repo argv remote base branches remote_config
  remote_mode_str mode s :
  RemoteOpens w repo argv remote base branches remote_config ->
  w_keyfile_get_value_with_default w remote_config "core" "mode" "bare"
  = GOk remote_mode_str ->
  w_repo_mode_from_string w remote_mode_str = GOk mode ->
  exists p',
    pull_open_remote w repo argv s
    = (GOk (remote, base, branches, remote_mode_str, mode),
       mkPullState p' (st_refs s)
         (st_trace s ++ [EvRequestUri (suburi_new base "config" [])]))
    /\ caught_error p' = false.
Proof.
  intros (Hopt & Hcheck & [prog ->] & (baseurl & Hurl & Huri)
          & (tmpf & contents & Hreq & Hload & Hutf & Hkf)) Hmode_str Hmode.
  unfold pull_open_remote, load_remote_repo_config.
  unfold cbind at 1. unfold update_data at 1. cbn [st_data st_refs st_trace].
  unfold cbind at 1. unfold clift at 1. rewrite Hopt.
  unfold cbind at 1. unfold clift at 1. rewrite Hcheck.
  unfold cbind at 1. unfold update_data at 1. cbn [st_data st_refs st_trace].
  unfold cbind at 1. unfold clift at 1. rewrite Hurl, Huri.
  unfold cbind at 1. unfold update_data at 1. cbn [st_data st_refs st_trace].
  unfold cbind at 1. unfold cbind at 1. unfold get_data at 1.
  cbn [st_data st_refs st_trace base_uri set_base_uri].
  unfold cbind at 1.
  match goal with |- context [fetch_uri_contents_utf8 w ?u ?s0] =>
    destruct (fetch_uri_contents_utf8_ok w u tmpf contents s0 Hreq Hload Hutf eq_refl)
      as (p' & Hfetch & Hc & _)
  end.
  rewrite Hfetch. unfold clift at 1. rewrite Hkf.
  unfold cbind at 1. unfold clift at 1. rewrite Hmode_str.
  unfold cbind at 1. unfold clift at 1. rewrite Hmode.
  unfold cbind, update_data, cret. cbn [st_data st_refs st_trace].
  eexists. split; [reflexivity|]. exact Hc.
Qed.

(** The first part of the pull yields a mode only if the remote opens and
    its config resolves to that mode. *)
Lemma pull_open_remote_inv w repo argv remote base branches remote_mode_str mode s s' :
  pull_open_remote w repo argv s
  = (GOk (remote, base, branches, remote_mode_str, mode), s') ->
  exists remote_config,
    RemoteOpens w repo argv remote base branches remote_config
    /\ w_keyfile_get_value_with_default w remote_config "core" "mode" "bare"
       = GOk remote_mode_str
    /\ w_repo_mode_from_string w remote_mode_str = GOk mode.
Proof.
  unfold pull_open_remote, load_remote_repo_config.
  unfold cbind at 1. unfold update_data at 1. cbn [st_data st_refs st_trace].
  unfold cbind at 1. unfold clift at 1.
  destruct (w_option_context_parse w) eqn:Hopt; [discriminate|].
  unfold cbind at 1. unfold clift at 1.
  destruct (w_repo_check w) as [[]|] eqn:Hcheck; [|discriminate].
  destruct argv as [|prog [|remote' branches']]; [discriminate..|].
  unfold cbind at 1. unfold update_data at 1. cbn [st_data st_refs st_trace].
  unfold cbind at 1. unfold clift at 1.
  destruct (repo_get_string_key_inherit _ _ _) as [baseurl|] eqn:Hurl; [|discriminate].
  destruct (w_soup_uri_new w baseurl) as [base'|] eqn:Huri; [|discriminate].
  unfold cbind at 1. unfold update_data at 1. cbn [st_data st_refs st_trace].
  unfold cbind at 1. unfold cbind at 1. unfold get_data at 1.
  cbn [st_data st_refs st_trace base_uri set_base_uri].
  unfold cbind at 1.
  destruct (fetch_uri_contents_utf8 _ _ _) as [[contents|] s1] eqn:Hfetch; [|discriminate].
  apply fetch_uri_contents_utf8_inv in Hfetch as (tmpf & Hreq & Hload & Hutf).
  unfold clift at 1.
  destruct (w_key_file_load_from_data w contents) as [remote_config|] eqn:Hkf;
    [|discriminate].
  unfold cbind at 1. unfold clift at 1.
  destruct (w_keyfile_get_value_with_default w remote_config "core" "mode" "bare")
    as [mode_str|] eqn:Hmode_str; [|discriminate].
  unfold cbind at 1. unfold clift at 1.
  destruct (w_repo_mode_from_string w mode_str) as [mode'|] eqn:Hmode; [|discriminate].
  unfold cbind, update_data, cret. cbn [st_data st_refs st_trace].
  intros [= <- <- <- <- <- <-].
  exists remote_config. split; [|auto].
  repeat split; eauto 10.
Qed.

Lemma pull_open_remote_requests_only w repo argv :
  requests_only (pull_open_remote w repo argv).
Proof.
  unfold pull_open_remote, load_remote_repo_config.
  apply requests_only_bind; [apply requests_only_update|intros _].
  apply requests_only_bind; [apply requests_only_lift|intros _].
  apply requests_only_bind; [apply requests_only_lift|intros _].
  destruct argv as [|prog [|remote branches]]; try apply requests_only_fail.
  apply requests_only_bind; [apply requests_only_update|intros _].
  apply requests_only_bind; [apply requests_only_lift|intros baseurl].
  destruct (w_soup_uri_new w baseurl); [|apply requests_only_fail].
  apply requests_only_bind; [apply requests_only_update|intros _].
  apply requests_only_bind.
  - apply requests_only_bind; [apply requests_only_get|intros p].
    apply requests_only_bind; [apply fetch_uri_contents_utf8_requests_only|intros c].
    apply requests_only_lift.
  - intros remote_config. repeat requests_only_step.
Qed.

Lemma only_requests_no_event s s' ev :
  only_requests s s' -> (forall uri, ev <> EvRequestUri uri) ->
  ev ∈ st_trace s' -> ev ∈ st_trace s.
Proof.
  intros [_ [uris Ht]] Hev Hin. rewrite Ht in Hin.
  apply elem_of_app in Hin as [Hin|Hin]; [exact Hin|].
  apply list_elem_of_fmap in Hin as (uri & -> & _). exfalso. eapply Hev. reflexivity.
Qed.

(** With a mode other than archive-z2 the pull stops at the mode check. *)
Lemma pull_fails_on_other_mode w repo argv s remote base branches remote_config
  remote_mode_str mode :
  RemoteOpens w repo argv remote base branches remote_config ->
  w_keyfile_get_value_with_default w remote_config "core" "mode" "bare"
  = GOk remote_mode_str ->
  w_repo_mode_from_string w remote_mode_str = GOk mode ->
  mode <> OSTREE_REPO_MODE_ARCHIVE_Z2 ->
  exists p',
    ostree_builtin_pull w repo argv s
    = (GErr (unsupported_mode_error remote_mode_str),
       mkPullState p' (st_refs s)
         (st_trace s ++ [EvRequestUri (suburi_new base "config" [])])).
Proof.
  intros Hopen Hstr Hmode Hne.
  destruct (pull_open_remote_run w repo argv remote base branches remote_config
              remote_mode_str mode s Hopen Hstr Hmode) as (p' & Hrun & _).
  unfold ostree_builtin_pull, cbind. rewrite Hrun.
  rewrite bool_decide_eq_false_2 by exact Hne. cbn. eauto.
Qed.

(** C8. Whenever the remote opens and the mode string its config gives for
    core.mode resolves to a mode other than archive-z2, ostree_builtin_pull
    fails with the error "Can't pull from archives with mode ..." (the
    spec's Unsupported), having asked the fetcher for the config file only:
    no transaction is opened, no main loop is run for objects, no ref is
    touched. And a pull that gets as far as opening the transaction has a
    remote config whose core.mode resolves to archive-z2. *)
Theorem pull_requires_archive_z2 (w : World) (repo : RepoConfig) (argv : list string)
  (s : PullState) :
  (forall remote base branches remote_config remote_mode_str mode,
     RemoteOpens w repo argv remote base branches remote_config ->
     w_keyfile_get_value_with_default w remote_config "core" "mode" "bare"
     = GOk remote_mode_str ->
     w_repo_mode_from_string w remote_mode_str = GOk mode ->
     mode <> OSTREE_REPO_MODE_ARCHIVE_Z2 ->
     exists p',
       ostree_builtin_pull w repo argv s
       = (GErr (unsupported_mode_error remote_mode_str),
          mkPullState p' (st_refs s)
            (st_trace s ++ [EvRequestUri (suburi_new base "config" [])])))
  /\ (EvPrepareTransaction ∉ st_trace s ->
      EvPrepareTransaction ∈ st_trace (ostree_builtin_pull w repo argv s).2 ->
      exists remote base branches remote_config remote_mode_str,
        RemoteOpens w repo argv remote base branches remote_config
        /\ w_keyfile_get_value_with_default w remote_config "core" "mode" "bare"
           = GOk remote_mode_str
        /\ w_repo_mode_from_string w remote_mode_str = GOk OSTREE_REPO_MODE_ARCHIVE_Z2).
Proof.
  split.
  - intros remote base branches remote_config remote_mode_str mode.
    apply pull_fails_on_other_mode.
  - intros Hfresh Hin. unfold ostree_builtin_pull, cbind in Hin.
    destruct (pull_open_remote w repo argv s)
      as [[[[[[remote base] branches] remote_mode_str] mode]|e] s1] eqn:Hopen.
    + destruct (pull_open_remote_inv _ _ _ _ _ _ _ _ _ _ Hopen)
        as (remote_config & Hopens & Hstr & Hmode).
      case_bool_decide as Hz2; cbn in Hin.
      * subst mode. eauto 10.
      * exfalso.
        destruct (pull_open_remote_run w repo argv remote base branches remote_config
                    remote_mode_str mode s Hopens Hstr Hmode) as (p' & Hrun & _).
        rewrite Hrun in Hopen. injection Hopen as <-. cbn in Hin.
        apply elem_of_app in Hin as [Hin|Hin]; [auto|].
        apply list_elem_of_singleton in Hin. discriminate.
    + exfalso. cbn in Hin. apply Hfresh.
      pose proof (pull_open_remote_requests_only w repo argv s) as Hreq.
      rewrite Hopen in Hreq. cbn in Hreq.
      eapply only_requests_no_event; [exact Hreq|discriminate|exact Hin].
Qed.

Lemma pull_requires_archive_z2_witness :
  exists p',
    ostree_builtin_pull (example_world [("core", [("mode", "bare")])]) example_local_repo
      ["pull"; "origin"; "main"] (initial_state ∅)
    = (GErr (unsupported_mode_error "bare"),
       mkPullState p' ∅ [EvRequestUri (mkSoupURI "http://h/r" ["config"])]).
Proof.
  apply (proj1 (pull_requires_archive_z2 (example_world [("core", [("mode", "bare")])])
                  example_local_repo ["pull"; "origin"; "main"] (initial_state ∅))
           "origin" (mkSoupURI "http://h/r" []) ["main"] [("core", [("mode", "bare")])]
           "bare" OSTREE_REPO_MODE_BARE).
  - unfold RemoteOpens. cbn. repeat split; eauto 10.
  - reflexivity.
  - reflexivity.
  - discriminate.
Defined.

(** ** Seeding and writing refs *)

Lemma mkLoop_eta ls : mkLoop (ls_data ls) (ls_scanner ls) = ls.
Proof. destruct ls. reflexivity. Qed.

Lemma seed_commits_spec w commits :
  forall scanner s,
    seed_commits w commits scanner s
    = let ls := foldl (fun ls commit => main_thread_writes w (push_scan commit) ls)
                  (mkLoop (st_data s) scanner) commits in
      (GOk (ls_scanner ls), mkPullState (ls_data ls) (st_refs s) (st_trace s)).
Proof.
  induction commits as [|commit rest IH]; intros scanner s; cbn [seed_commits foldl].
  - destruct s. reflexivity.
  - unfold cbind at 1. unfold update_data at 1.
    unfold cbind at 1. unfold scanner_thread_yield at 1.
    cbn [st_data st_refs st_trace].
    rewrite IH. cbn [st_data st_refs st_trace]. rewrite mkLoop_eta. reflexivity.
Qed.

Lemma seed_requested_refs_spec w remote requested :
  forall updated scanner s,
    seed_requested_refs w remote requested updated scanner s
    = match seeding_failure w remote requested with
      | None =>
          let ls := foldl (fun ls x => main_thread_writes w (push_scan x.2) ls)
                      (mkLoop (st_data s) scanner)
                      (changed_refs remote (st_refs s) requested) in
          (GOk (foldl (fun m x => <[x.1 := x.2]> m) updated
                  (changed_refs remote (st_refs s) requested),
                ls_scanner ls),
           mkPullState (ls_data ls) (st_refs s) (st_trace s))
      | Some (e, handled) =>
          let ls := foldl (fun ls x => main_thread_writes w (push_scan x.2) ls)
                      (mkLoop (st_data s) scanner)
                      (changed_refs remote (st_refs s) handled) in
          (GErr e, mkPullState (ls_data ls) (st_refs s) (st_trace s))
      end.
Proof.
  induction requested as [|[ref sha256] rest IH]; intros updated scanner s;
    cbn [seed_requested_refs seeding_failure changed_refs List.filter].
  - destruct s. reflexivity.
  - unfold cbind at 1. unfold get_refs at 1. unfold cbind at 1.
    unfold clift, ostree_repo_resolve_rev. cbn [fst snd].
    destruct (w_resolve_rev_error w (remote_ref_name remote ref)) as [e|].
    { destruct s. reflexivity. }
    case_bool_decide as Hsame; cbn [negb].
    + rewrite IH. destruct (seeding_failure w remote rest) as [[e handled]|].
      * unfold changed_refs. cbn [List.filter fst snd].
        rewrite bool_decide_eq_true_2 by exact Hsame. reflexivity.
      * reflexivity.
    + unfold cbind at 1. unfold update_data at 1.
      unfold cbind at 1. unfold scanner_thread_yield at 1.
      cbn [st_data st_refs st_trace].
      rewrite IH. cbn [st_data st_refs st_trace]. rewrite mkLoop_eta.
      destruct (seeding_failure w remote rest) as [[e handled]|].
      * unfold changed_refs. cbn [List.filter fst snd].
        rewrite bool_decide_eq_false_2 by exact Hsame. reflexivity.
      * reflexivity.
Qed.

(** write_updated_refs calls write_ref for the refs in order, up to the
    first call that fails, and does nothing else. *)
Lemma write_updated_refs_spec w remote updated :
  forall s,
    exists written,
      written `prefix_of` updated
      /\ st_trace (write_updated_refs w remote updated s).2
         = st_trace s ++ write_events remote written
      /\ ((write_updated_refs w remote updated s).1 = GOk tt -> written = updated)
      /\ st_data (write_updated_refs w remote updated s).2 = st_data s.
Proof.
  induction updated as [|[ref checksum] rest IH]; intros s; cbn [write_updated_refs].
  - exists []. cbn. rewrite app_nil_r. auto.
  - unfold ostree_repo_write_ref. unfold_coord. cbn.
    destruct (w_write_ref w remote ref checksum) as [[]|e]; cbn.
    + match goal with |- context [write_updated_refs w remote rest ?s0] =>
        destruct (IH s0) as (written & Hpre & Htrace & Hall & Hdata)
      end.
      exists ((ref, checksum) :: written). cbn in *.
      split; [apply prefix_cons, Hpre|].
      split; [rewrite Htrace, <- app_assoc; reflexivity|].
      split; [intros Hok; f_equal; auto | exact Hdata].
    + exists [(ref, checksum)]. cbn.
      split; [apply prefix_cons, prefix_nil|].
      split; [reflexivity|]. split; [discriminate|reflexivity].
Qed.

(** What write_updated_refs leaves in the refs when every call succeeds. *)
Lemma write_updated_refs_refs w remote updated :
  forall s s',
    write_updated_refs w remote updated s = (GOk tt, s') ->
    st_refs s'
    = foldl (fun m x => <[remote_ref_name remote x.1 := x.2]> m) (st_refs s) updated.
Proof.
  induction updated as [|[ref checksum] rest IH]; intros s s'; cbn [write_updated_refs].
  - unfold cret. intros [= <-]. reflexivity.
  - unfold ostree_repo_write_ref. unfold_coord. cbn.
    destruct (w_write_ref w remote ref checksum) as [[]|e]; cbn; [|discriminate].
    intros H. apply IH in H. exact H.
Qed.

(** The course of pull_transfer, case by case. *)
Lemma pull_transfer_course w remote commits requested s :
  let changed := changed_refs remote (st_refs s) (map_to_list requested) in
  let p_in := main_loop_input w (st_data s) commits changed in
  let p_out := w_main_loop_run w p_in in
  let opened := st_trace s ++ [EvPrepareTransaction] in
  pull_transfer w remote commits requested s
  = match w_prepare_transaction w with
    | GErr e => (GErr e, mkPullState (st_data s) (st_refs s) opened)
    | GOk _ =>
        match seeding_failure w remote (map_to_list requested) with
        | Some (e, handled) =>
            (GErr e,
             mkPullState
               (seeded_data w (st_data s) commits
                  (changed_refs remote (st_refs s) handled))
               (st_refs s) opened)
        | None =>
            if caught_error p_out
            then (GErr (async_failure p_out),
                  mkPullState p_out (st_refs s) (opened ++ [EvMainLoop p_in]))
            else
              match w_commit_transaction w with
              | GErr e =>
                  (GErr e, mkPullState p_out (st_refs s)
                             ((opened ++ [EvMainLoop p_in]) ++ [EvCommitTransaction]))
              | GOk _ =>
                  write_updated_refs w remote (map_to_list (updated_refs_of changed))
                    (mkPullState p_out (st_refs s)
                       ((opened ++ [EvMainLoop p_in]) ++ [EvCommitTransaction]))
              end
        end
    end.
Proof.
  cbn zeta. unfold pull_transfer.
  unfold cbind at 1. unfold log at 1. cbn [st_data st_refs st_trace].
  unfold cbind at 1. unfold clift at 1.
  destruct (w_prepare_transaction w) as [[]|e]; [|reflexivity].
  unfold cbind at 1. unfold update_data at 1. cbn [st_data st_refs st_trace].
  unfold cbind at 1. unfold scanner_thread_yield at 1. cbn [st_data st_refs st_trace].
  unfold cbind at 1. rewrite seed_commits_spec. cbn zeta. cbn [st_data st_refs st_trace].
  rewrite mkLoop_eta.
  unfold cbind at 1. rewrite seed_requested_refs_spec. cbn [st_data st_refs st_trace].
  rewrite mkLoop_eta.
  fold (seeded_loop w (st_data s) commits
          (changed_refs remote (st_refs s) (map_to_list requested))).
  destruct (seeding_failure w remote (map_to_list requested)) as [[e handled]|];
    [reflexivity|].
  cbn zeta.
  unfold cbind at 1. unfold update_data at 1. cbn [st_data st_refs st_trace].
  unfold cbind at 1. unfold scanner_thread_yield at 1. cbn [st_data st_refs st_trace].
  unfold cbind at 1. unfold update_data at 1. cbn [st_data st_refs st_trace].
  unfold cbind at 1. unfold scanner_thread_yield at 1. cbn [st_data st_refs st_trace].
  unfold cbind at 1. unfold get_data at 1. cbn [st_data st_refs st_trace].
  unfold cbind at 1. unfold log at 1. cbn [st_data st_refs st_trace].
  unfold cbind at 1. unfold update_data at 1. cbn [st_data st_refs st_trace].
  unfold cbind at 1. unfold get_data at 1. cbn [st_data st_refs st_trace].
  fold (updated_refs_of (changed_refs remote (st_refs s) (map_to_list requested))).
  change (ls_data (scanner_thread_runs w _))
    with (main_loop_input w (st_data s) commits
            (changed_refs remote (st_refs s) (map_to_list requested))).
  unfold run_mainloop_monitor_fetcher_result. rewrite negb_involutive.
  destruct (caught_error _); [reflexivity|].
  unfold cbind at 1. unfold log at 1. cbn [st_data st_refs st_trace].
  unfold cbind at 1. unfold clift at 1.
  destruct (w_commit_transaction w) as [[]|e]; reflexivity.
Qed.

Lemma app_eq_split_after {A} (l1 l2 pre post : list A) (x : A) :
  l1 ++ l2 = pre ++ x :: post -> x ∉ l1 ->
  exists pre2, pre = l1 ++ pre2 /\ l2 = pre2 ++ x :: post.
Proof.
  revert pre. induction l1 as [|a l1 IH]; intros pre Heq Hnot.
  - exists pre. auto.
  - destruct pre as [|b pre]; cbn in Heq.
    + injection Heq as -> _. exfalso. apply Hnot. left.
    + injection Heq as -> Heq.
      destruct (IH pre Heq) as (pre2 & -> & ->).
      * intros Hin. apply Hnot. right. exact Hin.
      * exists pre2. auto.
Qed.

Lemma write_events_elem remote written ev :
  ev ∈ write_events remote written ->
  exists x, x ∈ written /\ ev = EvWriteRef remote x.1 x.2.
Proof.
  unfold write_events. intros (x & -> & Hx)%list_elem_of_fmap. eauto.
Qed.

(** In pull_transfer, a write_ref call comes after the successful commit of
    the transaction, which comes after a main loop left without an error;
    when the commit or the main loop fails, no write_ref is called and the
    refs are what they were. *)
Lemma pull_transfer_writes_after_commit w remote commits requested s :
  writes_no_ref (st_trace s) ->
  (forall p, EvMainLoop p ∉ st_trace s) ->
  let result := pull_transfer w remote commits requested s in
  (forall pre remote' ref checksum post,
     st_trace result.2 = pre ++ EvWriteRef remote' ref checksum :: post ->
     EvCommitTransaction ∈ pre /\ w_commit_transaction w = GOk tt
     /\ exists p, EvMainLoop p ∈ pre /\ caught_error (w_main_loop_run w p) = false)
  /\ (w_commit_transaction w <> GOk tt
      \/ (exists p, EvMainLoop p ∈ st_trace result.2
                    /\ caught_error (w_main_loop_run w p) = true) ->
      writes_no_ref (st_trace result.2) /\ st_refs result.2 = st_refs s).
Proof.
  intros Hnow Hnoloop. cbn zeta. rewrite pull_transfer_course.
  set (changed := changed_refs remote (st_refs s) (map_to_list requested)).
  set (p_in := main_loop_input w (st_data s) commits changed).
  assert (Hshort : forall tail,
            (forall remote' ref checksum, EvWriteRef remote' ref checksum ∉ tail) ->
            writes_no_ref (st_trace s ++ tail)).
  { intros tail Htail remote' ref checksum [Hin|Hin]%elem_of_app;
      [eapply Hnow | eapply Htail]; exact Hin. }
  assert (Hnone : forall tail pre remote' ref checksum post (P : Prop),
            (forall remote' ref checksum, EvWriteRef remote' ref checksum ∉ tail) ->
            st_trace s ++ tail = pre ++ EvWriteRef remote' ref checksum :: post -> P).
  { intros tail pre remote' ref checksum post P Htail Heq. exfalso.
    apply (Hshort tail Htail remote' ref checksum). rewrite Heq.
    apply elem_of_app. right. left. }
  destruct (w_prepare_transaction w) as [[]|e]; cbn [fst snd st_trace st_refs].
  2:{ split.
      - intros pre remote' ref checksum post.
        apply Hnone. intros r0 f0 c0 Hin. apply list_elem_of_singleton in Hin.
        discriminate.
      - intros _. split; [|reflexivity].
        apply Hshort. intros r0 f0 c0 Hin. apply list_elem_of_singleton in Hin.
        discriminate. }
  destruct (seeding_failure w remote (map_to_list requested)) as [[e handled]|];
    cbn [fst snd st_trace st_refs].
  { split.
    - intros pre remote' ref checksum post.
      apply Hnone. intros r0 f0 c0 Hin. apply list_elem_of_singleton in Hin.
      discriminate.
    - intros _. split; [|reflexivity].
      apply Hshort. intros r0 f0 c0 Hin. apply list_elem_of_singleton in Hin.
      discriminate. }
  destruct (caught_error (w_main_loop_run w p_in)) eqn:Hloop;
    cbn [fst snd st_trace st_refs].
  { rewrite <- app_assoc. split.
    - intros pre remote' ref checksum post.
      apply Hnone. intros r0 f0 c0 Hin. cbn in Hin.
      repeat (apply elem_of_cons in Hin as [Hin|Hin]; [discriminate|]). inversion Hin.
    - intros _. split; [|reflexivity].
      apply Hshort. intros r0 f0 c0 Hin. cbn in Hin.
      repeat (apply elem_of_cons in Hin as [Hin|Hin]; [discriminate|]). inversion Hin. }
  destruct (w_commit_transaction w) as [[]|e] eqn:Hcommit; cbn [fst snd st_trace st_refs].
  2:{ rewrite <- !app_assoc. split.
      - intros pre remote' ref checksum post.
        apply Hnone. intros r0 f0 c0 Hin. cbn in Hin.
        repeat (apply elem_of_cons in Hin as [Hin|Hin]; [discriminate|]). inversion Hin.
      - intros _. split; [|reflexivity].
        apply Hshort. intros r0 f0 c0 Hin. cbn in Hin.
        repeat (apply elem_of_cons in Hin as [Hin|Hin]; [discriminate|]). inversion Hin. }
  match goal with |- context [write_updated_refs w remote ?u ?s0] =>
    destruct (write_updated_refs_spec w remote u s0) as (written & _ & Htrace & _ & _)
  end.
  rewrite Htrace. cbn [st_trace]. split.
  - intros pre remote' ref checksum post Heq. split; [|split; [reflexivity|]].
    + rewrite <- !app_assoc in Heq. cbn in Heq.
      apply app_eq_split_after in Heq as (pre2 & -> & Heq); [|apply Hnow].
      destruct pre2 as [|e1 [|e2 [|e3 pre2]]]; try discriminate.
      injection Heq as <- <- <- _.
      apply elem_of_app. right. right. right. left.
    + exists p_in. split; [|exact Hloop].
      rewrite <- !app_assoc in Heq. cbn in Heq.
      apply app_eq_split_after in Heq as (pre2 & -> & Heq); [|apply Hnow].
      destruct pre2 as [|e1 [|e2 [|e3 pre2]]]; try discriminate.
      injection Heq as <- <- <- _.
      apply elem_of_app. right. right. left.
  - intros [Hfail|(p & Hin & Hfail)]; [congruence|]. exfalso.
    rewrite <- !app_assoc in Hin. cbn in Hin.
    apply elem_of_app in Hin as [Hin|Hin]; [eapply Hnoloop; exact Hin|].
    apply elem_of_cons in Hin as [Hin|Hin]; [discriminate|].
    apply elem_of_cons in Hin as [Hin|Hin]; [injection Hin as ->; congruence|].
    apply elem_of_cons in Hin as [Hin|Hin]; [discriminate|].
    apply write_events_elem in Hin as (x & _ & Hx). discriminate.
Qed.

Lemma foldl_insert_lookup_other (l : list (string * string)) :
  forall (m : gmap string string) k,
    k ∉ l.*1 -> foldl (fun m x => <[x.1 := x.2]> m) m l !! k = m !! k.
Proof.
  induction l as [|[k0 v0] l IH]; intros m k Hk; cbn; [reflexivity|].
  rewrite IH.
  - apply lookup_insert_ne. intros ->. apply Hk. cbn. left.
  - intros Hin. apply Hk. cbn. right. exact Hin.
Qed.

Lemma foldl_insert_lookup (l : list (string * string)) :
  forall (m : gmap string string) k v,
    NoDup l.*1 -> (k, v) ∈ l -> foldl (fun m x => <[x.1 := x.2]> m) m l !! k = Some v.
Proof.
  induction l as [|[k0 v0] l IH]; intros m k v Hnd Hin; [inversion Hin|].
  cbn in Hnd. apply NoDup_cons in Hnd as [Hk0 Hnd]. cbn.
  apply elem_of_cons in Hin as [[= -> ->]|Hin].
  - rewrite foldl_insert_lookup_other by exact Hk0. apply lookup_insert_eq.
  - apply IH; assumption.
Qed.

Lemma foldl_insert_lookup_inv (l : list (string * string)) :
  forall (m : gmap string string) k v,
    foldl (fun m x => <[x.1 := x.2]> m) m l !! k = Some v ->
    (k, v) ∈ l \/ m !! k = Some v.
Proof.
  induction l as [|[k0 v0] l IH]; intros m k v H; cbn in H; [auto|].
  apply IH in H as [H|H]; [left; right; exact H|].
  destruct (decide (k0 = k)) as [->|Hne].
  - rewrite lookup_insert_eq in H. injection H as ->. left. left.
  - rewrite lookup_insert_ne in H by exact Hne. auto.
Qed.

Lemma changed_refs_sublist remote refs requested x :
  x ∈ changed_refs remote refs requested ->
  x ∈ requested /\ refs !! remote_ref_name remote x.1 <> Some x.2.
Proof.
  unfold changed_refs. rewrite list_elem_of_In, filter_In, <- list_elem_of_In.
  intros [Hin Hchanged]. split; [exact Hin|].
  apply negb_true_iff, bool_decide_eq_false in Hchanged. exact Hchanged.
Qed.

Lemma changed_refs_NoDup remote refs (requested : gmap string Checksum) :
  NoDup (changed_refs remote refs (map_to_list requested)).*1.
Proof.
  pose proof (NoDup_fst_map_to_list requested) as Hnd.
  unfold changed_refs.
  induction (map_to_list requested) as [|x l IH]; cbn; [constructor|].
  cbn in Hnd. apply NoDup_cons in Hnd as [Hx Hnd].
  destruct (negb _); cbn; [|apply IH, Hnd].
  apply NoDup_cons. split; [|apply IH, Hnd].
  intros (y & Hy & Hin)%list_elem_of_fmap.
  apply list_elem_of_In, filter_In in Hin as [Hin _].
  apply Hx. apply list_elem_of_fmap. exists y. split; [exact Hy|].
  apply list_elem_of_In, Hin.
Qed.

Lemma updated_refs_of_elem remote refs (requested : gmap string Checksum) x :
  x ∈ map_to_list (updated_refs_of (changed_refs remote refs (map_to_list requested)))
  <-> x ∈ changed_refs remote refs (map_to_list requested).
Proof.
  destruct x as [k v]. rewrite elem_of_map_to_list. unfold updated_refs_of. split.
  - intros [H|H]%foldl_insert_lookup_inv; [exact H|]. rewrite lookup_empty in H.
    discriminate.
  - apply foldl_insert_lookup, changed_refs_NoDup.
Qed.

Lemma only_requests_from_start s s' :
  st_trace s = [] -> only_requests s s' ->
  writes_no_ref (st_trace s') /\ (forall p, EvMainLoop p ∉ st_trace s')
  /\ st_refs s' = st_refs s.
Proof.
  intros Hnil [Hrefs [uris Ht]]. rewrite Ht, Hnil. cbn.
  split; [|split; [|exact Hrefs]].
  - intros remote ref checksum (uri & Heq & _)%list_elem_of_fmap. discriminate.
  - intros p (uri & Heq & _)%list_elem_of_fmap. discriminate.
Qed.

(** C7. In a pull, every write_ref call comes after commit_transaction has
    returned success, which comes after the main loop was left without an
    error; if the main loop or the commit fails, write_ref is not called
    and the refs of the store are what they were before the pull. When the
    transfer succeeds, write_ref has been called for each updated ref. *)
Theorem refs_written_only_after_commit (w : World) (repo : RepoConfig)
  (argv : list string) (s : PullState) :
  st_trace s = [] ->
  let result := ostree_builtin_pull w repo argv s in
  (forall pre remote ref checksum post,
     st_trace result.2 = pre ++ EvWriteRef remote ref checksum :: post ->
     EvCommitTransaction ∈ pre /\ w_commit_transaction w = GOk tt
     /\ exists p, EvMainLoop p ∈ pre /\ caught_error (w_main_loop_run w p) = false)
  /\ (w_commit_transaction w <> GOk tt
      \/ (exists p, EvMainLoop p ∈ st_trace result.2
                    /\ caught_error (w_main_loop_run w p) = true) ->
      writes_no_ref (st_trace result.2) /\ st_refs result.2 = st_refs s)
  /\ (forall remote commits requested s0 s1,
        pull_transfer w remote commits requested s0 = (GOk tt, s1) ->
        forall x,
          x ∈ changed_refs remote (st_refs s0) (map_to_list requested) ->
          EvWriteRef remote x.1 x.2 ∈ st_trace s1).
Proof.
  intros Hnil. cbn zeta.
  assert (Hquiet : forall s',
            only_requests s s' ->
            (forall pre remote ref checksum post,
               st_trace s' = pre ++ EvWriteRef remote ref checksum :: post ->
               EvCommitTransaction ∈ pre /\ w_commit_transaction w = GOk tt
               /\ exists p, EvMainLoop p ∈ pre
                            /\ caught_error (w_main_loop_run w p) = false)
            /\ (w_commit_transaction w <> GOk tt
                \/ (exists p, EvMainLoop p ∈ st_trace s'
                              /\ caught_error (w_main_loop_run w p) = true) ->
                writes_no_ref (st_trace s') /\ st_refs s' = st_refs s)).
  { intros s' Hreq.
    destruct (only_requests_from_start s s' Hnil Hreq) as (Hnow & _ & Hrefs). split.
    - intros pre remote ref checksum post Heq. exfalso.
      apply (Hnow remote ref checksum). rewrite Heq. apply elem_of_app. right. left.
    - auto. }
  split; [|split].
  - unfold ostree_builtin_pull, cbind.
    pose proof (pull_open_remote_requests_only w repo argv s) as H1.
    destruct (pull_open_remote w repo argv s)
      as [[[[[[remote base] branches] remote_mode_str] mode]|e] s1]; cbn in H1;
      [|apply Hquiet, H1].
    destruct (negb _); [apply Hquiet, H1|].
    pose proof (pull_resolve_refs_requests_only w repo remote base branches s1) as H2.
    destruct (pull_resolve_refs w repo remote base branches s1) as [[resolved|e] s2];
      cbn in H2; [|apply Hquiet; eapply only_requests_trans; eassumption].
    destruct (only_requests_from_start s s2 Hnil (only_requests_trans _ _ _ H1 H2))
      as (Hnow & Hnoloop & _).
    apply (pull_transfer_writes_after_commit w remote resolved.1 resolved.2 s2 Hnow Hnoloop).
  - unfold ostree_builtin_pull, cbind.
    pose proof (pull_open_remote_requests_only w repo argv s) as H1.
    destruct (pull_open_remote w repo argv s)
      as [[[[[[remote base] branches] remote_mode_str] mode]|e] s1]; cbn in H1;
      [|apply Hquiet, H1].
    destruct (negb _); [apply Hquiet, H1|].
    pose proof (pull_resolve_refs_requests_only w repo remote base branches s1) as H2.
    destruct (pull_resolve_refs w repo remote base branches s1) as [[resolved|e] s2];
      cbn in H2; [|apply Hquiet; eapply only_requests_trans; eassumption].
    destruct (only_requests_from_start s s2 Hnil (only_requests_trans _ _ _ H1 H2))
      as (Hnow & Hnoloop & Hrefs).
    rewrite <- Hrefs.
    apply (pull_transfer_writes_after_commit w remote resolved.1 resolved.2 s2 Hnow Hnoloop).
  - intros remote commits requested s0 s1 Hrun x Hx.
    rewrite pull_transfer_course in Hrun.
    destruct (w_prepare_transaction w) as [[]|e]; [|discriminate].
    destruct (seeding_failure _ _ _) as [[e handled]|]; [discriminate|].
    destruct (caught_error _); [discriminate|].
    destruct (w_commit_transaction w) as [[]|e]; [|discriminate].
    match type of Hrun with write_updated_refs w remote ?u ?s2 = _ =>
      destruct (write_updated_refs_spec w remote u s2) as (written & _ & Htrace & Hall & _)
    end.
    rewrite Hrun in Htrace, Hall. cbn in Htrace, Hall. rewrite Htrace, (Hall eq_refl).
    apply elem_of_app. right. unfold write_events.
    apply list_elem_of_fmap. exists x. split; [reflexivity|].
    apply updated_refs_of_elem, Hx.
Qed.

(** ** A pull with nothing to transfer *)

Lemma NoWork_frame p p' :
  NoWork p ->
  metadata_objects_to_scan p' = metadata_objects_to_scan p ->
  metadata_objects_to_fetch p' = metadata_objects_to_fetch p ->
  fetcher p' = fetcher p ->
  repo_stages p' = repo_stages p ->
  n_requested_metadata p' = n_requested_metadata p ->
  n_requested_content p' = n_requested_content p ->
  n_fetched_content p' = n_fetched_content p ->
  NoWork p'.
Proof.
  unfold NoWork, fetch_queue. intros (H1 & H2 & H3 & H4 & H5 & H6 & H7) -> -> -> -> -> -> ->.
  auto 10.
Qed.

Lemma check_frame e p :
  let p' := check_outstanding_requests_handle_error e p in
  metadata_objects_to_scan p' = metadata_objects_to_scan p
  /\ metadata_objects_to_fetch p' = metadata_objects_to_fetch p
  /\ fetcher p' = fetcher p
  /\ repo_stages p' = repo_stages p
  /\ n_requested_metadata p' = n_requested_metadata p
  /\ n_requested_content p' = n_requested_content p
  /\ n_fetched_content p' = n_fetched_content p.
Proof.
  unfold check_outstanding_requests_handle_error, throw_async_error, g_main_loop_quit.
  destruct e; destruct (metadata_objects_to_scan p) eqn:E;
    repeat match goal with |- context [if ?b then _ else _] => destruct b end;
    cbn; rewrite ?E; repeat split; reflexivity.
Qed.

Lemma check_NoWork e p : NoWork p -> NoWork (check_outstanding_requests_handle_error e p).
Proof.
  intros H. pose proof (check_frame e p) as (H1 & H2 & H3 & H4 & H5 & H6 & H7).
  eapply NoWork_frame; eassumption.
Qed.

Lemma throw_async_error_NoWork e p : NoWork p -> NoWork (throw_async_error e p).
Proof.
  intros H. unfold throw_async_error, g_main_loop_quit.
  destruct e; [|exact H]. destruct (caught_error p); [exact H|].
  eapply NoWork_frame; [exact H|reflexivity..].
Qed.

Lemma main_loop_step_NoWork ps opt_related ls ls' :
  main_loop_step ps opt_related ls ls' -> NoWorkLoop ls -> NoWorkLoop ls'.
Proof.
  intros Hstep [Hnw Hsc]. cbn in Hnw, Hsc.
  pose proof Hnw as (Hscan & Hfetch & Hf & Hst & Hrm & Hrc & Hfc).
  destruct Hstep as
    [p sc|p p' sc Hrun|p p' sc before req after result Hreq Hrun
    |p p' sc before req after result Hreq Hrun|p sc Hinv|p
    |p p' repo msg rest last last' Hq Hrun|p p' p'' repo msg rest last e Hq Hrun Hout
    |p p' last Hq Hrun]; cbn [ls_data ls_scanner] in *.
  - split; [apply check_NoWork, Hnw|exact Hsc].
  - split; [|exact Hsc].
    revert Hrun. unfold on_metadata_objects_to_fetch_ready. unfold_pull.
    unfold fetch_queue in Hfetch.
    destruct (metadata_objects_to_fetch p) as [[|msg q]|] eqn:Hfq; [| |discriminate].
    + intros [= <-]. apply check_NoWork, Hnw.
    + assert (Hpop : NoWork (set_metadata_objects_to_fetch (Some q) p)).
      { unfold NoWork, fetch_queue. cbn. repeat split; auto.
        intros item Hin. apply (Hfetch item). cbn. right. exact Hin. }
      destruct msg as [serial|serial|item|item|]; cbn.
      * destruct (metadata_scan_idle p); cbn.
        -- intros [= <-]. apply check_NoWork, Hpop.
        -- destruct (metadata_objects_to_scan p) as [sq|] eqn:Hsq; cbn; [|discriminate].
           intros [= <-]. apply check_NoWork.
           unfold NoWork, fetch_queue in *. cbn in *.
           repeat split; auto.
           ++ intros item [Hin|Hin]%elem_of_app.
              ** apply (Hscan item). exact Hin.
              ** apply list_elem_of_singleton in Hin. discriminate.
           ++ intros item Hin. apply (Hfetch item). right. exact Hin.
      * destruct (serial =? idle_serial p); cbn.
        -- destruct (metadata_scan_idle p); cbn; [discriminate|].
           intros [= <-]. apply check_NoWork.
           eapply NoWork_frame; [exact Hpop|reflexivity..].
        -- intros [= <-]. apply check_NoWork, Hpop.
      * exfalso. apply (Hfetch item). cbn. left.
      * discriminate.
      * discriminate.
  - rewrite Hf in Hreq. destruct before; discriminate.
  - rewrite Hst in Hreq. destruct before; discriminate.
  - split; [|exact Hsc]. unfold idle_throw_error.
    destruct (main_context_invocations p) as [|e rest]; [exact Hnw|].
    apply throw_async_error_NoWork. eapply NoWork_frame; [exact Hnw|reflexivity..].
  - split; [exact Hnw|]. intros msg [=].
  - assert (Hpop : NoWork (set_metadata_objects_to_scan (Some rest) p)).
    { unfold NoWork, fetch_queue in *. cbn. rewrite Hq in Hscan. cbn in Hscan.
      repeat split; auto.
      intros item Hin. apply (Hscan item). right. exact Hin. }
    destruct msg as [serial|serial|item|item|]; cbn in Hrun; unfold_pull; cbn in Hrun;
      try discriminate.
    + injection Hrun as <- <-. split; [exact Hpop|].
      intros msg [= <-]. eauto.
    + exfalso. rewrite Hq in Hscan. apply (Hscan item). cbn. left.
    + injection Hrun as <- <-. split; [|exact Hsc].
      eapply NoWork_frame; [exact Hpop|reflexivity..].
  - exfalso.
    destruct msg as [serial|serial|item|item|]; cbn in Hrun; unfold_pull; cbn in Hrun;
      try discriminate.
    rewrite Hq in Hscan. apply (Hscan item). cbn. left.
  - split; [|intros msg [=]].
    revert Hrun. unfold scan_ready_notify. unfold_pull.
    unfold NoWork, fetch_queue in *.
    destruct last as [msg|].
    + destruct (Hsc msg eq_refl) as [serial ->].
      destruct (metadata_objects_to_fetch p) as [fq|] eqn:Hfq; cbn; [|discriminate].
      intros [= <-]. cbn in *. repeat split; auto.
      intros item [[Hin|Hin]%elem_of_app|Hin]%elem_of_app.
      * apply (Hfetch item). exact Hin.
      * apply list_elem_of_singleton in Hin. discriminate.
      * apply list_elem_of_singleton in Hin. discriminate.
    + cbn. destruct (metadata_objects_to_fetch p) as [fq|] eqn:Hfq; cbn; [|discriminate].
      intros [= <-]. cbn in *. repeat split; auto.
      intros item [Hin|Hin]%elem_of_app.
      * apply (Hfetch item). exact Hin.
      * apply list_elem_of_singleton in Hin. discriminate.
Qed.

Lemma steady_bind {A B} (m : Coord A) (k : A -> Coord B) :
  steady m -> (forall a, steady (k a)) -> steady (cbind m k).
Proof.
  intros Hm Hk s. destruct (Hm s) as [Hnw Hobl]. unfold cbind. split.
  - intros Hs. destruct (m s) as [[a|e] s1]; cbn in *; [|auto].
    apply (Hk a s1). auto.
  - intros refs trace. destruct (Hobl refs trace) as [Hr Hd].
    destruct (m s) as [[a|e] s1]; destruct (m (mkPullState _ _ _)) as [[a'|e'] s1'];
      cbn in *; try discriminate.
    + injection Hr as ->. destruct s1' as [d1 r1 t1]. cbn in Hd. subst d1.
      apply (Hk a s1).
    + injection Hr as ->. auto.
Qed.

Lemma steady_ret {A} (a : A) : steady (cret a).
Proof. intros s. cbn. auto. Qed.

Lemma steady_fail {A} e : steady (@cfail A e).
Proof. intros s. cbn. auto. Qed.

Lemma steady_lift {A} (r : gresult A) : steady (clift r).
Proof. intros s. cbn. auto. Qed.

Lemma steady_log ev : steady (log ev).
Proof. intros s. cbn. auto. Qed.

Lemma steady_get : steady get_data.
Proof. intros s. cbn. auto. Qed.

Lemma steady_update f : (forall p, NoWork p -> NoWork (f p)) -> steady (update_data f).
Proof. intros Hf s. cbn. auto. Qed.

Lemma NoWork_zero : NoWork pull_data_zero.
Proof.
  unfold NoWork, fetch_queue. cbn. repeat split; auto; intros item Hin; inversion Hin.
Qed.

Lemma fetch_uri_steady w uri : steady (fetch_uri w uri).
Proof.
  unfold fetch_uri.
  apply steady_bind; [apply steady_update|intros _].
  { intros p Hp. eapply NoWork_frame; [exact Hp|reflexivity..]. }
  apply steady_bind; [apply steady_log|intros _].
  apply steady_bind; [apply steady_update|intros _].
  { intros p Hp. apply check_NoWork. eapply NoWork_frame; [exact Hp|reflexivity..]. }
  apply steady_bind; [apply steady_update|intros _].
  { intros p Hp. apply check_NoWork. eapply NoWork_frame; [exact Hp|reflexivity..]. }
  apply steady_bind; [apply steady_get|intros p].
  destruct (run_mainloop_monitor_fetcher_result p); [apply steady_lift|apply steady_fail].
Qed.

Lemma fetch_uri_contents_utf8_steady w uri : steady (fetch_uri_contents_utf8 w uri).
Proof.
  unfold fetch_uri_contents_utf8.
  apply steady_bind; [apply fetch_uri_steady|intros tmpf].
  apply steady_bind; [apply steady_lift|intros contents].
  destruct (w_utf8_validate w contents); [apply steady_ret|apply steady_fail].
Qed.

Lemma fetch_ref_contents_steady w ref : steady (fetch_ref_contents w ref).
Proof.
  unfold fetch_ref_contents.
  apply steady_bind; [apply steady_get|intros p].
  apply steady_bind; [apply fetch_uri_contents_utf8_steady|intros c].
  apply steady_bind; [apply steady_lift|intros _]. apply steady_ret.
Qed.

Lemma resolve_arguments_steady w branches :
  forall commits refs, steady (resolve_arguments w branches commits refs).
Proof.
  induction branches as [|branch rest IH]; intros commits refs; cbn [resolve_arguments].
  - apply steady_ret.
  - destruct (ostree_validate_checksum_string branch); [apply IH|].
    apply steady_bind; [apply fetch_ref_contents_steady|intros c]. apply IH.
Qed.

Lemma resolve_configured_branches_steady w branches :
  forall refs, steady (resolve_configured_branches w branches refs).
Proof.
  induction branches as [|branch rest IH]; intros refs; cbn [resolve_configured_branches].
  - apply steady_ret.
  - apply steady_bind; [apply fetch_ref_contents_steady|intros c]. apply IH.
Qed.

Lemma pull_resolve_refs_steady w repo remote base branches :
  steady (pull_resolve_refs w repo remote base branches).
Proof.
  unfold pull_resolve_refs. destruct branches as [|b rest].
  - destruct (g_key_file_get_value _ _ _) as [value|temp_error].
    + apply steady_bind; [apply resolve_configured_branches_steady|intros refs].
      apply steady_ret.
    + destruct (g_error_matches _ _); [|apply steady_fail].
      apply steady_bind; [apply fetch_uri_contents_utf8_steady|intros d].
      apply steady_bind; [apply steady_lift|intros refs]. apply steady_ret.
  - apply resolve_arguments_steady.
Qed.

Lemma pull_open_remote_steady w repo argv : steady (pull_open_remote w repo argv).
Proof.
  unfold pull_open_remote, load_remote_repo_config.
  apply steady_bind; [apply steady_update; intros; apply NoWork_zero|intros _].
  apply steady_bind; [apply steady_lift|intros _].
  apply steady_bind; [apply steady_lift|intros _].
  destruct argv as [|prog [|remote branches]]; try apply steady_fail.
  apply steady_bind; [apply steady_update|intros _].
  { intros p Hp. eapply NoWork_frame; [exact Hp|reflexivity..]. }
  apply steady_bind; [apply steady_lift|intros baseurl].
  destruct (w_soup_uri_new w baseurl); [|apply steady_fail].
  apply steady_bind; [apply steady_update|intros _].
  { intros p Hp. eapply NoWork_frame; [exact Hp|reflexivity..]. }
  apply steady_bind.
  - apply steady_bind; [apply steady_get|intros p].
    apply steady_bind; [apply fetch_uri_contents_utf8_steady|intros c].
    apply steady_lift.
  - intros remote_config.
    apply steady_bind; [apply steady_lift|intros mode_str].
    apply steady_bind; [apply steady_lift|intros mode].
    apply steady_bind; [apply steady_update|intros _].
    { intros p Hp. eapply NoWork_frame; [exact Hp|reflexivity..]. }
    apply steady_ret.
Qed.

Lemma main_loop_steps_NoWork ps opt_related ls ls' :
  rtc (main_loop_step ps opt_related) ls ls' -> NoWorkLoop ls -> NoWorkLoop ls'.
Proof.
  induction 1 as [|ls1 ls2 ls3 Hstep _ IH]; [auto|].
  intros H. apply IH. eapply main_loop_step_NoWork; eassumption.
Qed.

(** ** The scanner's handler as a path of the transition system *)

Lemma scan_ready_message_scan_queue repo opt_related msg last p :
  wp (scan_ready_message repo opt_related msg last) p
    (fun _ p' => metadata_objects_to_scan p' = metadata_objects_to_scan p)
    (fun _ p' => metadata_objects_to_scan p' = metadata_objects_to_scan p).
Proof.
  destruct msg as [serial|serial|item|[csum t]|]; cbn [scan_ready_message];
    try apply wp_abort.
  - apply wp_ret. reflexivity.
  - apply wp_bind. unfold scan_one_metadata_object_v_name.
    eapply wp_mono;
      [apply (scan_one_metadata_object_scan_queue repo opt_related scan_fuel
                (metadata_objects_to_scan p)); auto | | auto].
    cbn beta. intros _ p1 Hp1. apply wp_ret, Hp1.
  - apply wp_bind, wp_modify, wp_ret. reflexivity.
Qed.

Lemma scan_ready_loop_steps ps repo opt_related queued :
  forall last p,
    metadata_objects_to_scan p = Some queued ->
    match scan_ready_loop repo opt_related queued last p with
    | Ret last' p' =>
        rtc (main_loop_step ps opt_related) (mkLoop p (Some last)) (mkLoop p' (Some last'))
        /\ metadata_objects_to_scan p' = Some []
    | Throw e p' =>
        forall p'',
          scan_ready_out (Some e) p' = Ret tt p'' ->
          rtc (main_loop_step ps opt_related) (mkLoop p (Some last)) (mkLoop p'' None)
    | _ => True
    end.
Proof.
  induction queued as [|msg rest IH]; intros last p Hq; cbn [scan_ready_loop].
  - cbn. split; [apply rtc_refl|exact Hq].
  - unfold bind at 1. unfold modify at 1. unfold bind at 1.
    pose proof (scan_ready_message_scan_queue repo opt_related msg last
                  (set_metadata_objects_to_scan (Some rest) p)) as Hframe.
    unfold wp in Hframe.
    destruct (scan_ready_message repo opt_related msg last
                (set_metadata_objects_to_scan (Some rest) p))
      as [last1 p1|e p1| |] eqn:Hmsg; [| |exact I|exact I].
    + cbn in Hframe. specialize (IH last1 p1 Hframe).
      assert (Hstep : main_loop_step ps opt_related
                        (mkLoop p (Some last)) (mkLoop p1 (Some last1))).
      { eapply step_scan_message; eassumption. }
      destruct (scan_ready_loop repo opt_related rest last1 p1) as [last2 p2|e p2| |];
        [| |exact I|exact I].
      * destruct IH as [Hsteps Hempty]. split; [|exact Hempty].
        eapply rtc_l; eassumption.
      * intros p'' Hout. eapply rtc_l; [exact Hstep|]. apply IH, Hout.
    + intros p'' Hout. apply rtc_once.
      eapply step_scan_failed; eassumption.
Qed.

(** A run of on_metadata_objects_to_scan_ready is a path of the transition
    system: the handler is entered, takes the queued messages one by one,
    and notifies the main thread or hands it the error of a failed scan. *)
Lemma scan_ready_is_a_path ps repo opt_related p p' :
  on_metadata_objects_to_scan_ready repo opt_related p = Ret tt p' ->
  rtc (main_loop_step ps opt_related) (mkLoop p None) (mkLoop p' None).
Proof.
  unfold on_metadata_objects_to_scan_ready. unfold bind at 1. unfold gets at 1.
  destruct (metadata_objects_to_scan p) as [queued|] eqn:Hq; [|discriminate].
  pose proof (scan_ready_loop_steps ps repo opt_related queued None p Hq) as Hloop.
  unfold bind at 1. unfold catch. unfold bind at 1.
  destruct (scan_ready_loop repo opt_related queued None p) as [last p1|e p1| |];
    [| |discriminate|discriminate].
  - destruct Hloop as [Hsteps Hempty].
    destruct (scan_ready_notify last p1) as [[] p2|e p2| |] eqn:Hnotify;
      try discriminate.
    + cbn. intros [= <-].
      eapply rtc_l; [apply step_scan_enter|].
      eapply rtc_trans; [exact Hsteps|].
      apply rtc_once. eapply step_scan_notify; eassumption.
    + exfalso. revert Hnotify. unfold scan_ready_notify. unfold_pull.
      destruct last; destruct (metadata_objects_to_fetch p1); cbn; discriminate.
  - intros Hout. eapply rtc_l; [apply step_scan_enter|]. apply Hloop, Hout.
Qed.

(** ** What the scanner thread leaves alone *)

Lemma scan_one_metadata_object_main_fields repo opt_related fuel v :
  keeps (fun _ => True) (fun p => main_thread_fields p = v)
    (scan_one_metadata_object repo opt_related fuel).
Proof. apply scan_one_metadata_object_keeps; auto. Qed.

Lemma scan_ready_message_main_fields repo opt_related msg last p :
  wp (scan_ready_message repo opt_related msg last) p
    (fun _ p' => main_thread_fields p' = main_thread_fields p)
    (fun _ p' => main_thread_fields p' = main_thread_fields p).
Proof.
  destruct msg as [serial|serial|item|[csum t]|]; cbn [scan_ready_message];
    try apply wp_abort.
  - apply wp_ret. reflexivity.
  - apply wp_bind. unfold scan_one_metadata_object_v_name.
    eapply wp_mono;
      [apply (scan_one_metadata_object_main_fields repo opt_related scan_fuel
                (main_thread_fields p)); auto | | auto].
    cbn beta. intros _ p1 Hp1. apply wp_ret, Hp1.
  - apply wp_bind, wp_modify, wp_ret. reflexivity.
Qed.

Lemma scan_ready_notify_main_fields last p :
  wp (scan_ready_notify last) p
    (fun _ p' => main_thread_fields p' = main_thread_fields p)
    (fun _ p' => main_thread_fields p' = main_thread_fields p).
Proof.
  unfold scan_ready_notify. apply wp_bind. destruct last as [msg|].
  - apply wp_push_fetch_queue. intros q Hq. apply wp_push_fetch_queue. intros q' Hq'.
    reflexivity.
  - apply wp_ret, wp_push_fetch_queue. intros q Hq. reflexivity.
Qed.

Lemma scan_ready_loop_main_fields repo opt_related queued :
  forall last p,
    wp (scan_ready_loop repo opt_related queued last) p
      (fun _ p' => main_thread_fields p' = main_thread_fields p)
      (fun _ p' => main_thread_fields p' = main_thread_fields p).
Proof.
  induction queued as [|msg rest IH]; intros last p; cbn [scan_ready_loop].
  - apply wp_ret. reflexivity.
  - apply wp_bind, wp_modify, wp_bind.
    eapply wp_mono; [apply scan_ready_message_main_fields| |auto].
    cbn beta. intros last1 p1 Hp1.
    change (main_thread_fields p1 = main_thread_fields p) in Hp1.
    eapply wp_mono; [apply IH| |]; cbn beta; intros; congruence.
Qed.

(** ** The scanner thread during the seeding *)

(** A turn of the scanner thread is a step of the transition system, or no
    step. *)
Lemma scanner_thread_turn_step ps opt_related repo ls :
  scanner_thread_turn opt_related repo ls = ls
  \/ main_loop_step ps opt_related ls (scanner_thread_turn opt_related repo ls).
Proof.
  destruct ls as [p [last|]]; unfold scanner_thread_turn; cbn [ls_data ls_scanner].
  2:{ right. apply step_scan_enter. }
  destruct (metadata_objects_to_scan p) as [[|msg rest]|] eqn:Hq; [| |left; reflexivity].
  - destruct (scan_ready_notify last p) as [[] p'| | |] eqn:Hn; try (left; reflexivity).
    right. eapply step_scan_notify; eassumption.
  - destruct (scan_ready_message repo opt_related msg last
                (set_metadata_objects_to_scan (Some rest) p))
      as [last' p'|e p'| |] eqn:Hm; try (left; reflexivity).
    + right. eapply step_scan_message; eassumption.
    + destruct (scan_ready_out (Some e) p') as [[] p''| | |] eqn:Ho;
        try (left; reflexivity).
      right. eapply step_scan_failed; eassumption.
Qed.

Lemma scanner_thread_runs_steps ps w ls :
  rtc (main_loop_step ps (w_opt_related w)) ls (scanner_thread_runs w ls).
Proof.
  unfold scanner_thread_runs. generalize (w_scanner_thread w ls). intros repos.
  revert ls. induction repos as [|repo repos IH]; intros ls; cbn [foldl].
  - apply rtc_refl.
  - destruct (scanner_thread_turn_step ps (w_opt_related w) repo ls) as [Hsame|Hstep].
    + rewrite Hsame. apply IH.
    + eapply rtc_l; [exact Hstep|apply IH].
Qed.

(** A turn of the scanner thread leaves the fields of the main thread
    alone, and takes at most the head of its queue. *)
Lemma scanner_thread_turn_fields opt_related repo ls :
  main_thread_fields (ls_data (scanner_thread_turn opt_related repo ls))
  = main_thread_fields (ls_data ls).
Proof.
  destruct ls as [p [last|]]; unfold scanner_thread_turn; cbn [ls_data ls_scanner];
    [|reflexivity].
  destruct (metadata_objects_to_scan p) as [[|msg rest]|] eqn:Hq; [| |reflexivity].
  - pose proof (scan_ready_notify_main_fields last p) as H. unfold wp in H.
    destruct (scan_ready_notify last p) as [[] p'| | |]; cbn [ls_data]; auto.
  - pose proof (scan_ready_message_main_fields repo opt_related msg last
                  (set_metadata_objects_to_scan (Some rest) p)) as H.
    unfold wp in H.
    destruct (scan_ready_message repo opt_related msg last
                (set_metadata_objects_to_scan (Some rest) p))
      as [last' p'|e p'| |]; cbn [ls_data]; auto.
Qed.

Lemma scanner_thread_turn_queue opt_related repo ls pushed :
  scan_queue_left pushed (ls_data ls) ->
  scan_queue_left pushed (ls_data (scanner_thread_turn opt_related repo ls)).
Proof.
  intros (taken & q & Hq & Hpushed).
  destruct ls as [p [last|]]; unfold scanner_thread_turn; cbn [ls_data ls_scanner] in *;
    [|exists taken, q; auto].
  rewrite Hq. destruct q as [|msg rest].
  - pose proof (scan_ready_notify_main_fields last p) as _.
    destruct (scan_ready_notify last p) as [[] p'| | |] eqn:Hn; cbn [ls_data];
      try solve [exists taken, []; auto].
    exists taken, []. split; [|exact Hpushed].
    revert Hn. unfold scan_ready_notify. unfold_pull.
    destruct last; destruct (metadata_objects_to_fetch p); cbn; try discriminate;
      intros [= <-]; exact Hq.
  - pose proof (scan_ready_message_scan_queue repo opt_related msg last
                  (set_metadata_objects_to_scan (Some rest) p)) as H.
    unfold wp in H.
    assert (Hrest : pushed = (taken ++ [msg]) ++ rest)
      by (rewrite <- app_assoc; exact Hpushed).
    destruct (scan_ready_message repo opt_related msg last
                (set_metadata_objects_to_scan (Some rest) p))
      as [last' p'|e p'| |]; cbn [ls_data];
      try solve [exists taken, (msg :: rest); auto].
    + exists (taken ++ [msg]), rest. auto.
    + destruct (scan_ready_out (Some e) p') as [[] p''| | |] eqn:Ho; cbn [ls_data];
        try solve [exists taken, (msg :: rest); auto].
      revert Ho. unfold scan_ready_out, modify. intros [= <-].
      exists (taken ++ [msg]), rest. auto.
Qed.

Lemma scanner_thread_runs_fields w ls :
  main_thread_fields (ls_data (scanner_thread_runs w ls)) = main_thread_fields (ls_data ls).
Proof.
  unfold scanner_thread_runs. generalize (w_scanner_thread w ls). intros repos.
  revert ls. induction repos as [|repo repos IH]; intros ls; cbn [foldl]; [reflexivity|].
  rewrite IH. apply scanner_thread_turn_fields.
Qed.

Lemma scanner_thread_runs_queue w ls pushed :
  scan_queue_left pushed (ls_data ls) ->
  scan_queue_left pushed (ls_data (scanner_thread_runs w ls)).
Proof.
  unfold scanner_thread_runs. generalize (w_scanner_thread w ls). intros repos.
  revert ls. induction repos as [|repo repos IH]; intros ls H; cbn [foldl]; [exact H|].
  apply IH, scanner_thread_turn_queue, H.
Qed.

Lemma scanner_thread_runs_NoWork w ls : NoWorkLoop ls -> NoWorkLoop (scanner_thread_runs w ls).
Proof.
  apply (main_loop_steps_NoWork (mkParsers (fun _ _ => GOk tt) (fun _ => GOk tt)
                                   (fun _ => GOk tt)) (w_opt_related w)).
  apply scanner_thread_runs_steps.
Qed.

(** With no turn for the scanner thread, a write of the main thread is all
    that happens. *)
Lemma scanner_thread_runs_idle w ls :
  (forall ls, w_scanner_thread w ls = []) -> scanner_thread_runs w ls = ls.
Proof. intros Hidle. unfold scanner_thread_runs. rewrite Hidle. reflexivity. Qed.

(** A push on the scanner's queue, with the turns of the scanner thread
    after it. *)
Lemma main_thread_pushes w msg ls pushed :
  scan_queue_left pushed (ls_data ls) ->
  let ls' :=
    main_thread_writes w
      (fun p => set_metadata_objects_to_scan
                  ((fun q => q ++ [msg]) <$> metadata_objects_to_scan p) p) ls in
  scan_queue_left (pushed ++ [msg]) (ls_data ls')
  /\ main_thread_fields (ls_data ls') = main_thread_fields (ls_data ls).
Proof.
  intros (taken & q & Hq & ->). cbn zeta. unfold main_thread_writes. split.
  - apply scanner_thread_runs_queue. cbn [ls_data]. exists taken, (q ++ [msg]).
    cbn. rewrite Hq. cbn. split; [reflexivity|]. rewrite app_assoc. reflexivity.
  - rewrite scanner_thread_runs_fields. reflexivity.
Qed.

Lemma seeding_pushes {X} w (f : X -> Checksum) (l : list X) :
  forall ls pushed,
    scan_queue_left pushed (ls_data ls) ->
    let ls' := foldl (fun ls x => main_thread_writes w (push_scan (f x)) ls) ls l in
    scan_queue_left
      (pushed ++ ((fun x => PULL_MSG_SCAN (f x, OSTREE_OBJECT_TYPE_COMMIT)) <$> l))
      (ls_data ls')
    /\ main_thread_fields (ls_data ls') = main_thread_fields (ls_data ls).
Proof.
  induction l as [|x l IH]; intros ls pushed Hleft; cbn [foldl fmap list_fmap].
  - cbn zeta. rewrite app_nil_r. auto.
  - destruct (main_thread_pushes w
                (PULL_MSG_SCAN (ostree_object_name_serialize (f x) OSTREE_OBJECT_TYPE_COMMIT))
                ls pushed Hleft) as [Hq Hf].
    cbn zeta in Hq, Hf.
    change (main_thread_writes w _ ls)
      with (main_thread_writes w (push_scan (f x)) ls) in Hq, Hf.
    destruct (IH _ _ Hq) as [Hq' Hf']. cbn zeta in Hq', Hf'.
    cbn zeta. split.
    + rewrite <- app_assoc in Hq'. exact Hq'.
    + rewrite Hf'. exact Hf.
Qed.

(** What pull_transfer pushes on the scanner's queue before it runs the
    main loop: a SCAN for every commit to fetch, a SCAN for every changed
    ref, and the MAIN_IDLE message with the incremented serial.  When the
    main loop is run the queue holds what the scanner thread has left of
    them; the fields of the main thread are as the coordinator wrote
    them. *)
Lemma main_loop_input_queue w p commits changed :
  let p_in := main_loop_input w p commits changed in
  scan_queue_left
    (((fun c => PULL_MSG_SCAN (c, OSTREE_OBJECT_TYPE_COMMIT)) <$> elements commits)
     ++ scan_seeds changed ++ [PULL_MSG_MAIN_IDLE (guint_inc (idle_serial p))])
    p_in
  /\ main_thread_fields p_in
     = main_thread_fields (set_idle_serial (guint_inc (idle_serial p)) p).
Proof.
  cbn zeta. unfold main_loop_input, main_loop_start, seeded_loop.
  set (created := set_metadata_objects_to_scan (Some [])
                    (set_metadata_objects_to_fetch (Some []) p)).
  set (started := scanner_thread_runs w (mkLoop created None)).
  assert (Hstarted : scan_queue_left [] (ls_data started)
                     /\ main_thread_fields (ls_data started) = main_thread_fields p).
  { split.
    - apply scanner_thread_runs_queue. exists [], []. auto.
    - unfold started. rewrite scanner_thread_runs_fields. reflexivity. }
  destruct Hstarted as [Hq0 Hf0].
  destruct (seeding_pushes w id (elements commits) started [] Hq0) as [Hq1 Hf1].
  cbn zeta in Hq1, Hf1. unfold id in Hq1, Hf1.
  set (ls1 := foldl (fun ls commit => main_thread_writes w (push_scan commit) ls)
                started (elements commits)) in *.
  destruct (seeding_pushes w snd changed ls1 _ Hq1) as [Hq2 Hf2].
  cbn zeta in Hq2, Hf2.
  set (ls2 := foldl (fun ls x => main_thread_writes w (push_scan x.2) ls) ls1 changed) in *.
  set (primed := main_thread_writes w
                   (fun p => set_idle_serial (guint_inc (idle_serial p)) p) ls2).
  assert (Hprimed : scan_queue_left
                      (([] ++ ((fun c => PULL_MSG_SCAN (c, OSTREE_OBJECT_TYPE_COMMIT))
                                 <$> elements commits))
                       ++ ((fun x => PULL_MSG_SCAN (x.2, OSTREE_OBJECT_TYPE_COMMIT))
                             <$> changed)) (ls_data primed)
                    /\ main_thread_fields (ls_data primed)
                       = main_thread_fields (set_idle_serial (guint_inc (idle_serial p)) p)).
  { unfold primed, main_thread_writes. split.
    - apply scanner_thread_runs_queue. cbn [ls_data].
      destruct Hq2 as (taken & q & Hq & Heq). exists taken, q. auto.
    - rewrite scanner_thread_runs_fields. cbn [ls_data].
      assert (Hf : main_thread_fields (ls_data ls2) = main_thread_fields p)
        by (rewrite Hf2, Hf1; exact Hf0).
      unfold main_thread_fields in *. cbn.
      injection Hf as -> -> -> -> -> -> -> -> -> -> -> -> -> -> -> -> -> -> ->.
      reflexivity. }
  destruct Hprimed as [Hq3 Hf3].
  assert (Hserial : idle_serial (ls_data primed) = guint_inc (idle_serial p)).
  { unfold main_thread_fields in Hf3. injection Hf3. cbn. intros. assumption. }
  match goal with
  | |- context [main_thread_writes w ?f primed] =>
      change f with (fun p0 => set_metadata_objects_to_scan
                        ((fun q => q ++ [PULL_MSG_MAIN_IDLE (idle_serial p0)])
                           <$> metadata_objects_to_scan p0) p0)
  end.
  split; unfold main_thread_writes at 1.
  - apply scanner_thread_runs_queue. cbn [ls_data].
    destruct Hq3 as (taken & q & Hq & Heq). exists taken, (q ++ [PULL_MSG_MAIN_IDLE
                                                                  (guint_inc (idle_serial p))]).
    cbn. rewrite Hq, Hserial. cbn. split; [reflexivity|].
    unfold scan_seeds. cbn [app] in Heq. rewrite !app_assoc, <- Heq. reflexivity.
  - rewrite scanner_thread_runs_fields. cbn [ls_data]. rewrite <- Hf3. reflexivity.
Qed.

(** With no turn for the scanner thread before the main loop, the struct
    handed to the main loop is the struct as the coordinator seeded it. *)
Lemma main_loop_input_idle w p commits changed :
  (forall ls, w_scanner_thread w ls = []) ->
  metadata_objects_to_scan (main_loop_input w p commits changed)
  = Some (((fun c => PULL_MSG_SCAN (c, OSTREE_OBJECT_TYPE_COMMIT)) <$> elements commits)
          ++ scan_seeds changed ++ [PULL_MSG_MAIN_IDLE (guint_inc (idle_serial p))]).
Proof.
  intros Hidle.
  assert (Hfold : forall {X} (f : X -> Checksum) (l : list X) q p0,
            metadata_objects_to_scan p0 = Some q ->
            let ls := foldl (fun ls x => main_thread_writes w (push_scan (f x)) ls)
                        (mkLoop p0 None) l in
            metadata_objects_to_scan (ls_data ls)
            = Some (q ++ ((fun x => PULL_MSG_SCAN (f x, OSTREE_OBJECT_TYPE_COMMIT)) <$> l))
            /\ idle_serial (ls_data ls) = idle_serial p0
            /\ ls_scanner ls = None).
  { intros X f l. induction l as [|x l IH]; intros q p0 Hq; cbn [foldl fmap list_fmap].
    - cbn. rewrite app_nil_r. auto.
    - assert (Hwrite : main_thread_writes w (push_scan (f x)) (mkLoop p0 None)
                       = mkLoop (push_scan (f x) p0) None)
        by (unfold main_thread_writes; apply scanner_thread_runs_idle, Hidle).
      rewrite !Hwrite.
      destruct (IH (q ++ [PULL_MSG_SCAN (f x, OSTREE_OBJECT_TYPE_COMMIT)])
                  (push_scan (f x) p0)) as (H1 & H2 & H3).
      { unfold push_scan. cbn. rewrite Hq. reflexivity. }
      cbn zeta in *. rewrite H1, H2, H3, <- app_assoc. auto. }
  unfold main_loop_input, main_loop_start, seeded_loop.
  rewrite (scanner_thread_runs_idle w _ Hidle).
  destruct (Hfold _ id (elements commits) []
              (set_metadata_objects_to_scan (Some [])
                 (set_metadata_objects_to_fetch (Some []) p)) eq_refl)
    as (G1 & G2 & G3).
  cbn zeta in G1, G2, G3. unfold id in G1, G2, G3.
  set (ls1 := foldl (fun ls commit => main_thread_writes w (push_scan commit) ls)
                (mkLoop (set_metadata_objects_to_scan (Some [])
                           (set_metadata_objects_to_fetch (Some []) p)) None)
                (elements commits)) in *.
  assert (Heta : ls1 = mkLoop (ls_data ls1) None)
    by (rewrite <- G3; symmetry; apply mkLoop_eta).
  rewrite Heta.
  destruct (Hfold _ snd changed _ (ls_data ls1) G1) as (H1 & H2 & H3).
  cbn zeta in H1, H2, H3.
  set (ls2 := foldl (fun ls x => main_thread_writes w (push_scan x.2) ls)
                (mkLoop (ls_data ls1) None) changed) in *.
  unfold main_thread_writes. rewrite !(scanner_thread_runs_idle w _ Hidle).
  cbn. rewrite H1, H2, G2. cbn. unfold scan_seeds. rewrite <- !app_assoc. reflexivity.
Qed.

Lemma main_loop_start_NoWork w p : NoWork p -> NoWorkLoop (main_loop_start w p ∅ []).
Proof.
  intros (_ & _ & H3 & H4 & H5 & H6 & H7).
  unfold main_loop_start, seeded_loop. rewrite elements_empty. cbn [foldl].
  unfold main_thread_writes.
  apply scanner_thread_runs_NoWork.
  match goal with |- NoWorkLoop (mkLoop _ (ls_scanner ?ls)) =>
    assert (Hls : NoWorkLoop ls); [|set (primed := ls) in *]
  end.
  { apply scanner_thread_runs_NoWork.
    match goal with |- NoWorkLoop (mkLoop _ (ls_scanner ?ls)) =>
      assert (Hls : NoWorkLoop ls); [|set (started := ls) in *]
    end.
    { apply scanner_thread_runs_NoWork. split; cbn; [|intros msg [=]].
      unfold NoWork, fetch_queue. cbn. repeat split; auto; intros item Hin; inversion Hin. }
    destruct Hls as [Hnw Hsc]. split; cbn [ls_data ls_scanner]; [|exact Hsc].
    eapply NoWork_frame; [exact Hnw|reflexivity..]. }
  destruct Hls as [Hnw Hsc]. split; cbn [ls_data ls_scanner]; [|exact Hsc].
  destruct Hnw as (G1 & G2 & G3 & G4 & G5 & G6 & G7).
  unfold NoWork, fetch_queue in *. cbn. repeat split; auto.
  intros item Hin. destruct (metadata_objects_to_scan (ls_data primed)) as [q|]; cbn in *.
  - apply elem_of_app in Hin as [Hin|Hin]; [apply (G1 item), Hin|].
    apply list_elem_of_singleton in Hin. discriminate.
  - inversion Hin.
Qed.

Lemma resolve_arguments_commits w branches :
  forall commits refs s resolved s',
    Forall (fun b => ostree_validate_checksum_string b <> GOk tt) branches ->
    resolve_arguments w branches commits refs s = (GOk resolved, s') ->
    resolved.1 = commits.
Proof.
  induction branches as [|branch rest IH]; intros commits refs s resolved s' Hall;
    cbn [resolve_arguments].
  - unfold cret. intros [= <- _]. reflexivity.
  - apply Forall_cons in Hall as [Hb Hall].
    destruct (ostree_validate_checksum_string branch) as [[]|e]; [congruence|].
    unfold cbind. destruct (fetch_ref_contents w branch s) as [[c|e'] s1]; [|discriminate].
    apply IH, Hall.
Qed.

Lemma pull_resolve_refs_commits w repo remote base branches s resolved s' :
  Forall (fun b => ostree_validate_checksum_string b <> GOk tt) branches ->
  pull_resolve_refs w repo remote base branches s = (GOk resolved, s') ->
  resolved.1 = ∅.
Proof.
  intros Hall. unfold pull_resolve_refs. destruct branches as [|b rest].
  - destruct (g_key_file_get_value _ _ _) as [value|temp_error].
    + unfold cbind. destruct (resolve_configured_branches _ _ _ _) as [[refs|e] s1];
        [|discriminate].
      unfold cret. intros [= <- _]. reflexivity.
    + destruct (g_error_matches _ _); [|discriminate].
      unfold cbind. destruct (fetch_uri_contents_utf8 _ _ _) as [[d|e] s1]; [|discriminate].
      unfold clift. destruct (parse_ref_summary w d); [|discriminate].
      unfold cret. intros [= <- _]. reflexivity.
  - apply resolve_arguments_commits, Hall.
Qed.

Lemma append_inj_r (prefix a b : string) : prefix +:+ a = prefix +:+ b -> a = b.
Proof. induction prefix as [|c prefix IH]; cbn; [auto|]. intros [= H]. auto. Qed.

Lemma remote_ref_name_inj remote a b :
  remote_ref_name remote a = remote_ref_name remote b -> a = b.
Proof. unfold remote_ref_name. intros H. apply append_inj_r in H. apply (append_inj_r "/"), H. Qed.

(** After a transfer that succeeded, every requested ref resolves to the
    digest that was fetched for it. *)
Lemma pull_transfer_refs w remote commits (requested : gmap string Checksum) s s1 :
  pull_transfer w remote commits requested s = (GOk tt, s1) ->
  forall ref sha,
    requested !! ref = Some sha ->
    st_refs s1 !! remote_ref_name remote ref = Some sha.
Proof.
  intros Hrun ref sha Hreq. rewrite pull_transfer_course in Hrun.
  destruct (w_prepare_transaction w) as [[]|e]; [|discriminate].
  destruct (seeding_failure _ _ _) as [[e handled]|]; [discriminate|].
  destruct (caught_error _); [discriminate|].
  destruct (w_commit_transaction w) as [[]|e]; [|discriminate].
  apply write_updated_refs_refs in Hrun. cbn [st_refs] in Hrun. rewrite Hrun.
  set (changed := changed_refs remote (st_refs s) (map_to_list requested)).
  set (updated := map_to_list (updated_refs_of changed)).
  assert (Hfold : forall (l : list (string * Checksum)) (m : gmap string Checksum),
            foldl (fun m x => <[remote_ref_name remote x.1 := x.2]> m) m l
            = foldl (fun m y => <[y.1 := y.2]> m) m
                ((fun x => (remote_ref_name remote x.1, x.2)) <$> l)).
  { induction l as [|x l IH]; intros m; cbn; [reflexivity|apply IH]. }
  rewrite Hfold.
  destruct (decide ((ref, sha) ∈ changed)) as [Hch|Hun].
  - apply foldl_insert_lookup.
    + rewrite <- list_fmap_compose.
      apply (NoDup_fmap_2_strong (fun x => remote_ref_name remote x.1)).
      * intros [k1 v1] [k2 v2] H1 H2 Hk. cbn in Hk. apply remote_ref_name_inj in Hk.
        subst k2. f_equal.
        apply elem_of_map_to_list in H1, H2. congruence.
      * apply NoDup_map_to_list.
    + apply list_elem_of_fmap. exists (ref, sha). split; [reflexivity|].
      apply updated_refs_of_elem, Hch.
  - rewrite foldl_insert_lookup_other.
    + destruct (decide (st_refs s !! remote_ref_name remote ref = Some sha)) as [|Hne];
        [assumption|].
      exfalso. apply Hun. unfold changed, changed_refs.
      apply list_elem_of_In, filter_In. split.
      * apply list_elem_of_In, elem_of_map_to_list, Hreq.
      * cbn. apply negb_true_iff, bool_decide_eq_false. exact Hne.
    + rewrite <- list_fmap_compose.
      intros ([k v] & Hk & Hin)%list_elem_of_fmap. cbn in Hk.
      apply remote_ref_name_inj in Hk. subst k.
      apply updated_refs_of_elem in Hin. pose proof Hin as Hin'.
      apply changed_refs_sublist in Hin' as [Hin' _].
      apply elem_of_map_to_list in Hin'. rewrite Hreq in Hin'. injection Hin' as ->.
      apply Hun, Hin.
Qed.

Lemma changed_refs_none remote refs (requested : gmap string Checksum) :
  (forall ref sha, requested !! ref = Some sha ->
                   refs !! remote_ref_name remote ref = Some sha) ->
  changed_refs remote refs (map_to_list requested) = [].
Proof.
  intros Hall. unfold changed_refs.
  assert (Hl : forall x, x ∈ map_to_list requested ->
                 refs !! remote_ref_name remote x.1 = Some x.2).
  { intros [k v] Hin. apply elem_of_map_to_list in Hin. apply Hall, Hin. }
  induction (map_to_list requested) as [|x l IH]; cbn; [reflexivity|].
  rewrite bool_decide_eq_true_2 by (apply Hl; left). cbn.
  apply IH. intros y Hy. apply Hl. right. exact Hy.
Qed.

(** The calls that pull_transfer adds to the trace: the main loop is run on
    the seeded struct, and refs are written for changed refs only. *)
Lemma pull_transfer_events w remote commits (requested : gmap string Checksum) s :
  let changed := changed_refs remote (st_refs s) (map_to_list requested) in
  let result := pull_transfer w remote commits requested s in
  exists events,
    st_trace result.2 = st_trace s ++ events
    /\ (forall p, EvMainLoop p ∈ events -> p = main_loop_input w (st_data s) commits changed)
    /\ (forall remote' ref sha,
          EvWriteRef remote' ref sha ∈ events -> remote' = remote /\ (ref, sha) ∈ changed)
    /\ (changed = [] -> st_refs result.2 = st_refs s).
Proof.
  cbn zeta. rewrite pull_transfer_course.
  set (changed := changed_refs remote (st_refs s) (map_to_list requested)).
  set (p_in := main_loop_input w (st_data s) commits changed).
  assert (Hsmall : forall events : list Event,
            events `prefix_of` [EvPrepareTransaction; EvMainLoop p_in; EvCommitTransaction] ->
            (forall p, EvMainLoop p ∈ events -> p = p_in)
            /\ (forall remote' ref sha,
                  EvWriteRef remote' ref sha ∈ events ->
                  remote' = remote /\ (ref, sha) ∈ changed)).
  { intros events [rest Hpre]. split.
    - intros p Hin.
      assert (Hin' : EvMainLoop p ∈ [EvPrepareTransaction; EvMainLoop p_in;
                                      EvCommitTransaction]).
      { rewrite Hpre. apply elem_of_app. left. exact Hin. }
      repeat (apply elem_of_cons in Hin' as [Hin'|Hin']; [congruence|]). inversion Hin'.
    - intros remote' ref sha Hin. exfalso.
      assert (Hin' : EvWriteRef remote' ref sha ∈ [EvPrepareTransaction; EvMainLoop p_in;
                                                   EvCommitTransaction]).
      { rewrite Hpre. apply elem_of_app. left. exact Hin. }
      repeat (apply elem_of_cons in Hin' as [Hin'|Hin']; [congruence|]). inversion Hin'. }
  destruct (w_prepare_transaction w) as [[]|e]; cbn [snd st_trace st_refs].
  2:{ exists [EvPrepareTransaction]. split; [reflexivity|].
      destruct (Hsmall [EvPrepareTransaction]) as [Ha Hb]; [eexists; reflexivity|]. auto. }
  destruct (seeding_failure _ _ _) as [[e handled]|]; cbn [snd st_trace st_refs].
  { exists [EvPrepareTransaction]. split; [reflexivity|].
    destruct (Hsmall [EvPrepareTransaction]) as [Ha Hb]; [eexists; reflexivity|]. auto. }
  destruct (caught_error _); cbn [snd st_trace st_refs].
  { exists [EvPrepareTransaction; EvMainLoop p_in].
    split; [rewrite <- app_assoc; reflexivity|].
    destruct (Hsmall [EvPrepareTransaction; EvMainLoop p_in]) as [Ha Hb];
      [eexists; reflexivity|]. auto. }
  destruct (w_commit_transaction w) as [[]|e]; cbn [snd st_trace st_refs].
  2:{ exists [EvPrepareTransaction; EvMainLoop p_in; EvCommitTransaction].
      split; [rewrite <- !app_assoc; reflexivity|].
      destruct (Hsmall [EvPrepareTransaction; EvMainLoop p_in; EvCommitTransaction])
        as [Ha Hb]; [eexists; rewrite app_nil_r; reflexivity|]. auto. }
  match goal with |- context [write_updated_refs w remote ?u ?s0] =>
    destruct (write_updated_refs_spec w remote u s0) as (written & Hpre & Htrace & _ & _);
    pose proof (write_updated_refs_refs w remote u s0) as Hrefs
  end.
  exists ([EvPrepareTransaction; EvMainLoop p_in; EvCommitTransaction]
          ++ write_events remote written).
  split; [rewrite Htrace; cbn [st_trace]; rewrite <- !app_assoc; reflexivity|].
  destruct (Hsmall [EvPrepareTransaction; EvMainLoop p_in; EvCommitTransaction])
    as [Ha Hb]; [eexists; rewrite app_nil_r; reflexivity|].
  split; [|split].
  - intros p [Hin|Hin]%elem_of_app; [auto|].
    apply write_events_elem in Hin as (x & _ & Hx). discriminate.
  - intros remote' ref sha [Hin|Hin]%elem_of_app; [auto|].
    apply write_events_elem in Hin as ([k v] & Hx & [= -> -> ->]).
    split; [reflexivity|]. cbn.
    apply (updated_refs_of_elem remote (st_refs s) requested (k, v)).
    destruct Hpre as [rest Hpre]. fold changed. rewrite Hpre.
    apply elem_of_app. left. exact Hx.
  - intros Hnone. revert Hrefs Hpre. rewrite Hnone. cbn. unfold cret.
    intros _ _. reflexivity.
Qed.

(** C6. The loop that seeds the scanner leaves alone every requested ref
    whose fetched digest is what remote/ref resolves to: the scanner's
    queue gets a SCAN for the commits to fetch and for the changed refs
    only, and write_ref is called for changed refs only.  The scanner
    thread runs while the seeds are pushed, so when the main loop is run
    the queue holds what the scanner has left of those messages, and all
    of them when the scanner has had no turn.  So when a pull of branches
    has succeeded, the same pull run again against the refs it left (the
    remote answering as before) writes no ref, leaves the refs as they
    are, and hands the main loop a struct from which, wherever the scanner
    thread stands, no step of the scanner, the dispatcher, the fetcher or
    the store queues a FETCH, requests an object or stages one. *)
Theorem unchanged_refs_seed_no_work (w : World) (ps : Parsers) (opt_related : bool)
  (repo : RepoConfig) (argv : list string) :
  (forall remote commits (requested : gmap string Checksum) s,
     let changed := changed_refs remote (st_refs s) (map_to_list requested) in
     let result := pull_transfer w remote commits requested s in
     (forall ref sha,
        requested !! ref = Some sha ->
        st_refs s !! remote_ref_name remote ref = Some sha ->
        forall sha', (ref, sha') ∉ changed)
     /\ scan_queue_left
          (((fun c => PULL_MSG_SCAN (c, OSTREE_OBJECT_TYPE_COMMIT)) <$> elements commits)
           ++ scan_seeds changed
           ++ [PULL_MSG_MAIN_IDLE (guint_inc (idle_serial (st_data s)))])
          (main_loop_input w (st_data s) commits changed)
     /\ ((forall ls, w_scanner_thread w ls = []) ->
         metadata_objects_to_scan (main_loop_input w (st_data s) commits changed)
         = Some (((fun c => PULL_MSG_SCAN (c, OSTREE_OBJECT_TYPE_COMMIT))
                    <$> elements commits)
                 ++ scan_seeds changed
                 ++ [PULL_MSG_MAIN_IDLE (guint_inc (idle_serial (st_data s)))]))
     /\ exists events,
          st_trace result.2 = st_trace s ++ events
          /\ (forall p, EvMainLoop p ∈ events ->
                        p = main_loop_input w (st_data s) commits changed)
          /\ (forall remote' ref sha,
                EvWriteRef remote' ref sha ∈ events ->
                remote' = remote /\ (ref, sha) ∈ changed))
  /\ (forall refs0 s1,
        Forall (fun b => ostree_validate_checksum_string b <> GOk tt) (drop 2 argv) ->
        ostree_builtin_pull w repo argv (initial_state refs0) = (GOk tt, s1) ->
        let second := ostree_builtin_pull w repo argv (initial_state (st_refs s1)) in
        st_refs second.2 = st_refs s1
        /\ writes_no_ref (st_trace second.2)
        /\ (forall p ls,
              EvMainLoop p ∈ st_trace second.2 ->
              rtc (main_loop_step ps opt_related) (mkLoop p None) ls ->
              NoWork (ls_data ls))
        /\ (forall p scanner ls,
              EvMainLoop p ∈ st_trace second.2 ->
              holds_idle_token scanner ->
              rtc (main_loop_step ps opt_related) (mkLoop p scanner) ls ->
              NoWork (ls_data ls))).
Proof.
  split.
  - intros remote commits requested s. cbn zeta. split; [|split; [|split]].
    + intros ref sha Hreq Hsame sha' Hin.
      apply changed_refs_sublist in Hin as [Hin Hne]. cbn in Hne.
      apply elem_of_map_to_list in Hin. congruence.
    + apply main_loop_input_queue.
    + apply main_loop_input_idle.
    + destruct (pull_transfer_events w remote commits requested s)
        as (events & Ht & Hloop & Hwrite & _).
      exists events. auto.
  - intros refs0 s1 Hbranches Hfirst. cbn zeta.
    unfold ostree_builtin_pull, cbind in Hfirst.
    destruct (pull_open_remote w repo argv (initial_state refs0))
      as [[[[[[remote base] branches] remote_mode_str] mode]|e] sA] eqn:H1;
      [|discriminate].
    case_bool_decide as Hmode; cbn [negb] in Hfirst; [|discriminate].
    destruct (pull_resolve_refs w repo remote base branches sA)
      as [[resolved|e] sB] eqn:H2; [|discriminate].
    (* the arguments are branches *)
    destruct (pull_open_remote_inv _ _ _ _ _ _ _ _ _ _ H1)
      as (remote_config & (_ & _ & [prog Hargv] & _) & _).
    rewrite Hargv in Hbranches. cbn in Hbranches.
    pose proof (pull_resolve_refs_commits _ _ _ _ _ _ _ _ Hbranches H2) as Hcommits.
    (* the second pull opens the remote and resolves the refs as the first *)
    destruct (pull_open_remote_steady w repo argv (initial_state refs0)) as [HnwA HoblA].
    destruct (HoblA (st_refs s1) []) as [HrA HdA].
    change (mkPullState (st_data (initial_state refs0)) (st_refs s1) [])
      with (initial_state (st_refs s1)) in HrA, HdA.
    pose proof (pull_open_remote_requests_only w repo argv (initial_state (st_refs s1)))
      as HreqA.
    rewrite H1 in HrA, HdA, HnwA. cbn [fst snd] in HrA, HdA, HnwA.
    unfold ostree_builtin_pull, cbind.
    destruct (pull_open_remote w repo argv (initial_state (st_refs s1))) as [rA sA'].
    cbn [fst snd] in HrA, HdA, HreqA. subst rA.
    rewrite bool_decide_eq_true_2 by exact Hmode. cbn [negb].
    destruct (pull_resolve_refs_steady w repo remote base branches sA) as [HnwB HoblB].
    destruct (HoblB (st_refs sA') (st_trace sA')) as [HrB HdB].
    rewrite <- HdA in HrB, HdB.
    assert (Heta : mkPullState (st_data sA') (st_refs sA') (st_trace sA') = sA')
      by (destruct sA'; reflexivity).
    rewrite Heta in HrB, HdB.
    pose proof (pull_resolve_refs_requests_only w repo remote base branches sA') as HreqB.
    rewrite H2 in HrB, HdB, HnwB. cbn [fst snd] in HrB, HdB, HnwB.
    destruct (pull_resolve_refs w repo remote base branches sA') as [rB sB'].
    cbn [fst snd] in HrB, HdB, HreqB. subst rB.
    destruct (only_requests_from_start (initial_state (st_refs s1)) sB' eq_refl
                (only_requests_trans _ _ _ HreqA HreqB))
      as (Hnow & Hnoloop & Hrefs).
    cbn [st_refs initial_state] in Hrefs.
    (* nothing has changed, so nothing is seeded or written *)
    assert (Hnone : changed_refs remote (st_refs sB') (map_to_list resolved.2) = []).
    { rewrite Hrefs. apply changed_refs_none.
      apply (pull_transfer_refs w remote resolved.1 resolved.2 sB s1 Hfirst). }
    destruct (pull_transfer_events w remote resolved.1 resolved.2 sB')
      as (events & Ht & Hloop & Hwrite & Hsame).
    rewrite Hnone in Hloop, Hwrite, Hsame. rewrite Hcommits in Hloop.
    split; [rewrite Hsame by reflexivity; exact Hrefs|]. split.
    + rewrite Ht. intros remote' ref sha [Hin|Hin]%elem_of_app.
      * eapply Hnow, Hin.
      * apply Hwrite in Hin as [_ Hin]. inversion Hin.
    + assert (Hany : forall p scanner ls,
                EvMainLoop p ∈ st_trace sB' ++ events ->
                holds_idle_token scanner ->
                rtc (main_loop_step ps opt_related) (mkLoop p scanner) ls ->
                NoWork (ls_data ls)).
      { intros p scanner ls Hin Htoken Hsteps.
        apply elem_of_app in Hin as [Hin|Hin]; [exfalso; eapply Hnoloop, Hin|].
        apply Hloop in Hin. subst p.
        apply (main_loop_steps_NoWork ps opt_related _ ls Hsteps).
        split; cbn [ls_data ls_scanner]; [|exact Htoken].
        apply main_loop_start_NoWork. rewrite HdB.
        apply HnwB, HnwA, NoWork_zero. }
      rewrite Ht. split; [|exact Hany].
      intros p ls Hin Hsteps. apply (Hany p None ls Hin); [|exact Hsteps].
      intros msg [=].
Qed.

Lemma unchanged_refs_seed_no_work_witness :
  let first :=
    ostree_builtin_pull (example_world example_archive_config) example_local_repo
      ["pull"; "origin"; "main"] (initial_state ∅) in
  let second :=
    ostree_builtin_pull (example_world example_archive_config) example_local_repo
      ["pull"; "origin"; "main"] (initial_state (st_refs first.2)) in
  st_refs second.2 = st_refs first.2
  /\ writes_no_ref (st_trace second.2)
  /\ (forall p ls,
        EvMainLoop p ∈ st_trace second.2 ->
        rtc (main_loop_step example_parsers false) (mkLoop p None) ls ->
        NoWork (ls_data ls))
  /\ (forall p scanner ls,
        EvMainLoop p ∈ st_trace second.2 ->
        holds_idle_token scanner ->
        rtc (main_loop_step example_parsers false) (mkLoop p scanner) ls ->
        NoWork (ls_data ls)).
Proof.
  cbn zeta.
  apply (proj2 (unchanged_refs_seed_no_work (example_world example_archive_config)
                  example_parsers false example_local_repo ["pull"; "origin"; "main"]) ∅).
  - repeat constructor. vm_compute. discriminate.
  - vm_compute. reflexivity.
Defined.

Example first_pull_writes_the_ref :
  let result :=
    ostree_builtin_pull (example_world example_archive_config) example_local_repo
      ["pull"; "origin"; "main"] (initial_state ∅) in
  result.1 = GOk tt
  /\ st_refs result.2 = {["origin/main" := digest "aa01"]}
  /\ exists p,
       st_trace result.2
       = [EvRequestUri (mkSoupURI "http://h/r" ["config"]);
          EvRequestUri (mkSoupURI "http://h/r" ["refs"; "heads"; "main"]);
          EvPrepareTransaction; EvMainLoop p; EvCommitTransaction;
          EvWriteRef "origin" "main" (digest "aa01")]
       /\ metadata_objects_to_scan p
          = Some [PULL_MSG_SCAN (digest "aa01", OSTREE_OBJECT_TYPE_COMMIT);
                  PULL_MSG_MAIN_IDLE 1].
Proof.
  cbn zeta. split; [vm_compute; reflexivity|]. split; [vm_compute; reflexivity|].
  eexists. split; vm_compute; reflexivity.
Qed.

Example second_pull_leaves_the_ref :
  let result :=
    ostree_builtin_pull (example_world example_archive_config) example_local_repo
      ["pull"; "origin"; "main"] (initial_state {["origin/main" := digest "aa01"]}) in
  result.1 = GOk tt
  /\ st_refs result.2 = {["origin/main" := digest "aa01"]}
  /\ exists p,
       st_trace result.2
       = [EvRequestUri (mkSoupURI "http://h/r" ["config"]);
          EvRequestUri (mkSoupURI "http://h/r" ["refs"; "heads"; "main"]);
          EvPrepareTransaction; EvMainLoop p; EvCommitTransaction]
       /\ metadata_objects_to_scan p = Some [PULL_MSG_MAIN_IDLE 1].
Proof.
  cbn zeta. split; [vm_compute; reflexivity|]. split; [vm_compute; reflexivity|].
  eexists. split; vm_compute; reflexivity.
Qed.

Lemma refs_written_only_after_commit_witness :
  let w := example_world example_archive_config in
  let result :=
    ostree_builtin_pull w example_local_repo ["pull"; "origin"; "main"] (initial_state ∅) in
  (forall pre remote ref checksum post,
     st_trace result.2 = pre ++ EvWriteRef remote ref checksum :: post ->
     EvCommitTransaction ∈ pre /\ w_commit_transaction w = GOk tt
     /\ exists p, EvMainLoop p ∈ pre /\ caught_error (w_main_loop_run w p) = false)
  /\ (w_commit_transaction w <> GOk tt
      \/ (exists p, EvMainLoop p ∈ st_trace result.2
                    /\ caught_error (w_main_loop_run w p) = true) ->
      writes_no_ref (st_trace result.2) /\ st_refs result.2 = ∅)
  /\ (forall remote commits requested s0 s1,
        pull_transfer w remote commits requested s0 = (GOk tt, s1) ->
        forall x,
          x ∈ changed_refs remote (st_refs s0) (map_to_list requested) ->
          EvWriteRef remote x.1 x.2 ∈ st_trace s1).
Proof.
  cbn zeta.
  apply (refs_written_only_after_commit (example_world example_archive_config)
           example_local_repo ["pull"; "origin"; "main"] (initial_state ∅)).
  reflexivity.
Defined.

(** * Further properties *)

(** For a goal [exists p', m = Ret tt p' /\ _] with [m] a run on a closed
    struct: runs [m] and gives the struct it returns. *)
Ltac exists_returned :=
  lazymatch goal with
  | |- exists p', ?m = Ret _ p' /\ _ =>
      let r := eval vm_compute in m in
      lazymatch r with
      | Ret _ ?p => exists p
      end
  end.

(** ** Errors of the main thread *)

Lemma throw_async_errors_caught errors :
  forall p, caught_error p = true -> throw_async_errors errors p = p.
Proof.
  induction errors as [|[e|] rest IH]; intros p Hp; cbn; [reflexivity| |].
  - unfold throw_async_error at 2. rewrite Hp. apply IH, Hp.
  - apply IH, Hp.
Qed.

(** X1. Of the errors that a sequence of callbacks hands to
    throw_async_error, the first one becomes the pull's error, with the
    main loop quit; every later one is dropped, and so is any error handed
    over once an error has been caught. *)
Theorem first_async_error_wins (errors : list (option GError)) (p : OtPullData) :
  let p' := throw_async_errors errors p in
  (caught_error p = true -> p' = p)
  /\ (caught_error p = false ->
      match omap id errors with
      | [] => p' = p
      | e :: _ =>
          p' = g_main_loop_quit (set_async_error (Some e) (set_caught_error true p))
      end).
Proof.
  cbn zeta. split; [apply throw_async_errors_caught|].
  induction errors as [|[e|] rest IH]; intros Hp; cbn; [reflexivity| |].
  - unfold throw_async_error at 2. rewrite Hp.
    apply throw_async_errors_caught. reflexivity.
  - apply IH, Hp.
Qed.

Lemma first_async_error_wins_witness :
  throw_async_errors
    [None; Some (g_set_error "Invalid UTF-8"); Some (g_set_error "Exceeded maximum recursion")]
    pull_data_primed
  = g_main_loop_quit
      (set_async_error (Some (g_set_error "Invalid UTF-8"))
         (set_caught_error true pull_data_primed)).
Proof.
  apply (proj2 (first_async_error_wins
                  [None; Some (g_set_error "Invalid UTF-8");
                   Some (g_set_error "Exceeded maximum recursion")] pull_data_primed)).
  reflexivity.
Defined.

(** ** The counters and the work in flight *)

Ltac solve_mod32 :=
  unfold guint_inc, guint_dec, gint_inc in *;
  change (2 ^ 32) with 4294967296 in *; change (2 ^ 31) with 2147483648 in *;
  Z.to_euclidean_division_equations; lia.

Lemma Balanced_same p p' :
  Balanced p ->
  fetcher p' = fetcher p ->
  repo_stages p' = repo_stages p ->
  n_outstanding_metadata_fetches p' = n_outstanding_metadata_fetches p ->
  n_outstanding_metadata_stage_requests p' = n_outstanding_metadata_stage_requests p ->
  n_outstanding_content_fetches p' = n_outstanding_content_fetches p ->
  n_outstanding_content_stage_requests p' = n_outstanding_content_stage_requests p ->
  n_requested_metadata p' = n_requested_metadata p ->
  n_requested_content p' = n_requested_content p ->
  n_fetched_metadata p' = n_fetched_metadata p ->
  n_fetched_content p' = n_fetched_content p ->
  (caught_error p' = false -> caught_error p = false) ->
  Balanced p'.
Proof.
  intros [H1 H2 H3 H4 H5 H6] E1 E2 E3 E4 E5 E6 E7 E8 E9 E10 E11.
  unfold fetches_in_flight, stages_in_flight in *.
  constructor; unfold fetches_in_flight, stages_in_flight;
    rewrite ?E1, ?E2, ?E3, ?E4, ?E5, ?E6, ?E7, ?E8, ?E9, ?E10; auto.
Qed.

Lemma Balanced_frame p p' :
  Balanced p ->
  main_thread_fields p' = main_thread_fields p ->
  Balanced p'.
Proof.
  intros H [= _ _ _ _ _ _ _ E1 E2 E3 E4 E5 E6 E7 E8 _ E9 E10 E11].
  eapply Balanced_same; try eassumption. congruence.
Qed.

Lemma throw_async_error_Balanced e p : Balanced p -> Balanced (throw_async_error e p).
Proof.
  intros H. unfold throw_async_error, g_main_loop_quit.
  destruct e; [|exact H]. destruct (caught_error p); [exact H|].
  destruct H as [H1 H2 H3 H4 H5 H6].
  constructor; try assumption. cbn. discriminate.
Qed.

Lemma check_Balanced e p :
  Balanced p -> Balanced (check_outstanding_requests_handle_error e p).
Proof.
  intros H. apply (throw_async_error_Balanced e) in H.
  unfold check_outstanding_requests_handle_error, g_main_loop_quit.
  destruct (metadata_objects_to_scan (throw_async_error e p));
    repeat match goal with |- context [if ?b then _ else _] => destruct b end;
    try exact H; eapply Balanced_same; try exact H; auto.
Qed.

Lemma count_filter_snoc {A} (f : A -> bool) (l : list A) (x : A) :
  Z.of_nat (length (List.filter f (l ++ [x])))
  = Z.of_nat (length (List.filter f l)) + (if f x then 1 else 0).
Proof.
  rewrite List.filter_app, length_app. cbn. destruct (f x); cbn; lia.
Qed.

Lemma count_filter_middle {A} (f : A -> bool) (before after : list A) (x : A) :
  Z.of_nat (length (List.filter f (before ++ x :: after)))
  = Z.of_nat (length (List.filter f (before ++ after))) + (if f x then 1 else 0).
Proof.
  rewrite !List.filter_app, !length_app. cbn. destruct (f x); cbn; lia.
Qed.

Lemma fetch_ready_Balanced p p' :
  on_metadata_objects_to_fetch_ready p = Ret tt p' -> Balanced p -> Balanced p'.
Proof.
  intros Hrun Hbal. revert Hrun.
  unfold on_metadata_objects_to_fetch_ready. unfold_pull.
  destruct (metadata_objects_to_fetch p) as [[|msg q]|] eqn:Hfq; [| |discriminate].
  - intros [= <-]. apply check_Balanced, Hbal.
  - assert (Hpop : Balanced (set_metadata_objects_to_fetch (Some q) p)).
    { eapply Balanced_frame; [exact Hbal|reflexivity]. }
    destruct msg as [serial|serial|[c t]|item|]; cbn; try discriminate.
    + destruct (metadata_scan_idle p); cbn.
      * intros [= <-]. apply check_Balanced, Hpop.
      * destruct (metadata_objects_to_scan p) as [sq|] eqn:Hsq; cbn; [|discriminate].
        intros [= <-]. apply check_Balanced.
        eapply Balanced_same; [exact Hbal|reflexivity..|auto].
    + destruct (serial =? idle_serial p); cbn.
      * destruct (metadata_scan_idle p); cbn; [discriminate|].
        intros [= <-]. apply check_Balanced.
        eapply Balanced_same; [exact Hbal|reflexivity..|auto].
      * intros [= <-]. apply check_Balanced, Hpop.
    + destruct Hbal as [H1 H2 H3 H4 H5 H6].
      unfold fetches_in_flight, stages_in_flight in *.
      destruct (OSTREE_OBJECT_TYPE_IS_META t); cbn; intros [= <-]; apply check_Balanced;
        constructor; unfold fetches_in_flight, stages_in_flight; cbn;
        rewrite ?count_filter_snoc; cbn; try assumption.
      all: try (intros Hc; specialize (H6 Hc)).
      all: try solve_mod32.
Qed.

Lemma check_error_Balanced e p :
  n_outstanding_metadata_fetches p = fetches_in_flight true p mod 2 ^ 32 ->
  n_outstanding_content_fetches p = fetches_in_flight false p mod 2 ^ 32 ->
  n_outstanding_metadata_stage_requests p = stages_in_flight true p mod 2 ^ 32 ->
  n_outstanding_content_stage_requests p = stages_in_flight false p mod 2 ^ 32 ->
  (n_requested_metadata p - n_fetched_metadata p
   - n_outstanding_metadata_fetches p) mod 2 ^ 32 = 0 ->
  Balanced (check_outstanding_requests_handle_error (Some e) p).
Proof.
  intros H1 H2 H3 H4 H5.
  pose proof (check_with_error_fields e p) as (Hcaught & _).
  cbn zeta in Hcaught.
  assert (Hbal : Balanced (set_caught_error true p)).
  { constructor; try assumption. cbn. discriminate. }
  revert Hcaught.
  unfold check_outstanding_requests_handle_error, throw_async_error, g_main_loop_quit.
  destruct (caught_error p) eqn:Hc;
    repeat match goal with |- context [match ?b with _ => _ end] => destruct b end;
    intros Hcaught; eapply Balanced_same; try exact Hbal; try reflexivity;
    cbn in *; congruence.
Qed.

Lemma fetch_complete_Balanced ps p p' before req after result :
  fetcher p = before ++ req :: after ->
  (if fr_is_meta req
   then meta_fetch_on_complete ps result (fr_data req)
   else content_fetch_on_complete ps result (fr_data req))
    (set_fetcher (before ++ after) p) = Ret tt p' ->
  Balanced p -> Balanced p'.
Proof.
  intros Hreq Hrun [H1 H2 H3 H4 H5 H6].
  unfold fetches_in_flight, stages_in_flight in *.
  rewrite Hreq in H1, H2. rewrite count_filter_middle in H1, H2.
  revert Hrun.
  destruct (fr_is_meta req) eqn:Hmeta; cbn [Bool.eqb] in H1, H2.
  - unfold meta_fetch_on_complete. unfold_pull.
    destruct (fd_object (fr_data req)) as [c t].
    destruct result as [tmpf|e]; cbn.
    + destruct (ot_util_variant_map ps tmpf t); cbn; intros [= <-];
        apply throw_async_error_Balanced;
        constructor; unfold fetches_in_flight, stages_in_flight; cbn;
        rewrite ?count_filter_snoc; cbn; try assumption.
      all: try (intros Hc; specialize (H6 Hc)).
      all: try solve_mod32.
    + intros [= <-]. apply throw_async_error_Balanced.
      constructor; unfold fetches_in_flight, stages_in_flight; cbn;
        rewrite ?count_filter_snoc; cbn; try assumption.
      all: try (intros Hc; specialize (H6 Hc)).
      all: try solve_mod32.
  - unfold content_fetch_on_complete. unfold_pull.
    destruct (fd_object (fr_data req)) as [c t].
    destruct result as [tmpf|e]; cbn.
    + case_bool_decide as Ht; cbn; [|discriminate].
      destruct (ostree_content_file_parse ps tmpf); cbn;
        [destruct (ostree_raw_file_to_content_stream ps tmpf); cbn|];
        intros [= <-].
      * apply check_Balanced.
        constructor; unfold fetches_in_flight, stages_in_flight; cbn;
          rewrite ?count_filter_snoc; cbn; try assumption.
        all: try (intros Hc; specialize (H6 Hc)).
        all: try solve_mod32.
      * apply check_error_Balanced; unfold fetches_in_flight, stages_in_flight; cbn;
          try assumption; solve_mod32.
      * apply check_error_Balanced; unfold fetches_in_flight, stages_in_flight; cbn;
          try assumption; solve_mod32.
    + intros [= <-].
      apply check_error_Balanced; unfold fetches_in_flight, stages_in_flight; cbn;
        try assumption; solve_mod32.
Qed.

Lemma stage_complete_Balanced p p' before req after result :
  repo_stages p = before ++ req :: after ->
  (if sr_is_meta req
   then on_metadata_staged result (sr_data req)
   else content_fetch_on_stage_complete result (sr_data req))
    (set_repo_stages (before ++ after) p) = Ret tt p' ->
  Balanced p -> Balanced p'.
Proof.
  intros Hreq Hrun [H1 H2 H3 H4 H5 H6].
  unfold fetches_in_flight, stages_in_flight in *.
  rewrite Hreq in H3, H4. rewrite count_filter_middle in H3, H4.
  revert Hrun.
  destruct (sr_is_meta req) eqn:Hmeta; cbn [Bool.eqb] in H3, H4.
  - unfold on_metadata_staged. unfold_pull.
    destruct (fd_object (sr_data req)) as [c t].
    destruct result as [csum|e]; cbn.
    + destruct (OSTREE_OBJECT_TYPE_IS_META t); cbn; [|discriminate].
      destruct (String.eqb csum c); cbn; [|discriminate].
      destruct (metadata_objects_to_scan p) as [sq|]; cbn; [|discriminate].
      intros [= <-]. apply check_Balanced.
      constructor; unfold fetches_in_flight, stages_in_flight; cbn;
        rewrite ?count_filter_snoc; cbn; try assumption.
      all: try (intros Hc; specialize (H6 Hc)).
      all: try solve_mod32.
    + intros [= <-].
      apply check_error_Balanced; unfold fetches_in_flight, stages_in_flight; cbn;
        try assumption; solve_mod32.
  - unfold content_fetch_on_stage_complete. unfold_pull.
    destruct (fd_object (sr_data req)) as [c t].
    destruct result as [csum|e]; cbn.
    + case_bool_decide as Ht; cbn; [|discriminate].
      destruct (String.eqb csum c); cbn; [|discriminate].
      intros [= <-]. apply check_Balanced.
      constructor; unfold fetches_in_flight, stages_in_flight; cbn;
        rewrite ?count_filter_snoc; cbn; try assumption.
      all: try (intros Hc; specialize (H6 Hc)).
      all: try solve_mod32.
    + intros [= <-].
      apply check_error_Balanced; unfold fetches_in_flight, stages_in_flight; cbn;
        try assumption; solve_mod32.
Qed.

Lemma main_loop_step_Balanced ps opt_related ls ls' :
  main_loop_step ps opt_related ls ls' -> Balanced (ls_data ls) -> Balanced (ls_data ls').
Proof.
  intros Hstep Hbal.
  destruct Hstep as
    [p sc|p p' sc Hrun|p p' sc before req after result Hreq Hrun
    |p p' sc before req after result Hreq Hrun|p sc Hinv|p
    |p p' repo msg rest last last' Hq Hrun|p p' p'' repo msg rest last e Hq Hrun Hout
    |p p' last Hq Hrun]; cbn [ls_data] in *.
  - apply check_Balanced, Hbal.
  - eapply fetch_ready_Balanced; eassumption.
  - eapply fetch_complete_Balanced; eassumption.
  - eapply stage_complete_Balanced; eassumption.
  - unfold idle_throw_error. destruct (main_context_invocations p); [exact Hbal|].
    apply throw_async_error_Balanced. eapply Balanced_frame; [exact Hbal|reflexivity].
  - exact Hbal.
  - pose proof (scan_ready_message_main_fields repo opt_related msg last
                  (set_metadata_objects_to_scan (Some rest) p)) as Hframe.
    unfold wp in Hframe. rewrite Hrun in Hframe.
    eapply Balanced_frame; [exact Hbal|exact Hframe].
  - pose proof (scan_ready_message_main_fields repo opt_related msg last
                  (set_metadata_objects_to_scan (Some rest) p)) as Hframe.
    unfold wp in Hframe. rewrite Hrun in Hframe.
    injection Hout as <-.
    eapply Balanced_frame; [exact Hbal|exact Hframe].
  - pose proof (scan_ready_notify_main_fields last p) as Hframe.
    unfold wp in Hframe. rewrite Hrun in Hframe.
    eapply Balanced_frame; [exact Hbal|exact Hframe].
Qed.

Lemma count_filter_both {A} (f : A -> bool) (l : list A) :
  (length (List.filter (fun x => Bool.eqb (f x) true) l)
   + length (List.filter (fun x => Bool.eqb (f x) false) l) = length l)%nat.
Proof.
  induction l as [|x l IH]; cbn; [reflexivity|].
  destruct (f x); cbn; lia.
Qed.

(** X2. The counters of the struct account for the work in flight, at
    every point of the main loop: each of the four outstanding counters is
    the number (modulo 2^32) of requests of its kind that the fetcher or
    the store holds; the metadata objects requested are those fetched plus
    those being fetched; and until an error is caught the content objects
    requested are those fetched plus those being fetched or staged.  So
    when the four counters read zero, and fewer than 2^32 requests are
    held, the fetcher and the store hold none. *)
Theorem counters_account_for_work_in_flight (ps : Parsers) (opt_related : bool)
  (ls ls' : LoopState) :
  Balanced (ls_data ls) ->
  rtc (main_loop_step ps opt_related) ls ls' ->
  Balanced (ls_data ls')
  /\ (outstanding_all_zero (ls_data ls') ->
      Z.of_nat (length (fetcher (ls_data ls'))) < 2 ^ 32 ->
      Z.of_nat (length (repo_stages (ls_data ls'))) < 2 ^ 32 ->
      fetcher (ls_data ls') = [] /\ repo_stages (ls_data ls') = []).
Proof.
  intros Hbal Hsteps.
  assert (Hbal' : Balanced (ls_data ls')).
  { induction Hsteps as [ls|ls1 ls2 ls3 Hstep _ IH]; [exact Hbal|].
    apply IH. eapply main_loop_step_Balanced; eassumption. }
  split; [exact Hbal'|].
  destruct Hbal' as [H1 H2 H3 H4 _ _].
  intros (Z1 & Z2 & Z3 & Z4) Hf Hs.
  unfold fetches_in_flight, stages_in_flight in *.
  pose proof (count_filter_both fr_is_meta (fetcher (ls_data ls'))) as Cf.
  pose proof (count_filter_both sr_is_meta (repo_stages (ls_data ls'))) as Cs.
  rewrite Z1 in H1. rewrite Z2 in H2. rewrite Z3 in H3. rewrite Z4 in H4.
  change (2 ^ 32) with 4294967296 in *.
  split; apply length_zero_iff_nil.
  - revert H1 H2 Cf Hf. generalize (length (fetcher (ls_data ls'))).
    intros n. 
    generalize (length (List.filter (fun r => Bool.eqb (fr_is_meta r) true)
                          (fetcher (ls_data ls')))).
    generalize (length (List.filter (fun r => Bool.eqb (fr_is_meta r) false)
                          (fetcher (ls_data ls')))).
    intros a b Ha Hb Hab Hn. Z.to_euclidean_division_equations. lia.
  - revert H3 H4 Cs Hs. generalize (length (repo_stages (ls_data ls'))).
    intros n. 
    generalize (length (List.filter (fun r => Bool.eqb (sr_is_meta r) true)
                          (repo_stages (ls_data ls')))).
    generalize (length (List.filter (fun r => Bool.eqb (sr_is_meta r) false)
                          (repo_stages (ls_data ls')))).
    intros a b Ha Hb Hab Hn. Z.to_euclidean_division_equations. lia.
Qed.

Lemma counters_account_for_work_in_flight_witness :
  exists p',
    rtc (main_loop_step example_parsers false)
      (mkLoop pull_data_two_fetches None) (mkLoop p' None)
    /\ length (fetcher p') = 2%nat
    /\ n_outstanding_metadata_fetches p' = 1
    /\ n_outstanding_content_fetches p' = 1
    /\ Balanced p'.
Proof.
  assert (Hbal : Balanced pull_data_two_fetches).
  { constructor; reflexivity. }
  let r1 := eval vm_compute in (on_metadata_objects_to_fetch_ready pull_data_two_fetches) in
  lazymatch r1 with
  | Ret _ ?p1 =>
      let r2 := eval vm_compute in (on_metadata_objects_to_fetch_ready p1) in
      lazymatch r2 with
      | Ret _ ?p2 =>
          exists p2;
          assert (Hsteps : rtc (main_loop_step example_parsers false)
                             (mkLoop pull_data_two_fetches None) (mkLoop p2 None))
            by (apply rtc_l with (mkLoop p1 None);
                [|apply rtc_once]; apply step_fetch_ready; vm_compute; reflexivity)
      end
  end.
  split; [exact Hsteps|]. split; [reflexivity|]. split; [reflexivity|].
  split; [reflexivity|].
  exact (proj1 (counters_account_for_work_in_flight example_parsers false
                  (mkLoop pull_data_two_fetches None) _ Hbal Hsteps)).
Defined.

(** ** Metadata objects on their way through the main thread *)

(** X3. meta_fetch_on_complete always returns, and whatever the outcome of
    the fetch and of the parse it counts the object as fetched and the
    fetch as no longer outstanding; a stage operation is started exactly
    when both succeeded.  It does not run the termination check: the main
    loop is quit only when the callback reports the pull's first error. *)
Theorem meta_fetch_counts_every_completion (ps : Parsers) (result : gresult GFile)
  (fetch_data : FetchObjectData) (p : OtPullData) :
  let parsed :=
    match result with
    | GOk tmpf =>
        match ot_util_variant_map ps tmpf (fd_object fetch_data).2 with
        | GOk _ => true
        | GErr _ => false
        end
    | GErr _ => false
    end in
  exists p',
    meta_fetch_on_complete ps result fetch_data p = Ret tt p'
    /\ n_fetched_metadata p' = guint_inc (n_fetched_metadata p)
    /\ n_outstanding_metadata_fetches p' = guint_dec (n_outstanding_metadata_fetches p)
    /\ n_outstanding_metadata_stage_requests p'
       = (if parsed then guint_inc (n_outstanding_metadata_stage_requests p)
          else n_outstanding_metadata_stage_requests p)
    /\ length (repo_stages p') = (if parsed then S (length (repo_stages p))
                                  else length (repo_stages p))
    /\ (if parsed then loop_is_running p' = loop_is_running p
                       /\ caught_error p' = caught_error p
        else caught_error p' = true
             /\ (caught_error p = true -> loop_is_running p' = loop_is_running p)
             /\ (caught_error p = false -> loop_is_running p' = false)).
Proof.
  cbn zeta. unfold meta_fetch_on_complete. unfold_pull.
  destruct (fd_object fetch_data) as [c t]. cbn [snd].
  destruct result as [tmpf|e]; cbn.
  - destruct (ot_util_variant_map ps tmpf t) as [[]|e]; cbn.
    + eexists. split; [reflexivity|]. unfold throw_async_error. cbn.
      rewrite length_app. cbn. repeat split; auto. lia.
    + eexists. split; [reflexivity|].
      unfold throw_async_error, g_main_loop_quit.
      destruct (caught_error p) eqn:Hc; cbn; rewrite ?Hc; repeat split; auto; discriminate.
  - eexists. split; [reflexivity|].
    unfold throw_async_error, g_main_loop_quit.
    destruct (caught_error p) eqn:Hc; cbn; rewrite ?Hc; repeat split; auto; discriminate.
Qed.

(** X4. When a metadata object has been staged under the digest it was
    requested by, on_metadata_staged clears the scan-idle flag and queues
    the object for the scanner before it runs the termination check: the
    callback cannot quit the main loop, even when it brings the last
    outstanding counter to zero. *)
Theorem staged_metadata_rearms_the_scanner (csum : Checksum)
  (fetch_data : FetchObjectData) (p p' : OtPullData) :
  on_metadata_staged (GOk csum) fetch_data p = Ret tt p' ->
  metadata_scan_idle p' = false
  /\ loop_is_running p' = loop_is_running p
  /\ caught_error p' = caught_error p
  /\ n_outstanding_metadata_stage_requests p'
     = guint_dec (n_outstanding_metadata_stage_requests p)
  /\ exists sq,
       metadata_objects_to_scan p = Some sq
       /\ metadata_objects_to_scan p' = Some (sq ++ [PULL_MSG_SCAN (fd_object fetch_data)]).
Proof.
  unfold on_metadata_staged. unfold_pull.
  destruct (fd_object fetch_data) as [c t]. cbn.
  destruct (OSTREE_OBJECT_TYPE_IS_META t); cbn; [|discriminate].
  destruct (String.eqb csum c); cbn; [|discriminate].
  destruct (metadata_objects_to_scan p) as [sq|] eqn:Hsq; cbn; [|discriminate].
  intros [= <-].
  unfold check_outstanding_requests_handle_error, throw_async_error. cbn.
  repeat split; auto. eauto.
Qed.

Lemma staged_metadata_rearms_the_scanner_witness :
  exists p',
    on_metadata_staged (GOk (digest "bb01")) example_meta_request
      (set_metadata_scan_idle true pull_data_staging) = Ret tt p'
    /\ metadata_scan_idle p' = false
    /\ loop_is_running p' = true
    /\ metadata_objects_to_scan p'
       = Some [PULL_MSG_SCAN (digest "bb01", OSTREE_OBJECT_TYPE_DIR_TREE)].
Proof.
  exists_returned.
  assert (Hrun : on_metadata_staged (GOk (digest "bb01")) example_meta_request
                   (set_metadata_scan_idle true pull_data_staging) = Ret tt _)
    by (vm_compute; reflexivity).
  split; [exact Hrun|].
  destruct (staged_metadata_rearms_the_scanner _ _ _ _ Hrun)
    as (Hidle & Hloop & _ & _ & sq & Hsq & Hsq').
  split; [exact Hidle|]. split; [rewrite Hloop; reflexivity|].
  rewrite Hsq'. injection Hsq as <-. reflexivity.
Defined.

(** ** The idle handshake *)

(** X5. With nothing queued for the scanner, no request outstanding and a
    SCAN_IDLE message waiting, one round trip of the idle token ends the
    main loop: the dispatcher sends MAIN_IDLE with a new serial, the
    scanner echoes it, and the dispatcher, on getting it back, sets the
    scan-idle flag and quits the loop with success.  The loop is still
    running until then. *)
Theorem idle_handshake_ends_the_main_loop (repo : OstreeRepo) (opt_related : bool)
  (p : OtPullData) (serial : Z) :
  metadata_objects_to_scan p = Some [] ->
  metadata_objects_to_fetch p = Some [PULL_MSG_SCAN_IDLE serial] ->
  metadata_scan_idle p = false ->
  outstanding_all_zero p ->
  loop_is_running p = true ->
  caught_error p = false ->
  exists p1 p2 p3,
    on_metadata_objects_to_fetch_ready p = Ret tt p1
    /\ on_metadata_objects_to_scan_ready repo opt_related p1 = Ret tt p2
    /\ on_metadata_objects_to_fetch_ready p2 = Ret tt p3
    /\ loop_is_running p2 = true
    /\ metadata_scan_idle p3 = true
    /\ idle_serial p3 = guint_inc (idle_serial p)
    /\ quits_with_success p3.
Proof.
  intros Hsq Hfq Hidle (Z1 & Z2 & Z3 & Z4) Hrun Hcaught.
  eexists _, _, _.
  split.
  { unfold on_metadata_objects_to_fetch_ready. unfold_pull.
    rewrite Hfq. cbn. rewrite Hidle. cbn. rewrite Hsq. cbn.
    unfold check_outstanding_requests_handle_error, throw_async_error. cbn.
    rewrite Hidle. cbn. reflexivity. }
  split.
  { unfold on_metadata_objects_to_scan_ready, scan_ready_notify, scan_ready_out.
    unfold_pull. cbn. reflexivity. }
  split.
  { unfold on_metadata_objects_to_fetch_ready. unfold_pull.
    cbn. rewrite Z.eqb_refl. cbn. rewrite Hidle. cbn.
    unfold check_outstanding_requests_handle_error, throw_async_error. cbn.
    rewrite Z1, Z2, Z3, Z4. cbn. reflexivity. }
  unfold quits_with_success, run_mainloop_monitor_fetcher_result, g_main_loop_quit.
  cbn. rewrite Hrun, Hcaught. auto.
Qed.

Lemma idle_handshake_ends_the_main_loop_witness :
  exists p1 p2 p3,
    on_metadata_objects_to_fetch_ready pull_data_scan_idle_sent = Ret tt p1
    /\ on_metadata_objects_to_scan_ready example_repo false p1 = Ret tt p2
    /\ on_metadata_objects_to_fetch_ready p2 = Ret tt p3
    /\ loop_is_running p2 = true
    /\ metadata_scan_idle p3 = true
    /\ idle_serial p3 = guint_inc (idle_serial pull_data_scan_idle_sent)
    /\ quits_with_success p3.
Proof.
  apply (idle_handshake_ends_the_main_loop example_repo false pull_data_scan_idle_sent 0);
    try reflexivity.
  repeat split.
Defined.

(** ** The scanner: scanning again *)

Lemma scan_one_metadata_object_unfold repo opt_related fuel csum t depth p :
  scan_one_metadata_object repo opt_related (S fuel) csum t depth p
  = if bool_decide (ostree_object_name_serialize csum t ∈ scanned_metadata p) then Ret tt p
    else
      match ostree_repo_has_object repo t csum with
      | GErr e => Throw e p
      | GOk is_stored =>
          if negb is_stored && negb (bool_decide (csum ∈ requested_metadata p))
          then
            (modify (fun p => set_requested_metadata ({[csum]} ∪ requested_metadata p) p)
             >> push_fetch_queue (PULL_MSG_FETCH (ostree_object_name_serialize csum t))) p
          else if is_stored
          then
            (match t with
             | OSTREE_OBJECT_TYPE_COMMIT =>
                 scan_commit_object repo opt_related
                   (scan_one_metadata_object repo opt_related fuel) csum depth
             | OSTREE_OBJECT_TYPE_DIR_META => ret tt
             | OSTREE_OBJECT_TYPE_DIR_TREE =>
                 scan_dirtree_object repo
                   (scan_one_metadata_object repo opt_related fuel) csum
                   (guint_to_int depth)
             | OSTREE_OBJECT_TYPE_FILE => abort "g_assert_not_reached"
             end >>
             modify (fun p => set_scanned_metadata
                                ({[ostree_object_name_serialize csum t]}
                                 ∪ scanned_metadata p) p) >>
             modify (fun p => set_n_scanned_metadata (gint_inc (n_scanned_metadata p)) p)) p
          else Ret tt p
      end.
Proof.
  cbn [scan_one_metadata_object].
  unfold bind at 1. unfold gets at 1. cbn beta iota.
  destruct (bool_decide (ostree_object_name_serialize csum t ∈ scanned_metadata p));
    [reflexivity|].
  unfold bind at 1. unfold gets at 1. cbn beta iota. unfold bind at 1.
  destruct (ostree_repo_has_object repo t csum) as [stored|e]; [|reflexivity].
  cbn [lift]. unfold ret at 1. cbn beta iota.
  destruct stored; cbn [negb andb]; [reflexivity|].
  destruct (bool_decide (csum ∈ requested_metadata p)); reflexivity.
Qed.

(** X6. Scanning an object a second time changes nothing: once
    scan_one_metadata_object has returned for an object, a further call for
    the same object, at any depth, returns with the struct as it is.  The
    object is by then marked as scanned, or entered in requested_metadata
    and still absent from the store. *)
Theorem rescan_is_a_no_op (repo : OstreeRepo) (opt_related : bool) (fuel fuel' : nat)
  (csum : Checksum) (t : OstreeObjectType) (depth depth' : Z) (p p' : OtPullData) :
  scan_one_metadata_object repo opt_related fuel csum t depth p = Ret tt p' ->
  scan_one_metadata_object repo opt_related (S fuel') csum t depth' p' = Ret tt p'.
Proof.
  destruct fuel as [|fuel]; [discriminate|].
  rewrite !scan_one_metadata_object_unfold.
  case_bool_decide as Hscanned.
  { intros [= <-]. rewrite bool_decide_eq_true_2 by exact Hscanned. reflexivity. }
  destruct (ostree_repo_has_object repo t csum) as [stored|e] eqn:Hstored;
    [|discriminate].
  destruct stored; cbn [negb andb].
  - unfold bind at 1.
    match goal with
    | |- match ?body with _ => _ end = _ -> _ =>
        destruct body as [[] p1|e p1| |]; try discriminate
    end.
    unfold bind, modify. intros [= <-]. cbn.
    rewrite bool_decide_eq_true_2 by set_solver. reflexivity.
  - case_bool_decide as Hreq; cbn [negb].
    + intros [= <-]. rewrite bool_decide_eq_false_2 by exact Hscanned.
      rewrite bool_decide_eq_true_2 by exact Hreq. reflexivity.
    + unfold bind, modify, push_fetch_queue. cbn.
      destruct (metadata_objects_to_fetch p) as [q|]; [|discriminate].
      intros [= <-]. cbn.
      rewrite bool_decide_eq_false_2 by exact Hscanned.
      rewrite bool_decide_eq_true_2 by set_solver. reflexivity.
Qed.

Lemma rescan_is_a_no_op_witness :
  exists p',
    scan_one_metadata_object small_repo false 258 "c1" OSTREE_OBJECT_TYPE_COMMIT 0
      pull_data_primed = Ret tt p'
    /\ scan_one_metadata_object small_repo false 258 "c1" OSTREE_OBJECT_TYPE_COMMIT 0 p'
       = Ret tt p'.
Proof.
  exists_returned.
  assert (Hrun : scan_one_metadata_object small_repo false 258 "c1"
                   OSTREE_OBJECT_TYPE_COMMIT 0 pull_data_primed = Ret tt _)
    by (vm_compute; reflexivity).
  split; [exact Hrun|].
  exact (rescan_is_a_no_op small_repo false 258 257 "c1"
           OSTREE_OBJECT_TYPE_COMMIT 0 0 pull_data_primed _ Hrun).
Defined.

(** ** The scanner's handler *)

Lemma scan_one_metadata_object_v_name_total repo opt_related object p :
  scan_one_metadata_object_v_name repo opt_related object p <> NoFuel.
Proof.
  destruct object as [csum t]. unfold scan_one_metadata_object_v_name.
  destruct (scan_one_metadata_object_agree repo opt_related scan_fuel scan_fuel 0 csum t p)
    as [_ Hne]; [unfold OSTREE_MAX_RECURSION; lia
                |unfold scan_fuel, OSTREE_MAX_RECURSION; lia..|exact Hne].
Qed.

Lemma scan_one_metadata_object_drain repo opt_related fuel q mci fq :
  keeps (fun _ => True)
    (fun p => metadata_objects_to_scan p = q
              /\ main_context_invocations p = mci
              /\ exists em, Forall is_fetch em
                            /\ metadata_objects_to_fetch p = Some (fq ++ em))
    (scan_one_metadata_object repo opt_related fuel).
Proof.
  apply scan_one_metadata_object_keeps; auto.
  - intros p q0 c (H1 & H2 & em & Hem & Hq) Hq0 _ _.
    rewrite Hq in Hq0. injection Hq0 as <-.
    split; [exact H1|]. split; [exact H2|].
    exists (em ++ [PULL_MSG_FETCH (c, OSTREE_OBJECT_TYPE_FILE)]).
    split; [apply Forall_app; split; [exact Hem|repeat constructor]|].
    cbn. rewrite app_assoc. reflexivity.
  - intros p q0 c t _ (H1 & H2 & em & Hem & Hq) Hq0 _ _.
    rewrite Hq in Hq0. injection Hq0 as <-.
    split; [exact H1|]. split; [exact H2|].
    exists (em ++ [PULL_MSG_FETCH (c, t)]).
    split; [apply Forall_app; split; [exact Hem|repeat constructor]|].
    cbn. rewrite app_assoc. reflexivity.
Qed.

Lemma scan_ready_loop_drain repo opt_related queued :
  forall last_idle_msg p fq,
    metadata_objects_to_scan p = Some queued ->
    metadata_objects_to_fetch p = Some fq ->
    match scan_ready_loop repo opt_related queued last_idle_msg p with
    | Ret last' p' =>
        last' = match last (main_idle_tokens queued) with
                | Some msg => Some msg
                | None => last_idle_msg
                end
        /\ metadata_objects_to_scan p' = Some []
        /\ main_context_invocations p' = main_context_invocations p
        /\ exists em, Forall is_fetch em
                      /\ metadata_objects_to_fetch p' = Some (fq ++ em)
    | Throw e p' =>
        exists done item rest em,
          queued = done ++ PULL_MSG_SCAN item :: rest
          /\ metadata_objects_to_scan p' = Some rest
          /\ main_context_invocations p' = main_context_invocations p
          /\ Forall is_fetch em
          /\ metadata_objects_to_fetch p' = Some (fq ++ em)
    | Abort _ _ => True
    | NoFuel => False
    end.
Proof.
  induction queued as [|msg rest IH]; intros last0 p fq Hq Hfq; cbn [scan_ready_loop].
  - cbn. repeat split; auto. exists []. rewrite app_nil_r. auto.
  - unfold bind at 1. unfold modify at 1. unfold bind at 1.
    set (p0 := set_metadata_objects_to_scan (Some rest) p).
    assert (Hmsg :
      match scan_ready_message repo opt_related msg last0 p0 with
      | Ret last1 p1 =>
          last1 = match msg with PULL_MSG_MAIN_IDLE _ => Some msg | _ => last0 end
          /\ metadata_objects_to_scan p1 = Some rest
          /\ main_context_invocations p1 = main_context_invocations p
          /\ exists em, Forall is_fetch em
                        /\ metadata_objects_to_fetch p1 = Some (fq ++ em)
      | Throw e p1 =>
          (exists item, msg = PULL_MSG_SCAN item)
          /\ metadata_objects_to_scan p1 = Some rest
          /\ main_context_invocations p1 = main_context_invocations p
          /\ exists em, Forall is_fetch em
                        /\ metadata_objects_to_fetch p1 = Some (fq ++ em)
      | Abort _ _ => True
      | NoFuel => False
      end).
    { assert (Hp0 : metadata_objects_to_scan p0 = Some rest
                    /\ main_context_invocations p0 = main_context_invocations p
                    /\ exists em, Forall is_fetch em
                                  /\ metadata_objects_to_fetch p0 = Some (fq ++ em)).
      { repeat split. exists []. rewrite app_nil_r. split; [constructor|exact Hfq]. }
      destruct msg as [serial|serial|item|[csum t]|]; cbn [scan_ready_message];
        try exact I.
      - cbn. split; [reflexivity|exact Hp0].
      - unfold bind.
        pose proof (scan_one_metadata_object_drain repo opt_related scan_fuel
                      (Some rest) (main_context_invocations p) fq csum t 0 p0 I Hp0)
          as Hscan.
        pose proof (scan_one_metadata_object_v_name_total repo opt_related (csum, t) p0)
          as Htotal.
        unfold scan_one_metadata_object_v_name in *. unfold wp in Hscan.
        destruct (scan_one_metadata_object repo opt_related scan_fuel csum t 0 p0)
          as [[] p1|e p1| |]; cbn; auto.
        split; [eauto|exact Hscan].
      - cbn. split; [reflexivity|]. destruct Hp0 as (H1 & H2 & H3). auto. }
    destruct (scan_ready_message repo opt_related msg last0 p0)
      as [last1 p1|e p1| |]; [| |exact I|exact Hmsg].
    + destruct Hmsg as (-> & Hq1 & Hmci1 & em1 & Hem1 & Hfq1).
      specialize (IH (match msg with PULL_MSG_MAIN_IDLE _ => Some msg | _ => last0 end)
                    p1 (fq ++ em1) Hq1 Hfq1).
      destruct (scan_ready_loop repo opt_related rest _ p1) as [last2 p2|e p2| |];
        [| |exact I|exact IH].
      * destruct IH as (-> & Hq2 & Hmci2 & em2 & Hem2 & Hfq2).
        split.
        { destruct msg; cbn [main_idle_tokens List.filter]; fold (main_idle_tokens rest);
            try reflexivity.
          rewrite last_cons. destruct (last (main_idle_tokens rest)); reflexivity. }
        split; [exact Hq2|]. split; [congruence|].
        exists (em1 ++ em2). split; [apply Forall_app; auto|].
        rewrite Hfq2, app_assoc. reflexivity.
      * destruct IH as (done & item & rest' & em2 & -> & Hq2 & Hmci2 & Hem2 & Hfq2).
        exists (msg :: done), item, rest', (em1 ++ em2).
        split; [reflexivity|]. split; [exact Hq2|]. split; [congruence|].
        split; [apply Forall_app; auto|].
        rewrite Hfq2, app_assoc. reflexivity.
    + destruct Hmsg as ((item & ->) & Hq1 & Hmci1 & em1 & Hem1 & Hfq1).
      exists [], item, rest, em1. auto.
Qed.





(** X9. The error of a failed scan becomes the error of the pull: when a
    run of the scanner's handler has handed an error to the main context,
    and the pull had caught no error before, idle_throw_error on the main
    thread stores that error as the pull's, quits the main loop, and
    run_mainloop_monitor_fetcher reports a failure. *)
Theorem scan_failure_becomes_the_pull_error (repo : OstreeRepo) (opt_related : bool)
  (p p' : OtPullData) :
  on_metadata_objects_to_scan_ready repo opt_related p = Ret tt p' ->
  is_Some (metadata_objects_to_fetch p) ->
  main_context_invocations p = [] ->
  caught_error p = false ->
  main_context_invocations p' <> [] ->
  exists e,
    main_context_invocations p' = [e]
    /\ async_error (idle_throw_error p') = Some e
    /\ caught_error (idle_throw_error p') = true
    /\ loop_is_running (idle_throw_error p') = false
    /\ run_mainloop_monitor_fetcher_result (idle_throw_error p') = false
    /\ main_context_invocations (idle_throw_error p') = [].
Proof.
  intros Hrun [fq Hfq] Hmci Hcaught Hfailed.
  revert Hrun.
  unfold on_metadata_objects_to_scan_ready. unfold bind at 1. unfold gets at 1.
  destruct (metadata_objects_to_scan p) as [queued|] eqn:Hq; [|discriminate].
  unfold bind at 1. unfold catch. unfold bind at 1.
  pose proof (scan_ready_loop_drain repo opt_related queued None p fq Hq Hfq) as Hloop.
  pose proof (scan_ready_loop_main_fields repo opt_related queued None p) as Hfields.
  unfold wp in Hfields.
  destruct (scan_ready_loop repo opt_related queued None p) as [last1 p1|e p1| |];
    try discriminate.
  - destruct Hloop as (_ & _ & Hmci1 & em & _ & Hfq1).
    unfold scan_ready_notify. unfold_pull.
    destruct last1; cbn; rewrite Hfq1; cbn; intros [= <-]; exfalso; apply Hfailed;
      cbn; congruence.
  - destruct Hloop as (_ & _ & _ & _ & _ & _ & Hmci1 & _).
    cbn. intros [= <-]. exists e.
    injection Hfields as _ _ _ _ _ _ _ _ _ _ _ _ _ _ _ _ Hc _ _.
    rewrite Hcaught in Hc.
    unfold idle_throw_error, throw_async_error, run_mainloop_monitor_fetcher_result.
    cbn. rewrite Hmci1, Hmci. cbn. rewrite Hc. cbn. auto 10.
Qed.

Lemma scan_failure_becomes_the_pull_error_witness :
  exists p',
    on_metadata_objects_to_scan_ready endless_repo false pull_data_endless_scan = Ret tt p'
    /\ main_context_invocations p' = [g_set_error "Exceeded maximum recursion"]
    /\ async_error (idle_throw_error p') = Some (g_set_error "Exceeded maximum recursion")
    /\ loop_is_running (idle_throw_error p') = false.
Proof.
  exists_returned.
  assert (Hrun : on_metadata_objects_to_scan_ready endless_repo false pull_data_endless_scan
                 = Ret tt _) by (vm_compute; reflexivity).
  split; [exact Hrun|].
  destruct (scan_failure_becomes_the_pull_error endless_repo false _ _ Hrun)
    as (e & He & Herr & _ & Hloop & _);
    [cbn; eauto|reflexivity|reflexivity|discriminate|].
  split; [reflexivity|]. split; [reflexivity|exact Hloop].
Defined.

(** ** The coordinator: one request *)

(** X10. In the phase before the queues exist, with no request outstanding
    and no error caught, fetch_uri returns what the fetcher answers: the
    temp file, or the fetcher's own error.  It makes exactly one request,
    leaves the refs alone, and comes back with the main loop quit and the
    count of outstanding URI requests at zero again. *)
Theorem fetch_uri_returns_the_fetchers_answer (w : World) (uri : SoupURI)
  (s : PullState) :
  metadata_objects_to_scan (st_data s) = None ->
  caught_error (st_data s) = false ->
  outstanding_uri_requests (st_data s) = 0 ->
  let result := fetch_uri w uri s in
  result.1 = w_request_uri w uri
  /\ st_trace result.2 = st_trace s ++ [EvRequestUri uri]
  /\ st_refs result.2 = st_refs s
  /\ outstanding_uri_requests (st_data result.2) = 0
  /\ loop_is_running (st_data result.2) = false
  /\ caught_error (st_data result.2)
     = match w_request_uri w uri with GOk _ => false | GErr _ => true end.
Proof.
  intros Hq Hcaught Hout. cbn zeta.
  unfold fetch_uri. unfold_coord. cbn.
  unfold idle_check_outstanding_requests, check_outstanding_requests_handle_error,
    throw_async_error, run_mainloop_monitor_fetcher_result, async_failure, g_main_loop_quit.
  cbn. rewrite Hq. cbn. rewrite Hout. change (guint_inc 0) with 1. cbn.
  change (guint_dec 1) with 0.
  destruct (w_request_uri w uri) as [tmpf|e]; cbn; rewrite ?Hcaught; cbn; rewrite ?Hq; cbn;
    rewrite ?Hcaught; cbn; auto 10.
Qed.

Lemma fetch_uri_returns_the_fetchers_answer_witness :
  let w := example_world example_archive_config in
  let uri := mkSoupURI "http://h/r" ["config"] in
  let result := fetch_uri w uri (initial_state ∅) in
  result.1 = GOk "config"
  /\ st_trace result.2 = [EvRequestUri uri]
  /\ st_refs result.2 = ∅
  /\ outstanding_uri_requests (st_data result.2) = 0
  /\ loop_is_running (st_data result.2) = false
  /\ caught_error (st_data result.2) = false.
Proof.
  exact (fetch_uri_returns_the_fetchers_answer (example_world example_archive_config)
           (mkSoupURI "http://h/r" ["config"]) (initial_state ∅) eq_refl eq_refl eq_refl).
Defined.

(** ** The coordinator: configuration *)

(** X11. repo_get_string_key_inherit yields the value of the nearest
    repository that has the key: a value is returned exactly when some
    repository on the chain from the given one through its parents has the
    key, and every repository before it on the chain lacks the key or the
    group.  A value set in the repository itself hides its parents'. *)
Theorem inherited_key_comes_from_the_nearest_ancestor (repo : RepoConfig)
  (group key value : string) :
  repo_get_string_key_inherit repo group key = GOk value
  <-> exists i config,
        config_chain repo !! i = Some config
        /\ g_key_file_get_value config group key = GOk value
        /\ forall j config',
             (j < i)%nat -> config_chain repo !! j = Some config' ->
             exists e, g_key_file_get_value config' group key = GErr e
                       /\ is_not_found e = true.
Proof.
  revert repo. fix IH 1. intros [config parent].
  cbn [repo_get_string_key_inherit config_chain].
  destruct (g_key_file_get_value config group key) as [v|e] eqn:Hget.
  - split.
    + intros [= ->]. exists 0%nat, config. split; [reflexivity|]. split; [exact Hget|].
      intros j config' Hj. lia.
    + intros (i & config0 & Hi & Hv & Hbefore). destruct i as [|i].
      * injection Hi as <-. congruence.
      * destruct (Hbefore 0%nat config ltac:(lia) eq_refl) as (e & He & _). congruence.
  - destruct parent as [parent_repo|].
    + destruct (is_not_found e) eqn:Hnf.
      * rewrite (IH parent_repo). split.
        -- intros (i & config0 & Hi & Hv & Hbefore).
           exists (S i), config0. split; [exact Hi|]. split; [exact Hv|].
           intros [|j] config' Hj Hlook.
           ++ injection Hlook as <-. eauto.
           ++ apply (Hbefore j config'); [lia|exact Hlook].
        -- intros (i & config0 & Hi & Hv & Hbefore). destruct i as [|i].
           ++ injection Hi as <-. congruence.
           ++ exists i, config0. split; [exact Hi|]. split; [exact Hv|].
              intros j config' Hj Hlook.
              apply (Hbefore (S j) config'); [lia|exact Hlook].
      * split; [discriminate|].
        intros (i & config0 & Hi & Hv & Hbefore). destruct i as [|i].
        -- injection Hi as <-. congruence.
        -- destruct (Hbefore 0%nat config ltac:(lia) eq_refl) as (e' & He' & Hnf').
           congruence.
    + split; [discriminate|].
      intros (i & config0 & Hi & Hv & Hbefore). destruct i as [|i].
      * injection Hi as <-. congruence.
      * discriminate Hi.
Qed.

Lemma inherited_key_comes_from_the_nearest_ancestor_witness :
  repo_get_string_key_inherit example_child_repo
    ("remote " +:+ dquote +:+ "origin" +:+ dquote) "url" = GOk "http://h/r".
Proof.
  apply (proj2 (inherited_key_comes_from_the_nearest_ancestor example_child_repo
                  ("remote " +:+ dquote +:+ "origin" +:+ dquote) "url" "http://h/r")).
  exists 1%nat, (ostree_repo_get_config example_local_repo).
  split; [reflexivity|]. split; [reflexivity|].
  intros [|j] config' Hj Hlook; [|lia].
  injection Hlook as <-. eexists. split; reflexivity.
Defined.

(** ** The coordinator: the summary of refs *)






(** ** The coordinator: what a pull asks and what it changes *)

Lemma check_base_uri e p :
  base_uri (check_outstanding_requests_handle_error e p) = base_uri p.
Proof.
  unfold check_outstanding_requests_handle_error, throw_async_error, g_main_loop_quit.
  destruct e; destruct (metadata_objects_to_scan p) eqn:E;
    repeat match goal with |- context [if ?b then _ else _] => destruct b end;
    cbn; rewrite ?E; reflexivity.
Qed.

Lemma fetch_uri_frame w uri s :
  st_trace (fetch_uri w uri s).2 = st_trace s ++ [EvRequestUri uri]
  /\ st_refs (fetch_uri w uri s).2 = st_refs s
  /\ base_uri (st_data (fetch_uri w uri s).2) = base_uri (st_data s).
Proof.
  unfold fetch_uri. unfold_coord. cbn.
  destruct (run_mainloop_monitor_fetcher_result _);
    [destruct (w_request_uri w uri)|]; cbn;
    rewrite ?check_base_uri; cbn; unfold idle_check_outstanding_requests;
    rewrite ?check_base_uri; auto.
Qed.

Lemma fetch_uri_contents_utf8_frame w uri s :
  st_trace (fetch_uri_contents_utf8 w uri s).2 = st_trace s ++ [EvRequestUri uri]
  /\ st_refs (fetch_uri_contents_utf8 w uri s).2 = st_refs s
  /\ base_uri (st_data (fetch_uri_contents_utf8 w uri s).2) = base_uri (st_data s).
Proof.
  pose proof (fetch_uri_frame w uri s) as Hframe.
  unfold fetch_uri_contents_utf8. unfold_coord.
  destruct (fetch_uri w uri s) as [[tmpf|e] s1]; cbn in *; [|exact Hframe].
  destruct (w_load_contents w tmpf) as [contents|e]; cbn; [|exact Hframe].
  destruct (w_utf8_validate w contents); exact Hframe.
Qed.

(** What the remote serves for a branch: the file refs/heads/branch under
    the base URI reads as a digest, once its trailing whitespace is
    removed. *)
Lemma fetch_ref_contents_frame w ref s :
  let uri := suburi_new (base_uri (st_data s)) "refs" ["heads"; ref] in
  st_trace (fetch_ref_contents w ref s).2 = st_trace s ++ [EvRequestUri uri]
  /\ st_refs (fetch_ref_contents w ref s).2 = st_refs s
  /\ base_uri (st_data (fetch_ref_contents w ref s).2) = base_uri (st_data s).
Proof.
  cbn zeta.
  pose proof (fetch_uri_contents_utf8_frame w
                (suburi_new (base_uri (st_data s)) "refs" ["heads"; ref]) s) as Hframe.
  unfold fetch_ref_contents. unfold_coord. cbn.
  destruct (fetch_uri_contents_utf8 w _ s) as [[contents|e] s1]; cbn in *; [|exact Hframe].
  destruct (ostree_validate_checksum_string (g_strchomp contents)); exact Hframe.
Qed.

Lemma fetch_ref_contents_inv w ref s c s' :
  fetch_ref_contents w ref s = (GOk c, s') ->
  served w (base_uri (st_data s)) ref c.
Proof.
  unfold fetch_ref_contents. unfold cbind at 1. unfold get_data at 1.
  unfold cbind at 1.
  destruct (fetch_uri_contents_utf8 w _ s) as [[contents|e] s1] eqn:Hfetch;
    [|discriminate].
  apply fetch_uri_contents_utf8_inv in Hfetch as (tmpf & Hreq & Hload & Hutf).
  unfold cbind, clift, cret.
  destruct (ostree_validate_checksum_string (g_strchomp contents)) as [[]|e] eqn:Hsha;
    [|discriminate].
  intros [= <- _]. exists tmpf, contents. auto.
Qed.

Lemma pull_open_remote_course w repo argv s :
  let result := pull_open_remote w repo argv s in
  st_refs result.2 = st_refs s
  /\ ((st_trace result.2 = st_trace s /\ exists e, result.1 = GErr e)
      \/ exists prog remote branches baseurl base,
           argv = prog :: remote :: branches
           /\ w_option_context_parse w = None
           /\ w_repo_check w = GOk tt
           /\ repo_get_string_key_inherit repo
                ("remote " +:+ dquote +:+ remote +:+ dquote) "url" = GOk baseurl
           /\ w_soup_uri_new w baseurl = Some base
           /\ st_trace result.2 = st_trace s ++ [EvRequestUri (suburi_new base "config" [])]
           /\ base_uri (st_data result.2) = base
           /\ forall opened,
                result.1 = GOk opened ->
                opened.1.1.1.1 = remote /\ opened.1.1.1.2 = base
                /\ opened.1.1.2 = branches).
Proof.
  cbn zeta. remember (pull_open_remote w repo argv s) as result eqn:Hres.
  revert Hres. unfold pull_open_remote, load_remote_repo_config.
  unfold cbind at 1. unfold update_data at 1. cbn [st_data st_refs st_trace].
  unfold cbind at 1. unfold clift at 1.
  destruct (w_option_context_parse w) eqn:Hopt; [intros ->; cbn; eauto|].
  unfold cbind at 1. unfold clift at 1.
  destruct (w_repo_check w) as [[]|] eqn:Hcheck; [|intros ->; cbn; eauto].
  destruct argv as [|prog [|remote branches]]; [intros ->; cbn; eauto..|].
  unfold cbind at 1. unfold update_data at 1. cbn [st_data st_refs st_trace].
  unfold cbind at 1. unfold clift at 1.
  destruct (repo_get_string_key_inherit _ _ _) as [baseurl|] eqn:Hurl;
    [|intros ->; cbn; eauto].
  destruct (w_soup_uri_new w baseurl) as [base|] eqn:Huri; [|intros ->; cbn; eauto].
  unfold cbind at 1. unfold update_data at 1. cbn [st_data st_refs st_trace].
  unfold cbind at 1. unfold cbind at 1. unfold get_data at 1.
  cbn [st_data st_refs st_trace base_uri set_base_uri].
  unfold cbind at 1.
  match goal with
  | |- context [fetch_uri_contents_utf8 w ?uri ?s0] =>
      pose proof (fetch_uri_contents_utf8_frame w uri s0) as (Ht & Hr & Hb);
      destruct (fetch_uri_contents_utf8 w uri s0) as [[contents|e] s1]
  end; cbn [fst snd st_data st_refs st_trace base_uri set_base_uri] in *.
  2:{ intros ->. split; [exact Hr|]. right. exists prog, remote, branches, baseurl, base.
      repeat split; auto; intros; discriminate. }
  unfold clift at 1.
  destruct (w_key_file_load_from_data w contents) as [remote_config|] eqn:Hkf.
  2:{ intros ->. split; [exact Hr|]. right. exists prog, remote, branches, baseurl, base.
      repeat split; auto; intros; discriminate. }
  unfold cbind at 1. unfold clift at 1.
  destruct (w_keyfile_get_value_with_default w remote_config "core" "mode" "bare")
    as [mode_str|] eqn:Hmode_str.
  2:{ intros ->. split; [exact Hr|]. right. exists prog, remote, branches, baseurl, base.
      repeat split; auto; intros; discriminate. }
  unfold cbind at 1. unfold clift at 1.
  destruct (w_repo_mode_from_string w mode_str) as [mode|] eqn:Hmode.
  2:{ intros ->. split; [exact Hr|]. right. exists prog, remote, branches, baseurl, base.
      repeat split; auto; intros; discriminate. }
  unfold cbind, update_data, cret. cbn. intros ->.
  split; [exact Hr|]. right. exists prog, remote, branches, baseurl, base.
  repeat split; auto;
    match goal with H : _ = GOk _ |- _ => injection H as <- end; reflexivity.
Qed.





(** X14. Without branch arguments, a pull of a remote that the repository
    only inherits from its parent fails: the url of the remote is looked
    up through the parents, but the list of branches only in the
    repository's own configuration, where the missing group is an error
    other than the tolerated key-not-found.  The pull stops after the
    remote's config has been fetched, before any transaction. *)
Theorem pull_all_fails_for_an_inherited_remote (w : World) (repo : RepoConfig)
  (prog remote : string) (base : SoupURI) (remote_config : GKeyFile)
  (remote_mode_str : string) (s : PullState) :
  RemoteOpens w repo [prog; remote] remote base [] remote_config ->
  w_keyfile_get_value_with_default w remote_config "core" "mode" "bare"
  = GOk remote_mode_str ->
  w_repo_mode_from_string w remote_mode_str = GOk OSTREE_REPO_MODE_ARCHIVE_Z2 ->
  assoc ("remote " +:+ dquote +:+ remote +:+ dquote) (ostree_repo_get_config repo) = None ->
  exists e p',
    ostree_builtin_pull w repo [prog; remote] s
    = (GErr e,
       mkPullState p' (st_refs s)
         (st_trace s ++ [EvRequestUri (suburi_new base "config" [])]))
    /\ g_error_matches e G_KEY_FILE_ERROR_GROUP_NOT_FOUND = true.
Proof.
  intros Hopen Hstr Hmode Hgroup.
  destruct (pull_open_remote_run w repo [prog; remote] remote base [] remote_config
              remote_mode_str OSTREE_REPO_MODE_ARCHIVE_Z2 s Hopen Hstr Hmode)
    as (p' & Hrun & _).
  unfold ostree_builtin_pull, cbind. rewrite Hrun.
  rewrite bool_decide_eq_true_2 by reflexivity. cbn [negb].
  unfold pull_resolve_refs, g_key_file_get_value. rewrite Hgroup.
  cbn. unfold cfail. eauto.
Qed.

Lemma pull_all_fails_for_an_inherited_remote_witness :
  exists e p',
    ostree_builtin_pull (example_world example_archive_config) example_child_repo
      ["pull"; "origin"] (initial_state ∅)
    = (GErr e, mkPullState p' ∅ [EvRequestUri (mkSoupURI "http://h/r" ["config"])])
    /\ g_error_matches e G_KEY_FILE_ERROR_GROUP_NOT_FOUND = true.
Proof.
  apply (pull_all_fails_for_an_inherited_remote (example_world example_archive_config)
           example_child_repo "pull" "origin" (mkSoupURI "http://h/r" [])
           example_archive_config "archive-z2" (initial_state ∅)).
  - repeat split; eauto. exists "config", "config". repeat split; reflexivity.
  - reflexivity.
  - reflexivity.
  - reflexivity.
Defined.

(** X15. A pull asks nothing of the remote and changes nothing in the
    store unless the options parse, the repository checks, a remote is
    named on the command line, its url is configured in the repository or
    one of its parents, and the url parses.  When it does ask, the first
    file it requests is the remote's config. *)
Theorem first_request_is_the_remote_config (w : World) (repo : RepoConfig)
  (argv : list string) (refs0 : gmap string Checksum) :
  let result := ostree_builtin_pull w repo argv (initial_state refs0) in
  (st_trace result.2 = [] /\ st_refs result.2 = refs0 /\ exists e, result.1 = GErr e)
  \/ exists prog remote branches baseurl base rest,
       argv = prog :: remote :: branches
       /\ w_option_context_parse w = None
       /\ w_repo_check w = GOk tt
       /\ repo_get_string_key_inherit repo
            ("remote " +:+ dquote +:+ remote +:+ dquote) "url" = GOk baseurl
       /\ w_soup_uri_new w baseurl = Some base
       /\ st_trace result.2 = EvRequestUri (suburi_new base "config" []) :: rest.
Proof.
  cbn zeta.
  remember (ostree_builtin_pull w repo argv (initial_state refs0)) as result eqn:Hres.
  revert Hres. unfold ostree_builtin_pull. unfold cbind at 1.
  pose proof (pull_open_remote_course w repo argv (initial_state refs0))
    as (Hrefs & Hcourse).
  cbn zeta in Hrefs, Hcourse.
  destruct (pull_open_remote w repo argv (initial_state refs0))
    as [[opened|e] sA] eqn:Hopen; cbn [fst snd] in *.
  2:{ intros ->. cbn [fst snd].
      destruct Hcourse as [[Ht _]|
        (prog & remote & branches & baseurl & base & Hargv & Hopt & Hcheck & Hurl & Huri
         & Ht & _)].
      - left. eauto.
      - right. exists prog, remote, branches, baseurl, base, []. auto 10. }
  destruct Hcourse as [[_ [e He]]|
    (prog & remote & branches & baseurl & base & Hargv & Hopt & Hcheck & Hurl & Huri
     & Ht & _)]; [discriminate|].
  cbn in Ht.
  destruct opened as [[[[remote' base'] branches'] remote_mode_str] mode].
  intros ->. right. exists prog, remote, branches, baseurl, base.
  destruct (negb (bool_decide (mode = OSTREE_REPO_MODE_ARCHIVE_Z2))).
  { exists []. unfold cfail. cbn [snd]. auto 10. }
  unfold cbind.
  pose proof (pull_resolve_refs_requests_only w repo remote' base' branches' sA)
    as [_ [uris Huris]].
  destruct (pull_resolve_refs w repo remote' base' branches' sA)
    as [[resolved|e] sB]; cbn [fst snd] in *.
  - pose proof (pull_transfer_events w remote' resolved.1 resolved.2 sB)
      as (events & Htrace & _).
    cbn zeta in Htrace.
    exists ((EvRequestUri <$> uris) ++ events).
    rewrite Htrace, Huris, Ht. auto 10.
  - exists (EvRequestUri <$> uris). rewrite Huris, Ht. auto 10.
Qed.

Lemma first_request_is_the_remote_config_witness :
  let result :=
    ostree_builtin_pull (example_world example_archive_config) example_local_repo
      ["pull"] (initial_state ∅) in
  st_trace result.2 = [] /\ st_refs result.2 = ∅ /\ exists e, result.1 = GErr e.
Proof.
  destruct (first_request_is_the_remote_config (example_world example_archive_config)
              example_local_repo ["pull"] ∅)
    as [H|(prog & remote & branches & _ & _ & _ & Hargv & _)];
    [exact H|discriminate Hargv].
Defined.

(** ** The coordinator: the refs after a pull *)

(** X16. The refs are not written as one: when ostree_repo_write_ref fails
    for one of the updated refs, the loop stops with that error, the refs
    written before it stay written, and the refs behind it are not
    attempted. *)
Theorem ref_writes_are_not_rolled_back (w : World) (remote : string)
  (updated : list (string * Checksum)) (s s' : PullState) (e : GError) :
  write_updated_refs w remote updated s = (GErr e, s') ->
  exists written failed rest,
    updated = written ++ failed :: rest
    /\ Forall (fun x => w_write_ref w remote x.1 x.2 = GOk tt) written
    /\ w_write_ref w remote failed.1 failed.2 = GErr e
    /\ st_refs s'
       = foldl (fun m x => <[remote_ref_name remote x.1 := x.2]> m) (st_refs s) written
    /\ st_trace s' = st_trace s ++ write_events remote (written ++ [failed])
    /\ st_data s' = st_data s.
Proof.
  revert s. induction updated as [|[ref checksum] rest IH]; intros s;
    cbn [write_updated_refs]; [discriminate|].
  unfold ostree_repo_write_ref. unfold_coord. cbn.
  destruct (w_write_ref w remote ref checksum) as [[]|e0] eqn:Hwrite; cbn.
  - intros Hrun. apply IH in Hrun
      as (written & failed & rest' & -> & Hok & Hfail & Hrefs & Htrace & Hdata).
    exists ((ref, checksum) :: written), failed, rest'. cbn in *.
    split; [reflexivity|]. split; [constructor; assumption|]. split; [exact Hfail|].
    split; [exact Hrefs|]. split; [|exact Hdata].
    rewrite Htrace, <- app_assoc. reflexivity.
  - intros [= <- <-]. exists [], (ref, checksum), rest. cbn. auto 10.
Qed.

Lemma ref_writes_are_not_rolled_back_witness :
  let w := world_refusing_ref (example_world example_archive_config) "b" in
  exists e s',
    write_updated_refs w "origin" [("a", "d1"); ("b", "d2"); ("c", "d3")] (initial_state ∅)
    = (GErr e, s')
    /\ st_refs s' = {["origin/a" := "d1"]}
    /\ st_trace s' = [EvWriteRef "origin" "a" "d1"; EvWriteRef "origin" "b" "d2"].
Proof.
  cbn zeta.
  lazymatch eval vm_compute in
    (write_updated_refs (world_refusing_ref (example_world example_archive_config) "b")
       "origin" [("a", "d1"); ("b", "d2"); ("c", "d3")] (initial_state ∅)) with
  | (GErr ?e, ?s') =>
      exists e, s';
      assert (Hrun : write_updated_refs
                       (world_refusing_ref (example_world example_archive_config) "b")
                       "origin" [("a", "d1"); ("b", "d2"); ("c", "d3")] (initial_state ∅)
                     = (GErr e, s')) by (vm_compute; reflexivity)
  end.
  split; [exact Hrun|].
  destruct (ref_writes_are_not_rolled_back _ _ _ _ _ _ Hrun)
    as (written & failed & rest & Hsplit & Hok & Hfail & Hrefs & Htrace & _).
  split; vm_compute; reflexivity.
Defined.

Lemma resolve_arguments_served w base branches :
  forall commits refs s resolved s',
    base_uri (st_data s) = base ->
    resolve_arguments w branches commits refs s = (GOk resolved, s') ->
    base_uri (st_data s') = base
    /\ (forall b, is_Some (refs !! b) -> is_Some (resolved.2 !! b))
    /\ (forall b,
          b ∈ branches -> ostree_validate_checksum_string b <> GOk tt ->
          is_Some (resolved.2 !! b))
    /\ (forall b sha,
          resolved.2 !! b = Some sha -> refs !! b = Some sha \/ served w base b sha).
Proof.
  induction branches as [|b rest IH]; intros commits refs s resolved s' Hbase;
    cbn [resolve_arguments].
  - unfold cret. intros [= <- <-]. cbn. split; [exact Hbase|].
    split; [auto|]. split; [|auto].
    intros b Hin. apply elem_of_nil in Hin. contradiction.
  - destruct (ostree_validate_checksum_string b) as [[]|e] eqn:Hb.
    + intros Hrun. destruct (IH _ _ _ _ _ Hbase Hrun) as (H1 & H2 & H3 & H4).
      split; [exact H1|]. split; [exact H2|]. split; [|exact H4].
      intros b' [->|Hin]%elem_of_cons Hne; [congruence|]. apply H3; assumption.
    + unfold cbind.
      pose proof (fetch_ref_contents_frame w b s) as (_ & _ & Hb1). cbn zeta in Hb1.
      destruct (fetch_ref_contents w b s) as [[c|e'] s1] eqn:Hfetch; [|discriminate].
      apply fetch_ref_contents_inv in Hfetch. rewrite Hbase in Hfetch.
      cbn [snd] in Hb1. rewrite Hbase in Hb1.
      intros Hrun. destruct (IH _ _ _ _ _ Hb1 Hrun) as (H1 & H2 & H3 & H4).
      split; [exact H1|]. split; [|split].
      * intros b' Hsome. apply H2.
        destruct (decide (b = b')) as [<-|Hne].
        -- rewrite lookup_insert_eq. eauto.
        -- rewrite lookup_insert_ne by exact Hne. exact Hsome.
      * intros b' [->|Hin]%elem_of_cons Hne.
        -- apply H2. rewrite lookup_insert_eq. eauto.
        -- apply H3; assumption.
      * intros b' sha Hlook. destruct (H4 b' sha Hlook) as [Hacc|Hserved]; [|auto].
        destruct (decide (b = b')) as [<-|Hne].
        -- rewrite lookup_insert_eq in Hacc. injection Hacc as <-. auto.
        -- rewrite lookup_insert_ne in Hacc by exact Hne. auto.
Qed.

(** X17. After a pull with branch arguments has succeeded, every branch
    named on the command line has its ref remote/branch in the store at
    the digest the remote serves for it: the text of refs/heads/branch
    under the remote's url, without its trailing whitespace, accepted as
    a digest. *)
Theorem successful_pull_sets_every_requested_branch (w : World) (repo : RepoConfig)
  (prog remote : string) (branches : list string) (refs0 : gmap string Checksum)
  (s1 : PullState) :
  branches <> [] ->
  ostree_builtin_pull w repo (prog :: remote :: branches) (initial_state refs0)
  = (GOk tt, s1) ->
  exists baseurl base,
    repo_get_string_key_inherit repo
      ("remote " +:+ dquote +:+ remote +:+ dquote) "url" = GOk baseurl
    /\ w_soup_uri_new w baseurl = Some base
    /\ forall b,
         b ∈ branches -> ostree_validate_checksum_string b <> GOk tt ->
         exists sha,
           served w base b sha
           /\ st_refs s1 !! remote_ref_name remote b = Some sha.
Proof.
  intros Hne. unfold ostree_builtin_pull. unfold cbind at 1.
  pose proof (pull_open_remote_course w repo (prog :: remote :: branches)
                (initial_state refs0)) as (_ & Hcourse).
  cbn zeta in Hcourse.
  destruct (pull_open_remote w repo (prog :: remote :: branches) (initial_state refs0))
    as [[opened|e] sA] eqn:Hopen; cbn [fst snd] in *; [|discriminate].
  destruct Hcourse as [[_ [e He]]|
    (prog' & remote' & branches' & baseurl & base & Hargv & _ & _ & Hurl & Huri & _
     & Hbase & Hopened)]; [discriminate|].
  injection Hargv as <- <- <-.
  destruct (Hopened opened eq_refl) as (Hremote & Hb & Hbranches).
  destruct opened as [[[[remote' base'] branches'] remote_mode_str] mode].
  cbn in Hremote, Hb, Hbranches. subst remote' base' branches'.
  destruct (negb (bool_decide (mode = OSTREE_REPO_MODE_ARCHIVE_Z2))); [discriminate|].
  unfold cbind. unfold pull_resolve_refs.
  destruct branches as [|b0 rest] eqn:Hbr; [contradiction|]. rewrite <- Hbr in *.
  destruct (resolve_arguments w branches ∅ ∅ sA) as [[resolved|e] sB] eqn:Hresolve;
    [|discriminate].
  destruct (resolve_arguments_served w base branches _ _ _ _ _ Hbase Hresolve)
    as (_ & _ & Hdom & Hserved).
  intros Htransfer. exists baseurl, base. split; [exact Hurl|]. split; [exact Huri|].
  intros b Hin Hnot. destruct (Hdom b Hin Hnot) as [sha Hsha].
  exists sha. split.
  - destruct (Hserved b sha Hsha) as [Hempty|H]; [|exact H].
    rewrite lookup_empty in Hempty. discriminate.
  - eapply pull_transfer_refs; eassumption.
Qed.

Lemma successful_pull_sets_every_requested_branch_witness :
  exists s1 sha,
    ostree_builtin_pull (example_world example_archive_config) example_local_repo
      ["pull"; "origin"; "main"] (initial_state ∅) = (GOk tt, s1)
    /\ served (example_world example_archive_config) (mkSoupURI "http://h/r" []) "main" sha
    /\ st_refs s1 !! "origin/main" = Some sha.
Proof.
  lazymatch eval vm_compute in
    (ostree_builtin_pull (example_world example_archive_config) example_local_repo
       ["pull"; "origin"; "main"] (initial_state ∅)) with
  | (GOk _, ?s1) =>
      exists s1;
      assert (Hrun : ostree_builtin_pull (example_world example_archive_config)
                       example_local_repo ["pull"; "origin"; "main"] (initial_state ∅)
                     = (GOk tt, s1)) by (vm_compute; reflexivity)
  end.
  assert (Hne : ["main"] <> []) by discriminate.
  destruct (successful_pull_sets_every_requested_branch
              (example_world example_archive_config) example_local_repo
              "pull" "origin" ["main"] ∅ _ Hne Hrun)
    as (baseurl & base & Hurl & Huri & Hall).
  vm_compute in Hurl. injection Hurl as <-.
  vm_compute in Huri. injection Huri as <-.
  destruct (Hall "main") as (sha & Hserved & Hsha).
  - apply list_elem_of_singleton. reflexivity.
  - vm_compute. discriminate.
  - exists sha. split; [exact Hrun|]. split; [exact Hserved|exact Hsha].
Defined.

(** ** What the main thread leaves alone *)

Lemma throw_async_error_scanner_fields e p :
  scanner_thread_fields (throw_async_error e p) = scanner_thread_fields p.
Proof.
  unfold throw_async_error, g_main_loop_quit.
  destruct e; [destruct (caught_error p)|]; reflexivity.
Qed.

Lemma check_scanner_fields e p :
  scanner_thread_fields (check_outstanding_requests_handle_error e p)
  = scanner_thread_fields p.
Proof.
  rewrite <- (throw_async_error_scanner_fields e p).
  unfold check_outstanding_requests_handle_error, g_main_loop_quit.
  destruct (metadata_objects_to_scan (throw_async_error e p));
    repeat match goal with |- context [if ?b then _ else _] => destruct b end;
    reflexivity.
Qed.

(** X18. No callback of the main thread writes a field that belongs to the
    scanner thread: the idle check, the dispatcher's handler, the four
    completion callbacks and idle_throw_error leave the set of scanned
    objects, the two ledgers of requested digests, the count of scanned
    objects and the state of the scanner's loop as they were. *)
Theorem main_thread_leaves_the_scanner_fields (ps : Parsers) (p p' : OtPullData) :
  idle_check_outstanding_requests p = p'
  \/ on_metadata_objects_to_fetch_ready p = Ret tt p'
  \/ (exists result fetch_data, meta_fetch_on_complete ps result fetch_data p = Ret tt p')
  \/ (exists result fetch_data,
        content_fetch_on_complete ps result fetch_data p = Ret tt p')
  \/ (exists result fetch_data, on_metadata_staged result fetch_data p = Ret tt p')
  \/ (exists result fetch_data,
        content_fetch_on_stage_complete result fetch_data p = Ret tt p')
  \/ idle_throw_error p = p' ->
  scanner_thread_fields p' = scanner_thread_fields p.
Proof.
  intros [<-|[Hrun|[(result & fd & Hrun)|[(result & fd & Hrun)|[(result & fd & Hrun)
         |[(result & fd & Hrun)|<-]]]]]].
  - apply check_scanner_fields.
  - revert Hrun. unfold on_metadata_objects_to_fetch_ready. unfold_pull.
    destruct (metadata_objects_to_fetch p) as [[|msg q]|]; [| |discriminate].
    + intros [= <-]. apply check_scanner_fields.
    + destruct msg as [serial|serial|[c t]|item|]; cbn; try discriminate.
      * destruct (metadata_scan_idle p); cbn.
        -- intros [= <-]. rewrite check_scanner_fields. reflexivity.
        -- destruct (metadata_objects_to_scan p); cbn; [|discriminate].
           intros [= <-]. rewrite check_scanner_fields. reflexivity.
      * destruct (serial =? idle_serial p); cbn.
        -- destruct (metadata_scan_idle p); cbn; [discriminate|].
           intros [= <-]. rewrite check_scanner_fields. reflexivity.
        -- intros [= <-]. rewrite check_scanner_fields. reflexivity.
      * destruct (OSTREE_OBJECT_TYPE_IS_META t); cbn; intros [= <-];
          rewrite check_scanner_fields; reflexivity.
  - revert Hrun. unfold meta_fetch_on_complete. unfold_pull.
    destruct (fd_object fd) as [c t].
    destruct result as [tmpf|e]; cbn;
      [destruct (ot_util_variant_map ps tmpf t); cbn|];
      intros [= <-]; rewrite throw_async_error_scanner_fields; reflexivity.
  - revert Hrun. unfold content_fetch_on_complete. unfold_pull.
    destruct (fd_object fd) as [c t].
    destruct result as [tmpf|e]; cbn.
    + case_bool_decide; cbn; [|discriminate].
      destruct (ostree_content_file_parse ps tmpf); cbn;
        [destruct (ostree_raw_file_to_content_stream ps tmpf); cbn|];
        intros [= <-]; rewrite check_scanner_fields; reflexivity.
    + intros [= <-]. rewrite check_scanner_fields. reflexivity.
  - revert Hrun. unfold on_metadata_staged. unfold_pull.
    destruct (fd_object fd) as [c t].
    destruct result as [csum|e]; cbn.
    + destruct (OSTREE_OBJECT_TYPE_IS_META t); cbn; [|discriminate].
      destruct (String.eqb csum c); cbn; [|discriminate].
      destruct (metadata_objects_to_scan p); cbn; [|discriminate].
      intros [= <-]. rewrite check_scanner_fields. reflexivity.
    + intros [= <-]. rewrite check_scanner_fields. reflexivity.
  - revert Hrun. unfold content_fetch_on_stage_complete. unfold_pull.
    destruct (fd_object fd) as [c t].
    destruct result as [csum|e]; cbn.
    + case_bool_decide; cbn; [|discriminate].
      destruct (String.eqb csum c); cbn; [|discriminate].
      intros [= <-]. rewrite check_scanner_fields. reflexivity.
    + intros [= <-]. rewrite check_scanner_fields. reflexivity.
  - unfold idle_throw_error. destruct (main_context_invocations p); [reflexivity|].
    rewrite throw_async_error_scanner_fields. reflexivity.
Qed.

Lemma main_thread_leaves_the_scanner_fields_witness :
  exists p',
    on_metadata_objects_to_fetch_ready pull_data_two_fetches = Ret tt p'
    /\ scanner_thread_fields p' = scanner_thread_fields pull_data_two_fetches.
Proof.
  exists_returned.
  assert (Hrun : on_metadata_objects_to_fetch_ready pull_data_two_fetches = Ret tt _)
    by (vm_compute; reflexivity).
  split; [exact Hrun|].
  apply (main_thread_leaves_the_scanner_fields example_parsers pull_data_two_fetches).
  right. left. exact Hrun.
Defined.

(** ** The coordinator: the order of its calls *)

(** X19. The calls of a pull on the fetcher and the store come in one
    order: first the requests for the config and the ref files, then
    prepare_transaction, then the main loop, then commit_transaction, then
    the write_ref calls.  The main loop is started only when the
    transaction was prepared, the transaction is committed only when the
    main loop came back without an error, and a pull that stops earlier
    fails. *)
Theorem transaction_brackets_the_object_phase (w : World) (repo : RepoConfig)
  (argv : list string) (refs0 : gmap string Checksum) :
  let result := ostree_builtin_pull w repo argv (initial_state refs0) in
  exists uris tail,
    st_trace result.2 = (EvRequestUri <$> uris) ++ tail
    /\ ((tail = [] /\ exists e, result.1 = GErr e)
        \/ (tail = [EvPrepareTransaction] /\ exists e, result.1 = GErr e)
        \/ (exists p,
              tail = [EvPrepareTransaction; EvMainLoop p]
              /\ w_prepare_transaction w = GOk tt
              /\ caught_error (w_main_loop_run w p) = true
              /\ exists e, result.1 = GErr e)
        \/ (exists p remote written,
              tail = [EvPrepareTransaction; EvMainLoop p; EvCommitTransaction]
                     ++ write_events remote written
              /\ w_prepare_transaction w = GOk tt
              /\ caught_error (w_main_loop_run w p) = false)).
Proof.
  cbn zeta.
  remember (ostree_builtin_pull w repo argv (initial_state refs0)) as result eqn:Hres.
  revert Hres. unfold ostree_builtin_pull. unfold cbind at 1.
  pose proof (pull_open_remote_requests_only w repo argv (initial_state refs0))
    as [_ [uris1 Ht1]].
  cbn [st_trace initial_state app] in Ht1.
  destruct (pull_open_remote w repo argv (initial_state refs0))
    as [[opened|e] sA]; cbn [fst snd] in *.
  2:{ intros ->. exists uris1, []. rewrite app_nil_r. split; [exact Ht1|]. left. eauto. }
  destruct opened as [[[[remote base] branches] remote_mode_str] mode].
  destruct (negb (bool_decide (mode = OSTREE_REPO_MODE_ARCHIVE_Z2))).
  { unfold cfail. intros ->. exists uris1, []. rewrite app_nil_r.
    split; [exact Ht1|]. left. eauto. }
  unfold cbind.
  pose proof (pull_resolve_refs_requests_only w repo remote base branches sA)
    as [_ [uris2 Ht2]].
  destruct (pull_resolve_refs w repo remote base branches sA)
    as [[resolved|e] sB]; cbn [fst snd] in *.
  2:{ intros ->. cbn [fst snd]. exists (uris1 ++ uris2), [].
      rewrite app_nil_r, fmap_app.
      split; [rewrite Ht2, Ht1; reflexivity|]. left. eauto. }
  assert (Ht : st_trace sB = EvRequestUri <$> (uris1 ++ uris2)).
  { rewrite fmap_app, Ht2, Ht1. reflexivity. }
  rewrite pull_transfer_course. intros ->. exists (uris1 ++ uris2).
  destruct (w_prepare_transaction w) as [[]|e]; cbn [fst snd st_trace].
  2:{ exists [EvPrepareTransaction]. rewrite Ht. split; [reflexivity|]. right. left. eauto. }
  destruct (seeding_failure _ _ _) as [[e handled]|]; cbn [fst snd st_trace].
  { exists [EvPrepareTransaction]. rewrite Ht. split; [reflexivity|]. right. left. eauto. }
  destruct (caught_error _) eqn:Hcaught; cbn [fst snd st_trace].
  { eexists. rewrite Ht, <- app_assoc. split; [reflexivity|].
    right. right. left. eexists. split; [reflexivity|]. eauto. }
  destruct (w_commit_transaction w) as [[]|e]; cbn [fst snd st_trace].
  2:{ eexists. rewrite Ht, <- !app_assoc. split; [reflexivity|].
      right. right. right. eexists _, remote, []. cbn. split; [reflexivity|]. auto. }
  match goal with |- context [write_updated_refs w remote ?u ?s0] =>
    destruct (write_updated_refs_spec w remote u s0) as (written & _ & Htrace & _ & _)
  end.
  eexists. rewrite Htrace. cbn [st_trace]. rewrite Ht, <- !app_assoc.
  split; [reflexivity|].
  right. right. right. eexists _, remote, written. cbn. split; [reflexivity|]. auto.
Qed.

Lemma transaction_brackets_the_object_phase_witness :
  let w := example_world example_archive_config in
  let result :=
    ostree_builtin_pull w example_local_repo ["pull"; "origin"; "main"] (initial_state ∅) in
  exists uris tail,
    st_trace result.2 = (EvRequestUri <$> uris) ++ tail
    /\ ((tail = [] /\ exists e, result.1 = GErr e)
        \/ (tail = [EvPrepareTransaction] /\ exists e, result.1 = GErr e)
        \/ (exists p,
              tail = [EvPrepareTransaction; EvMainLoop p]
              /\ w_prepare_transaction w = GOk tt
              /\ caught_error (w_main_loop_run w p) = true
              /\ exists e, result.1 = GErr e)
        \/ (exists p remote written,
              tail = [EvPrepareTransaction; EvMainLoop p; EvCommitTransaction]
                     ++ write_events remote written
              /\ w_prepare_transaction w = GOk tt
              /\ caught_error (w_main_loop_run w p) = false)).
Proof.
  exact (transaction_brackets_the_object_phase (example_world example_archive_config)
           example_local_repo ["pull"; "origin"; "main"] ∅).
Defined.

Lemma resolve_configured_branches_served w base branches :
  forall refs s resolved s',
    base_uri (st_data s) = base ->
    resolve_configured_branches w branches refs s = (GOk resolved, s') ->
    (forall b, is_Some (refs !! b) -> is_Some (resolved !! b))
    /\ (forall b, b ∈ branches -> is_Some (resolved !! b))
    /\ (forall b sha,
          resolved !! b = Some sha -> refs !! b = Some sha \/ served w base b sha).
Proof.
  induction branches as [|b rest IH]; intros refs s resolved s' Hbase;
    cbn [resolve_configured_branches].
  - unfold cret. intros [= <- <-]. split; [auto|]. split; [|auto].
    intros b Hin. apply elem_of_nil in Hin. contradiction.
  - unfold cbind.
    pose proof (fetch_ref_contents_frame w b s) as (_ & _ & Hb1). cbn zeta in Hb1.
    destruct (fetch_ref_contents w b s) as [[c|e'] s1] eqn:Hfetch; [|discriminate].
    apply fetch_ref_contents_inv in Hfetch. rewrite Hbase in Hfetch.
    cbn [snd] in Hb1. rewrite Hbase in Hb1.
    intros Hrun. destruct (IH _ _ _ _ Hb1 Hrun) as (H2 & H3 & H4).
    split; [|split].
    + intros b' Hsome. apply H2.
      destruct (decide (b = b')) as [<-|Hne].
      * rewrite lookup_insert_eq. eauto.
      * rewrite lookup_insert_ne by exact Hne. exact Hsome.
    + intros b' [->|Hin]%elem_of_cons.
      * apply H2. rewrite lookup_insert_eq. eauto.
      * apply H3; assumption.
    + intros b' sha Hlook. destruct (H4 b' sha Hlook) as [Hacc|Hserved]; [|auto].
      destruct (decide (b = b')) as [<-|Hne].
      * rewrite lookup_insert_eq in Hacc. injection Hacc as <-. auto.
      * rewrite lookup_insert_ne in Hacc by exact Hne. auto.
Qed.

(** X20. After a pull without branch arguments has succeeded: if the
    repository's own configuration lists branches for the remote, every
    listed branch has its ref remote/branch at the digest the remote
    serves for it; if it does not have the key, every ref of the remote's
    refs/summary file, as parse_ref_summary reads it, has its ref
    remote/ref at the digest listed there. *)
Theorem successful_pull_without_arguments_sets_the_refs (w : World) (repo : RepoConfig)
  (prog remote : string) (refs0 : gmap string Checksum) (s1 : PullState) :
  ostree_builtin_pull w repo [prog; remote] (initial_state refs0) = (GOk tt, s1) ->
  exists baseurl base,
    repo_get_string_key_inherit repo
      ("remote " +:+ dquote +:+ remote +:+ dquote) "url" = GOk baseurl
    /\ w_soup_uri_new w baseurl = Some base
    /\ match g_key_file_get_value (ostree_repo_get_config repo)
               ("remote " +:+ dquote +:+ remote +:+ dquote) "branches" with
       | GOk value =>
           forall b,
             b ∈ w_key_file_string_list w value ->
             exists sha,
               served w base b sha
               /\ st_refs s1 !! remote_ref_name remote b = Some sha
       | GErr e =>
           g_error_matches e G_KEY_FILE_ERROR_KEY_NOT_FOUND = true
           /\ exists tmpf summary refs,
                w_request_uri w (suburi_new base "refs" ["summary"]) = GOk tmpf
                /\ w_load_contents w tmpf = GOk summary
                /\ parse_ref_summary w summary = GOk refs
                /\ forall ref sha,
                     refs !! ref = Some sha ->
                     st_refs s1 !! remote_ref_name remote ref = Some sha
       end.
Proof.
  unfold ostree_builtin_pull. unfold cbind at 1.
  pose proof (pull_open_remote_course w repo [prog; remote] (initial_state refs0))
    as (_ & Hcourse).
  cbn zeta in Hcourse.
  destruct (pull_open_remote w repo [prog; remote] (initial_state refs0))
    as [[opened|e] sA] eqn:Hopen; cbn [fst snd] in *; [|discriminate].
  destruct Hcourse as [[_ [e He]]|
    (prog' & remote' & branches' & baseurl & base & Hargv & _ & _ & Hurl & Huri & _
     & Hbase & Hopened)]; [discriminate|].
  injection Hargv as <- <- <-.
  destruct (Hopened opened eq_refl) as (Hremote & Hb & Hbranches).
  destruct opened as [[[[remote' base'] branches'] remote_mode_str] mode].
  cbn in Hremote, Hb, Hbranches. subst remote' base' branches'.
  destruct (negb (bool_decide (mode = OSTREE_REPO_MODE_ARCHIVE_Z2))); [discriminate|].
  unfold cbind at 1. unfold pull_resolve_refs.
  intros Hrun. exists baseurl, base. split; [exact Hurl|]. split; [exact Huri|].
  revert Hrun.
  destruct (g_key_file_get_value (ostree_repo_get_config repo) _ "branches")
    as [value|temp_error].
  - unfold cbind at 1.
    destruct (resolve_configured_branches w (w_key_file_string_list w value) ∅ sA)
      as [[refs|e] sB] eqn:Hresolve; [|discriminate].
    unfold cret. cbn [fst snd]. intros Htransfer b Hin.
    destruct (resolve_configured_branches_served w base _ _ _ _ _ Hbase Hresolve)
      as (_ & Hdom & Hserved).
    destruct (Hdom b Hin) as [sha Hsha]. exists sha. split.
    + destruct (Hserved b sha Hsha) as [Hempty|H]; [|exact H].
      rewrite lookup_empty in Hempty. discriminate.
    + eapply pull_transfer_refs; eassumption.
  - destruct (g_error_matches temp_error G_KEY_FILE_ERROR_KEY_NOT_FOUND);
      [|discriminate].
    unfold cbind at 1.
    destruct (fetch_uri_contents_utf8 w (suburi_new base "refs" ["summary"]) sA)
      as [[summary|e] sB] eqn:Hfetch; [|discriminate].
    apply fetch_uri_contents_utf8_inv in Hfetch as (tmpf & Hreq & Hload & _).
    unfold cbind at 1. unfold clift at 1.
    destruct (parse_ref_summary w summary) as [refs|e] eqn:Hparse; [|discriminate].
    unfold cret. cbn [fst snd]. intros Htransfer.
    split; [reflexivity|]. exists tmpf, summary, refs.
    split; [exact Hreq|]. split; [exact Hload|]. split; [exact Hparse|].
    intros ref sha Hlook. eapply pull_transfer_refs; eassumption.
Qed.

Lemma successful_pull_without_arguments_sets_the_refs_witness :
  exists s1 sha,
    ostree_builtin_pull (example_world example_archive_config) example_tracking_repo
      ["pull"; "origin"] (initial_state ∅) = (GOk tt, s1)
    /\ served (example_world example_archive_config) (mkSoupURI "http://h/r" []) "main" sha
    /\ st_refs s1 !! "origin/main" = Some sha.
Proof.
  lazymatch eval vm_compute in
    (ostree_builtin_pull (example_world example_archive_config) example_tracking_repo
       ["pull"; "origin"] (initial_state ∅)) with
  | (GOk _, ?s1) =>
      exists s1;
      assert (Hrun : ostree_builtin_pull (example_world example_archive_config)
                       example_tracking_repo ["pull"; "origin"] (initial_state ∅)
                     = (GOk tt, s1)) by (vm_compute; reflexivity)
  end.
  destruct (successful_pull_without_arguments_sets_the_refs
              (example_world example_archive_config) example_tracking_repo
              "pull" "origin" ∅ _ Hrun)
    as (baseurl & base & Hurl & Huri & Hall).
  vm_compute in Hurl. injection Hurl as <-.
  vm_compute in Huri. injection Huri as <-.
  change (g_key_file_get_value (ostree_repo_get_config example_tracking_repo)
            ("remote " +:+ dquote +:+ "origin" +:+ dquote) "branches")
    with (@GOk string "main") in Hall.
  destruct (Hall "main") as (sha & Hserved & Hsha).
  - apply list_elem_of_singleton. reflexivity.
  - exists sha. split; [exact Hrun|]. split; [exact Hserved|exact Hsha].
Defined.

(** ** The coordinator: the struct it hands to the main loop *)

Lemma untouched_bind {A B} (m : Coord A) (k : A -> Coord B) :
  untouched m -> (forall a, untouched (k a)) -> untouched (cbind m k).
Proof.
  intros Hm Hk s. unfold cbind. specialize (Hm s).
  destruct (m s) as [[a|e] s1]; cbn [snd] in *; [|exact Hm].
  rewrite (Hk a s1). exact Hm.
Qed.

Lemma untouched_ret {A} (a : A) : untouched (cret a).
Proof. intros s. reflexivity. Qed.

Lemma untouched_fail {A} e : untouched (@cfail A e).
Proof. intros s. reflexivity. Qed.

Lemma untouched_lift {A} (r : gresult A) : untouched (clift r).
Proof. intros s. reflexivity. Qed.

Lemma untouched_log ev : untouched (log ev).
Proof. intros s. reflexivity. Qed.

Lemma untouched_get : untouched get_data.
Proof. intros s. reflexivity. Qed.

Lemma untouched_update f :
  (forall p, object_phase_fields (f p) = object_phase_fields p) ->
  untouched (update_data f).
Proof. intros Hf s. apply Hf. Qed.

Lemma check_object_phase_fields e p :
  object_phase_fields (check_outstanding_requests_handle_error e p)
  = object_phase_fields p.
Proof.
  unfold check_outstanding_requests_handle_error, throw_async_error, g_main_loop_quit.
  destruct e; destruct (metadata_objects_to_scan p) eqn:E;
    repeat match goal with |- context [if ?b then _ else _] => destruct b end;
    cbn; rewrite ?E; reflexivity.
Qed.

Lemma fetch_uri_untouched w uri : untouched (fetch_uri w uri).
Proof.
  unfold fetch_uri.
  apply untouched_bind; [apply untouched_update; reflexivity|intros _].
  apply untouched_bind; [apply untouched_log|intros _].
  apply untouched_bind.
  { apply untouched_update. intros p. unfold idle_check_outstanding_requests.
    rewrite check_object_phase_fields. reflexivity. }
  intros _. apply untouched_bind.
  { apply untouched_update. intros p. rewrite check_object_phase_fields. reflexivity. }
  intros _. apply untouched_bind; [apply untouched_get|intros p].
  destruct (run_mainloop_monitor_fetcher_result p);
    [apply untouched_lift|apply untouched_fail].
Qed.

Lemma fetch_uri_contents_utf8_untouched w uri : untouched (fetch_uri_contents_utf8 w uri).
Proof.
  unfold fetch_uri_contents_utf8.
  apply untouched_bind; [apply fetch_uri_untouched|intros tmpf].
  apply untouched_bind; [apply untouched_lift|intros contents].
  destruct (w_utf8_validate w contents); [apply untouched_ret|apply untouched_fail].
Qed.

Lemma fetch_ref_contents_untouched w ref : untouched (fetch_ref_contents w ref).
Proof.
  unfold fetch_ref_contents.
  apply untouched_bind; [apply untouched_get|intros p].
  apply untouched_bind; [apply fetch_uri_contents_utf8_untouched|intros contents].
  apply untouched_bind; [apply untouched_lift|intros _]. apply untouched_ret.
Qed.

Lemma resolve_arguments_untouched w branches :
  forall commits refs, untouched (resolve_arguments w branches commits refs).
Proof.
  induction branches as [|b rest IH]; intros commits refs; cbn [resolve_arguments].
  - apply untouched_ret.
  - destruct (ostree_validate_checksum_string b); [apply IH|].
    apply untouched_bind; [apply fetch_ref_contents_untouched|intros c]. apply IH.
Qed.

Lemma resolve_configured_branches_untouched w branches :
  forall refs, untouched (resolve_configured_branches w branches refs).
Proof.
  induction branches as [|b rest IH]; intros refs; cbn [resolve_configured_branches].
  - apply untouched_ret.
  - apply untouched_bind; [apply fetch_ref_contents_untouched|intros c]. apply IH.
Qed.

Lemma pull_resolve_refs_untouched w repo remote base branches :
  untouched (pull_resolve_refs w repo remote base branches).
Proof.
  unfold pull_resolve_refs. destruct branches as [|b rest].
  - destruct (g_key_file_get_value _ _ _) as [value|temp_error].
    + apply untouched_bind; [apply resolve_configured_branches_untouched|intros refs].
      apply untouched_ret.
    + destruct (g_error_matches _ _); [|apply untouched_fail].
      apply untouched_bind; [apply fetch_uri_contents_utf8_untouched|intros d].
      apply untouched_bind; [apply untouched_lift|intros refs]. apply untouched_ret.
  - apply resolve_arguments_untouched.
Qed.

Lemma pull_open_remote_from_zero w repo argv s :
  object_phase_fields (st_data (pull_open_remote w repo argv s).2)
  = object_phase_fields pull_data_zero.
Proof.
  unfold pull_open_remote. unfold cbind at 1. unfold update_data at 1.
  match goal with
  | |- context [?rest {| st_data := pull_data_zero; st_refs := ?r; st_trace := ?t |}] =>
      assert (Hrest : untouched rest); [|exact (Hrest (mkPullState pull_data_zero r t))]
  end.
  apply untouched_bind; [apply untouched_lift|intros _].
  apply untouched_bind; [apply untouched_lift|intros _].
  destruct argv as [|prog [|remote branches]]; try apply untouched_fail.
  apply untouched_bind; [apply untouched_update; reflexivity|intros _].
  apply untouched_bind; [apply untouched_lift|intros baseurl].
  destruct (w_soup_uri_new w baseurl); [|apply untouched_fail].
  apply untouched_bind; [apply untouched_update; reflexivity|intros _].
  apply untouched_bind.
  - unfold load_remote_repo_config.
    apply untouched_bind; [apply untouched_get|intros p].
    apply untouched_bind; [apply fetch_uri_contents_utf8_untouched|intros c].
    apply untouched_lift.
  - intros remote_config.
    apply untouched_bind; [apply untouched_lift|intros mode_str].
    apply untouched_bind; [apply untouched_lift|intros mode].
    apply untouched_bind; [apply untouched_update; reflexivity|intros _].
    apply untouched_ret.
Qed.

(** X21. A pull starts its main loop with nothing in flight: the four
    outstanding counters and the four progress counters are zero, the
    fetcher and the store hold no request, the scan-idle flag is clear,
    idle_serial is 1, and the messages pushed for the scanner are SCAN
    messages for commits and then MAIN_IDLE with the serial 1.  The
    scanner thread runs since g_thread_new: its queue holds what it has
    left of those messages, and nothing is said of the fields it writes. *)
Theorem main_loop_starts_with_nothing_in_flight (w : World) (repo : RepoConfig)
  (argv : list string) (refs0 : gmap string Checksum) (p : OtPullData) :
  EvMainLoop p ∈ st_trace (ostree_builtin_pull w repo argv (initial_state refs0)).2 ->
  Balanced p
  /\ outstanding_all_zero p
  /\ n_requested_metadata p = 0 /\ n_requested_content p = 0
  /\ n_fetched_metadata p = 0 /\ n_fetched_content p = 0
  /\ fetcher p = [] /\ repo_stages p = []
  /\ metadata_scan_idle p = false
  /\ idle_serial p = 1
  /\ exists commits,
       scan_queue_left
         (((fun c => PULL_MSG_SCAN (c, OSTREE_OBJECT_TYPE_COMMIT)) <$> commits)
          ++ [PULL_MSG_MAIN_IDLE 1]) p.
Proof.
  unfold ostree_builtin_pull. unfold cbind at 1.
  pose proof (pull_open_remote_requests_only w repo argv (initial_state refs0))
    as [_ [uris1 Ht1]].
  pose proof (pull_open_remote_from_zero w repo argv (initial_state refs0)) as Hzero.
  cbn [st_trace initial_state app] in Ht1.
  assert (Hnone : forall uris : list SoupURI, EvMainLoop p ∈ EvRequestUri <$> uris -> False).
  { intros uris Hin. apply list_elem_of_fmap in Hin as (uri & Huri & _). discriminate. }
  destruct (pull_open_remote w repo argv (initial_state refs0))
    as [[opened|e] sA]; cbn [fst snd] in *.
  2:{ rewrite Ht1. intros Hin. destruct (Hnone _ Hin). }
  destruct opened as [[[[remote base] branches] remote_mode_str] mode].
  destruct (negb (bool_decide (mode = OSTREE_REPO_MODE_ARCHIVE_Z2))).
  { unfold cfail. cbn [snd]. rewrite Ht1. intros Hin. destruct (Hnone _ Hin). }
  unfold cbind.
  pose proof (pull_resolve_refs_requests_only w repo remote base branches sA)
    as [_ [uris2 Ht2]].
  pose proof (pull_resolve_refs_untouched w repo remote base branches sA) as Hsame.
  destruct (pull_resolve_refs w repo remote base branches sA)
    as [[resolved|e] sB]; cbn [fst snd] in *.
  2:{ rewrite Ht2, Ht1, <- fmap_app. intros Hin. destruct (Hnone _ Hin). }
  pose proof (pull_transfer_events w remote resolved.1 resolved.2 sB)
    as (events & Htrace & Hloop & _).
  cbn zeta in Htrace, Hloop. rewrite Htrace, Ht2, Ht1, <- fmap_app.
  intros [Hin|Hin]%elem_of_app; [destruct (Hnone _ Hin)|].
  apply Hloop in Hin as ->.
  rewrite Hzero in Hsame.
  injection Hsame as E1 E2 E3 E4 E5 E6 E7 E8 E9 E10 E11 E12 E13 E14 E15 E16 E17 E18 E19 E20.
  destruct (main_loop_input_queue w (st_data sB) resolved.1
              (changed_refs remote (st_refs sB) (map_to_list resolved.2)))
    as [Hleft Hfields].
  cbn zeta in Hleft, Hfields.
  set (p_in := main_loop_input w (st_data sB) resolved.1
                 (changed_refs remote (st_refs sB) (map_to_list resolved.2))) in *.
  unfold main_thread_fields in Hfields. cbn in Hfields.
  injection Hfields as F1 F2 F3 F4 F5 F6 F7 F8 F9 F10 F11 F12 F13 F14 F15 F16 F17 F18 F19.
  rewrite E8 in F7. change (guint_inc 0) with 1 in F7.
  split.
  { constructor; unfold fetches_in_flight, stages_in_flight;
      rewrite ?F8, ?F9, ?F10, ?F11, ?F12, ?F13, ?F14, ?F15, ?F18, ?F19,
        ?E9, ?E10, ?E11, ?E12, ?E13, ?E14, ?E15, ?E16, ?E17, ?E18; reflexivity. }
  split; [unfold outstanding_all_zero; repeat split; congruence|].
  do 8 (split; [congruence|]).
  exists (elements resolved.1
          ++ (changed_refs remote (st_refs sB) (map_to_list resolved.2)).*2).
  rewrite E8 in Hleft. change (guint_inc 0) with 1 in Hleft.
  rewrite fmap_app, <- !app_assoc. unfold scan_seeds in Hleft.
  rewrite <- list_fmap_compose. exact Hleft.
Qed.

Lemma main_loop_starts_with_nothing_in_flight_witness :
  exists p,
    EvMainLoop p
    ∈ st_trace (ostree_builtin_pull
                  (world_with_eager_scanner (example_world example_archive_config)
                     small_repo)
                  example_local_repo ["pull"; "origin"; "main"]
                  (initial_state {["origin/main" := digest "aa01"]})).2
    /\ Balanced p
    /\ idle_serial p = 1
    /\ fetcher p = []
    /\ metadata_objects_to_scan p = Some []
    /\ metadata_objects_to_fetch p = Some [PULL_MSG_MAIN_IDLE 1; PULL_MSG_SCAN_IDLE 0].
Proof.
  lazymatch eval vm_compute in
    (st_trace (ostree_builtin_pull
                 (world_with_eager_scanner (example_world example_archive_config)
                    small_repo)
                 example_local_repo ["pull"; "origin"; "main"]
                 (initial_state {["origin/main" := digest "aa01"]})).2) with
  | [_; _; _; EvMainLoop ?p; _] =>
      exists p;
      assert (Hin : EvMainLoop p
                    ∈ st_trace (ostree_builtin_pull
                                  (world_with_eager_scanner
                                     (example_world example_archive_config) small_repo)
                                  example_local_repo ["pull"; "origin"; "main"]
                                  (initial_state {["origin/main" := digest "aa01"]})).2)
        by (vm_compute; do 3 apply list_elem_of_further; apply list_elem_of_here)
  end.
  split; [exact Hin|].
  destruct (main_loop_starts_with_nothing_in_flight _ _ _ _ _ Hin)
    as (Hbal & _ & _ & _ & _ & _ & Hfetcher & _ & _ & Hserial & _).
  repeat split; auto.
Defined.
